(** * ThreadPool: a shallow embedding of [ThreadPool.h] and the properties
      of its queue, workers and lifecycle operations.

    The pool is modelled as a labelled transition system.  One thread (the
    caller, the owner of the [ThreadPool] object) invokes the operations
    [Init], [Enqueue] and [Stop]; every [std::thread] spawned by
    [InitThead] is a worker with its own program counter.  A step is one
    access to shared data: a queue operation under [_tasksMutex], a read
    or write of an atomic, an acquire or release of [_threadsMutex], a
    wait or notify on [_signal], a join. *)

From Stdlib Require Import ZArith List Bool Lia String.
From stdpp Require Import base option list.

Set Default Proof Using "Type".

(** ** Machine integers *)

(** [unsigned int] and [int] are 32 bits wide. *)
Definition wrap_uint (x : Z) : Z := (x mod 2 ^ 32)%Z.
Definition wrap_int (x : Z) : Z := ((x + 2 ^ 31) mod 2 ^ 32 - 2 ^ 31)%Z.

(** ** Task units and result handles *)

(** What the submitted callable does when it is run with a worker id. *)
Inductive outcome :=
| Returns (v : Z)
| Throws (what : string).

(** The shared state between a [std::packaged_task] and its [std::future]. *)
Inductive shared_state :=
| Pending
| Ready (o : outcome)
| BrokenPromise.

(** A heap-allocated [std::function<TaskFunction>] (line 94): the closure
    over the packaged task, with two counters that record what the pool
    did to it. *)
Record task_unit := TaskUnit {
  callable : Z → outcome;
  runs : nat;      (* invocations by a worker, line 175 *)
  frees : nat;     (* deletions: [delete pTask] and [pTaskFunc]'s destructor *)
  future : shared_state
}.

(** Invoking the packaged task (line 94): it runs the callable and stores
    the value or the exception in the shared state, which is written once. *)
Definition invoke (id : Z) (u : task_unit) : task_unit :=
  {| callable := callable u;
     runs := S (runs u);
     frees := frees u;
     future := match future u with
               | Pending => Ready (callable u id)
               | st => st
               end |}.

(** Deleting the closure drops the packaged task; a packaged task that is
    destroyed before it ran abandons its shared state. *)
Definition release (u : task_unit) : task_unit :=
  {| callable := callable u;
     runs := runs u;
     frees := S (frees u);
     future := match future u with
               | Pending => BrokenPromise
               | st => st
               end |}.

Definition new_task (f : Z → outcome) : task_unit :=
  {| callable := f; runs := 0; frees := 0; future := Pending |}.

(** Reading a result handle: [future::get]. *)
Inductive read_result :=
| Blocks
| Yields (v : Z)
| Rethrows (what : string)
| FutureError.

Definition get (st : shared_state) : read_result :=
  match st with
  | Pending => Blocks
  | Ready (Returns v) => Yields v
  | Ready (Throws e) => Rethrows e
  | BrokenPromise => FutureError
  end.

(** ** The task queue *)

(** Task units are referred to by their address in the task heap. *)
Definition PushTask (task : nat) (q : list nat) : list nat := q ++ [task].

Definition PopTask (q : list nat) : option (nat * list nat) :=
  match q with
  | [] => None
  | task :: q' => Some (task, q')
  end.

(** ** Threads *)

Inductive thread_id :=
| Caller
| Worker (τ : nat).

Global Instance thread_id_eq_dec : EqDecision thread_id.
Proof. solve_decision. Defined.

(** An element of [_threads]: a [unique_ptr<std::thread>]. *)
Inductive thandle :=
| Null
| Joinable (τ : nat)
| NotJoinable.

Definition joinable (h : thandle) : bool :=
  match h with Joinable _ => true | _ => false end.

(** Where a worker is in [threadFunction] (lines 164-196). *)
Inductive wpc :=
| WStart                       (* 169: first PopTask *)
| WRun (task : nat)            (* 174-175: the task is in flight *)
| WCheck (task : nat)          (* 177: reads threadStopFlag *)
| WPop (task : nat)            (* 180: PopTask, then the finished task is deleted *)
| WLock                        (* 184: locks _threadsMutex *)
| WInc                         (* 185: ++_idleThreadsCount *)
| WPredPop                     (* 188: the predicate pops *)
| WPredDone                    (* 189: the predicate reads _doneFlag *)
| WPredFlag                    (* 189: the predicate reads threadStopFlag *)
| WWaiting                     (* 186: blocked in wait, the lock released *)
| WWoken                       (* 186: notified, locks _threadsMutex again *)
| WDec (got : option nat)      (* 191: --_idleThreadsCount *)
| WUnlock (got : option nat)   (* 193-195: leaves the scope of the lock *)
| WExit.                       (* returned *)

Inductive tstatus :=
| Attached
| Detached
| Joined.

Record worker := MkWorker {
  w_index : Z;         (* the captured [index] *)
  w_stop : nat;        (* the captured [stopFlag]: address of its atomic<bool> *)
  w_pc : wpc;
  w_status : tstatus
}.

(** Where the caller is inside an operation. *)
Inductive cpc :=
| CIdle
| CEnqLock                     (* 96 *)
| CEnqNotify                   (* 97 *)
| CEnqUnlock                   (* 98-99 *)
| CStopFlags (i tc : Z)        (* 64-67 *)
| CStopClear1                  (* 69 *)
| CStopLock                    (* 73 *)
| CStopNotify                  (* 74 *)
| CStopUnlock                  (* 75 *)
| CStopJoin (i : Z)            (* 77-83 *)
| CStopClear2                  (* 85 *)
| CStopFinish                  (* 86-87 *)
| CInitGrow (i n : Z)          (* 135-139 *)
| CInitShrink (i n : Z)        (* 143-147 *)
| CInitLock (n : Z)            (* 151 *)
| CInitNotify (n : Z)          (* 152 *)
| CInitUnlock (n : Z)          (* 153 *)
| CInitResize (n : Z)          (* 155-156 *)
| CCrashed.                    (* undefined behaviour or std::terminate *)

(** ** The pool *)

Record pool := MkPool {
  _tasks : list nat;
  _threads : list thandle;
  _threadsStopFlags : list (option nat);
  _idleThreadsCount : Z;
  _doneFlag : bool;
  _stopFlag : bool;
  _threadsMutex : option thread_id;
  (* memory and threads outside the object *)
  stop_heap : list bool;
  task_heap : list task_unit;
  os_threads : list worker;
  caller : cpc
}.

Definition empty_pool : pool :=
  {| _tasks := []; _threads := []; _threadsStopFlags := [];
     _idleThreadsCount := 0; _doneFlag := false; _stopFlag := false;
     _threadsMutex := None;
     stop_heap := []; task_heap := []; os_threads := []; caller := CIdle |}.

Definition ThreadsCount (s : pool) : Z :=
  wrap_uint (Z.of_nat (length (_threads s))).

Definition IdleThreadsCount (s : pool) : Z := _idleThreadsCount s.

(** *** Field updates *)

Definition set_tasks (q : list nat) (s : pool) : pool :=
  MkPool q (_threads s) (_threadsStopFlags s) (_idleThreadsCount s)
    (_doneFlag s) (_stopFlag s) (_threadsMutex s)
    (stop_heap s) (task_heap s) (os_threads s) (caller s).

Definition set_threads (ths : list thandle) (s : pool) : pool :=
  MkPool (_tasks s) ths (_threadsStopFlags s) (_idleThreadsCount s)
    (_doneFlag s) (_stopFlag s) (_threadsMutex s)
    (stop_heap s) (task_heap s) (os_threads s) (caller s).

Definition set_flags (fl : list (option nat)) (s : pool) : pool :=
  MkPool (_tasks s) (_threads s) fl (_idleThreadsCount s)
    (_doneFlag s) (_stopFlag s) (_threadsMutex s)
    (stop_heap s) (task_heap s) (os_threads s) (caller s).

Definition set_idle (n : Z) (s : pool) : pool :=
  MkPool (_tasks s) (_threads s) (_threadsStopFlags s) n
    (_doneFlag s) (_stopFlag s) (_threadsMutex s)
    (stop_heap s) (task_heap s) (os_threads s) (caller s).

Definition set_done (b : bool) (s : pool) : pool :=
  MkPool (_tasks s) (_threads s) (_threadsStopFlags s) (_idleThreadsCount s)
    b (_stopFlag s) (_threadsMutex s)
    (stop_heap s) (task_heap s) (os_threads s) (caller s).

Definition set_stop (b : bool) (s : pool) : pool :=
  MkPool (_tasks s) (_threads s) (_threadsStopFlags s) (_idleThreadsCount s)
    (_doneFlag s) b (_threadsMutex s)
    (stop_heap s) (task_heap s) (os_threads s) (caller s).

Definition set_mutex (m : option thread_id) (s : pool) : pool :=
  MkPool (_tasks s) (_threads s) (_threadsStopFlags s) (_idleThreadsCount s)
    (_doneFlag s) (_stopFlag s) m
    (stop_heap s) (task_heap s) (os_threads s) (caller s).

Definition set_stop_heap (h : list bool) (s : pool) : pool :=
  MkPool (_tasks s) (_threads s) (_threadsStopFlags s) (_idleThreadsCount s)
    (_doneFlag s) (_stopFlag s) (_threadsMutex s)
    h (task_heap s) (os_threads s) (caller s).

Definition set_task_heap (h : list task_unit) (s : pool) : pool :=
  MkPool (_tasks s) (_threads s) (_threadsStopFlags s) (_idleThreadsCount s)
    (_doneFlag s) (_stopFlag s) (_threadsMutex s)
    (stop_heap s) h (os_threads s) (caller s).

Definition set_os_threads (ws : list worker) (s : pool) : pool :=
  MkPool (_tasks s) (_threads s) (_threadsStopFlags s) (_idleThreadsCount s)
    (_doneFlag s) (_stopFlag s) (_threadsMutex s)
    (stop_heap s) (task_heap s) ws (caller s).

Definition set_caller (c : cpc) (s : pool) : pool :=
  MkPool (_tasks s) (_threads s) (_threadsStopFlags s) (_idleThreadsCount s)
    (_doneFlag s) (_stopFlag s) (_threadsMutex s)
    (stop_heap s) (task_heap s) (os_threads s) c.

Definition goto (τ : nat) (w : worker) (pc : wpc) (s : pool) : pool :=
  set_os_threads
    (<[τ := MkWorker (w_index w) (w_stop w) pc (w_status w)]> (os_threads s)) s.

(** [delete] of the task unit at address [t]. *)
Definition delete_task (t : nat) (s : pool) : pool :=
  set_task_heap (alter release t (task_heap s)) s.

(** ** FIFO order of the queue *)

Fixpoint pop_all (fuel : nat) (q : list nat) : list nat :=
  match fuel with
  | O => []
  | S fuel' =>
      match PopTask q with
      | Some (t, q') => t :: pop_all fuel' q'
      | None => []
      end
  end.

(** [v[i]] for an unsigned index: outside the vector the access is
    undefined. *)
Definition at_index {A} (v : list A) (i : Z) : option A :=
  if (0 <=? i)%Z && (i <? Z.of_nat (length v))%Z then v !! Z.to_nat i else None.

(** ** The worker: [threadFunction], lines 164-196 *)

Definition acquire (me : thread_id) (s : pool) : option pool :=
  match _threadsMutex s with
  | None => Some (set_mutex (Some me) s)
  | Some _ => None
  end.

Definition unlock (s : pool) : pool := set_mutex None s.

Definition worker_step (τ : nat) (s : pool) : option pool :=
  w ← os_threads s !! τ;
  match w_pc w with
  | WStart =>
      match PopTask (_tasks s) with
      | Some (t, q) => Some (goto τ w (WRun t) (set_tasks q s))
      | None => Some (goto τ w WLock s)
      end
  | WRun t =>
      u ← task_heap s !! t;
      Some (goto τ w (WCheck t) (set_task_heap (<[t := invoke (w_index w) u]> (task_heap s)) s))
  | WCheck t =>
      b ← stop_heap s !! w_stop w;
      if b : bool then Some (goto τ w WExit (delete_task t s))
      else Some (goto τ w (WPop t) s)
  | WPop t =>
      match PopTask (_tasks s) with
      | Some (t', q) => Some (goto τ w (WRun t') (delete_task t (set_tasks q s)))
      | None => Some (goto τ w WLock (delete_task t s))
      end
  | WLock =>
      s' ← acquire (Worker τ) s;
      Some (goto τ w WInc s')
  | WInc =>
      Some (goto τ w WPredPop (set_idle (wrap_int (_idleThreadsCount s + 1)) s))
  | WPredPop =>
      match PopTask (_tasks s) with
      | Some (t, q) => Some (goto τ w (WDec (Some t)) (set_tasks q s))
      | None => Some (goto τ w WPredDone s)
      end
  | WPredDone =>
      if _doneFlag s then Some (goto τ w (WDec None) s)
      else Some (goto τ w WPredFlag s)
  | WPredFlag =>
      b ← stop_heap s !! w_stop w;
      if b : bool then Some (goto τ w (WDec None) s)
      else Some (goto τ w WWaiting (unlock s))
  | WWaiting => None
  | WWoken =>
      s' ← acquire (Worker τ) s;
      Some (goto τ w WPredPop s')
  | WDec got =>
      Some (goto τ w (WUnlock got) (set_idle (wrap_int (_idleThreadsCount s - 1)) s))
  | WUnlock (Some t) => Some (goto τ w (WRun t) (unlock s))
  | WUnlock None => Some (goto τ w WExit (unlock s))
  | WExit => None
  end.

(** ** The condition variable [_signal] *)

Definition is_waiting (w : worker) : bool :=
  match w_pc w with WWaiting => true | _ => false end.

Definition wake (w : worker) : worker :=
  if is_waiting w then MkWorker (w_index w) (w_stop w) WWoken (w_status w) else w.

Definition notify_all (s : pool) : pool :=
  set_os_threads (wake <$> os_threads s) s.

(** [notify_one] wakes one of the waiting threads, here the one the
    scheduler picked, and does nothing when no thread waits. *)
Definition notify_one (pick : nat) (s : pool) : option pool :=
  if existsb is_waiting (os_threads s) then
    w ← os_threads s !! pick;
    if is_waiting w then Some (goto pick w WWoken s) else None
  else Some s.

(** A wait may also end without a notification. *)
Definition spurious_wakeup (τ : nat) (s : pool) : option pool :=
  w ← os_threads s !! τ;
  if is_waiting w then Some (goto τ w WWoken s) else None.

(** ** The caller: [Init], [Enqueue], [Stop] *)

(** [Init] is private: the two constructors call it, on the empty pool,
    and the destructor calls [Stop(true)].  Its body is written for a
    pool that already has threads (it grows or shrinks [_threads]), so
    the caller of the model may invoke it between any two operations;
    the executions of a pool as its clients can drive it are those that
    begin with one call of [Init] and have no other. *)
Inductive op :=
| OpInit (threadsCount : Z)
| OpEnqueue (task : Z → outcome)
| OpStop (waitForThreads : bool).

(** [Init], lines 121-133 and 141-143: the guards, and the entry into the
    growing or the shrinking loop. *)
Definition Init (threadsCount : Z) (s : pool) : pool :=
  if _stopFlag s || _doneFlag s then s
  else
    let currentThreadsCount := ThreadsCount s in
    if (currentThreadsCount =? threadsCount)%Z then s
    else if (currentThreadsCount <? threadsCount)%Z then
      set_caller (CInitGrow currentThreadsCount threadsCount)
        (set_flags (resize (Z.to_nat threadsCount) None (_threadsStopFlags s))
           (set_threads (resize (Z.to_nat threadsCount) Null (_threads s)) s))
    else
      set_caller (CInitShrink (wrap_uint (currentThreadsCount - 1)) threadsCount) s.

(** One iteration of [for (i = currentThreadsCount; i < threadsCount; i++)],
    lines 135-139, with [InitThead(i)]: the flag is allocated, the thread
    is started and its handle stored. *)
Definition grow_step (i n : Z) (s : pool) : pool :=
  if (i <? n)%Z then
    match at_index (_threads s) i, at_index (_threadsStopFlags s) i with
    | Some _, Some _ =>
        let p := length (stop_heap s) in
        let τ := length (os_threads s) in
        MkPool (_tasks s)
          (<[Z.to_nat i := Joinable τ]> (_threads s))
          (<[Z.to_nat i := Some p]> (_threadsStopFlags s))
          (_idleThreadsCount s) (_doneFlag s) (_stopFlag s) (_threadsMutex s)
          (stop_heap s ++ [false]) (task_heap s)
          (os_threads s ++ [MkWorker i p WStart Attached])
          (CInitGrow (wrap_uint (i + 1)) n)
    | _, _ => set_caller CCrashed s
    end
  else set_caller CIdle s.

(** One iteration of [for (i = currentThreadsCount - 1; i >= threadsCount; i--)],
    lines 143-147, with [i] unsigned: the flag is set and the thread
    detached. *)
Definition shrink_step (i n : Z) (s : pool) : pool :=
  if (n <=? i)%Z then
    match at_index (_threadsStopFlags s) i, at_index (_threads s) i with
    | Some (Some p), Some (Joinable τ) =>
        match os_threads s !! τ with
        | Some w =>
            if decide (p < length (stop_heap s)) then
              MkPool (_tasks s)
                (<[Z.to_nat i := NotJoinable]> (_threads s))
                (_threadsStopFlags s)
                (_idleThreadsCount s) (_doneFlag s) (_stopFlag s) (_threadsMutex s)
                (<[p := true]> (stop_heap s)) (task_heap s)
                (<[τ := MkWorker (w_index w) (w_stop w) (w_pc w) Detached]> (os_threads s))
                (CInitShrink (wrap_uint (i - 1)) n)
            else set_caller CCrashed s
        | None => set_caller CCrashed s
        end
    | _, _ => set_caller CCrashed s
    end
  else set_caller (CInitLock n) s.

(** [Enqueue], lines 93-95: the task unit is allocated and pushed. *)
Definition Enqueue (task : Z → outcome) (s : pool) : pool :=
  let pTask := length (task_heap s) in
  set_caller CEnqLock
    (set_tasks (PushTask pTask (_tasks s))
       (set_task_heap (task_heap s ++ [new_task task]) s)).

(** [Stop], lines 52-63: the guards and the flag that is set. *)
Definition Stop (waitForThreads : bool) (s : pool) : pool :=
  if waitForThreads then
    if _doneFlag s || _stopFlag s then s
    else set_caller CStopLock (set_done true s)
  else
    if _stopFlag s then s
    else set_caller (CStopFlags 0 (ThreadsCount s)) (set_stop true s).

Definition call (o : op) (s : pool) : option pool :=
  match caller s with
  | CIdle =>
      match o with
      | OpInit n => if decide (0 ≤ n < 2 ^ 32)%Z then Some (Init n s) else None
      | OpEnqueue f => Some (Enqueue f s)
      | OpStop b => Some (Stop b s)
      end
  | _ => None
  end.

(** One iteration of [ClearTasks], lines 218-225. *)
Definition clear_step (next : cpc) (s : pool) : pool :=
  match PopTask (_tasks s) with
  | Some (t, q) => delete_task t (set_tasks q s)
  | None => set_caller next s
  end.

Definition caller_step (pick : nat) (s : pool) : option pool :=
  match caller s with
  | CIdle => None
  | CEnqLock => set_caller CEnqNotify <$> acquire Caller s
  | CEnqNotify => set_caller CEnqUnlock <$> notify_one pick s
  | CEnqUnlock => Some (set_caller CIdle (unlock s))
  | CStopFlags i tc =>
      if (i <? tc)%Z then
        match at_index (_threadsStopFlags s) i with
        | Some (Some p) =>
            if decide (p < length (stop_heap s)) then
              Some (set_caller (CStopFlags (wrap_uint (i + 1)) tc)
                      (set_stop_heap (<[p := true]> (stop_heap s)) s))
            else Some (set_caller CCrashed s)
        | _ => Some (set_caller CCrashed s)
        end
      else Some (set_caller CStopClear1 s)
  | CStopClear1 => Some (clear_step CStopLock s)
  | CStopLock => set_caller CStopNotify <$> acquire Caller s
  | CStopNotify => Some (set_caller CStopUnlock (notify_all s))
  | CStopUnlock => Some (set_caller (CStopJoin 0) (unlock s))
  | CStopJoin i =>
      if (i <? ThreadsCount s)%Z then
        match at_index (_threads s) i with
        | Some (Joinable τ) =>
            w ← os_threads s !! τ;
            match w_pc w with
            | WExit =>
                Some (set_caller (CStopJoin (wrap_uint (i + 1)))
                        (set_threads (<[Z.to_nat i := NotJoinable]> (_threads s))
                           (set_os_threads
                              (<[τ := MkWorker (w_index w) (w_stop w) WExit Joined]>
                                 (os_threads s)) s)))
            | _ => None
            end
        | Some NotJoinable => Some (set_caller (CStopJoin (wrap_uint (i + 1))) s)
        | _ => Some (set_caller CCrashed s)
        end
      else Some (set_caller CStopClear2 s)
  | CStopClear2 => Some (clear_step CStopFinish s)
  | CStopFinish =>
      if existsb joinable (_threads s) then Some (set_caller CCrashed s)
      else Some (set_caller CIdle (set_flags [] (set_threads [] s)))
  | CInitGrow i n => Some (grow_step i n s)
  | CInitShrink i n => Some (shrink_step i n s)
  | CInitLock n => set_caller (CInitNotify n) <$> acquire Caller s
  | CInitNotify n => Some (set_caller (CInitUnlock n) (notify_all s))
  | CInitUnlock n => Some (set_caller (CInitResize n) (unlock s))
  | CInitResize n =>
      if existsb joinable (drop (Z.to_nat n) (_threads s))
      then Some (set_caller CCrashed s)
      else Some (set_caller CIdle
                   (set_flags (resize (Z.to_nat n) None (_threadsStopFlags s))
                      (set_threads (resize (Z.to_nat n) Null (_threads s)) s)))
  | CCrashed => None
  end.

(** ** Executions *)

Inductive label :=
| Call (o : op)         (* the caller invokes an operation *)
| Act (pick : nat)      (* the caller's next step inside an operation *)
| Run (τ : nat)         (* the next step of worker τ *)
| Spurious (τ : nat).   (* a spurious wakeup of worker τ *)

Definition crashed (s : pool) : bool :=
  match caller s with CCrashed => true | _ => false end.

(** Nothing is known of the process once the caller has crashed: the
    execution ends there. *)
Definition step (l : label) (s : pool) : option pool :=
  if crashed s then None
  else
    match l with
    | Call o => call o s
    | Act pick => caller_step pick s
    | Run τ => worker_step τ s
    | Spurious τ => spurious_wakeup τ s
    end.

Fixpoint exec (ls : list label) (s : pool) : option pool :=
  match ls with
  | [] => Some s
  | l :: ls' => s' ← step l s; exec ls' s'
  end.

Definition reachable (s : pool) : Prop := ∃ ls, exec ls empty_pool = Some s.

Definition pc_of (s : pool) (τ : nat) : option wpc := w_pc <$> os_threads s !! τ.

Definition flag_of (s : pool) (w : worker) : option bool := stop_heap s !! w_stop w.

Definition handle_of (s : pool) (t : nat) : option shared_state :=
  future <$> task_heap s !! t.

Definition push_all (ts : list nat) (q : list nat) : list nat :=
  fold_left (λ q t, PushTask t q) ts q.

(** ** Invariants of the reachable states *)

(** Where the loops of the caller stand, relative to the size of
    [_threads]. *)
Definition phase_bounds (c : cpc) (len : Z) : Prop :=
  match c with
  | CInitGrow i n => (0 ≤ i ≤ n ∧ n < 2 ^ 32 ∧ len = n)%Z
  | CInitShrink i n =>
      (0 ≤ n ∧ 0 ≤ i < 2 ^ 32 ∧ n ≤ wrap_uint (i + 1) ≤ len)%Z
  | CInitLock n | CInitNotify n | CInitUnlock n | CInitResize n =>
      (0 ≤ n ≤ len)%Z
  | CStopFlags i tc => (0 ≤ i ≤ tc ∧ tc = len)%Z
  | CStopJoin i => (0 ≤ i ≤ len)%Z
  | _ => True
  end.

(** The pointers held by the pool and by the workers are valid, and the
    two vectors have the same length. *)
Definition wf_pointers (s : pool) : Prop :=
  (∀ τ w, os_threads s !! τ = Some w → w_stop w < length (stop_heap s)) ∧
  (∀ i p, _threadsStopFlags s !! i = Some (Some p) → p < length (stop_heap s)) ∧
  length (_threadsStopFlags s) = length (_threads s) ∧
  (Z.of_nat (length (_threads s)) < 2 ^ 32)%Z ∧
  phase_bounds (caller s) (Z.of_nat (length (_threads s))).

(** Who holds [_threadsMutex]: the worker between lines 184 and 195 except
    while it is blocked in [wait], the caller around a notification. *)
Definition holds_lock (pc : wpc) : bool :=
  match pc with
  | WInc | WPredPop | WPredDone | WPredFlag | WDec _ | WUnlock _ => true
  | _ => false
  end.

Definition caller_holds_lock (c : cpc) : bool :=
  match c with
  | CEnqNotify | CEnqUnlock | CStopNotify | CStopUnlock
  | CInitNotify _ | CInitUnlock _ => true
  | _ => false
  end.

Definition lock_inv (s : pool) : Prop :=
  (∀ τ w, os_threads s !! τ = Some w →
          (_threadsMutex s = Some (Worker τ) ↔ holds_lock (w_pc w) = true)) ∧
  (∀ τ, _threadsMutex s = Some (Worker τ) → τ < length (os_threads s)) ∧
  (_threadsMutex s = Some Caller ↔ caller_holds_lock (caller s) = true).

(** ** Sample executions *)

Definition ok_task : Z → outcome := λ id, Returns (id + 10).
Definition fail_task : Z → outcome := λ _, Throws "failed".

Definition acts (n : nat) : list label := replicate n (Act 0).
Definition runs_of (τ n : nat) : list label := replicate n (Run τ).

(** The constructor: [Init(n)] and its loop. *)
Definition construct (n : nat) : list label :=
  Call (OpInit (Z.of_nat n)) :: match n with O => [] | _ => acts (S n) end.

(** A complete call of [Enqueue]. *)
Definition enqueue (f : Z → outcome) : list label := Call (OpEnqueue f) :: acts 3.

(** One worker that went to sleep on an empty queue, then [Stop(true)]
    to its end. *)
Definition stop_true_trace : list label :=
  construct 1 ++ runs_of 0 6 ++ [Call (OpStop true)] ++ acts 3 ++
  runs_of 0 5 ++ acts 4.

(** The same with [Stop(false)]. *)
Definition stop_false_trace : list label :=
  construct 1 ++ runs_of 0 6 ++ [Call (OpStop false)] ++ acts 6 ++
  runs_of 0 6 ++ acts 4.

(** The state an execution from the empty pool ends in. *)
Definition after (ls : list label) : pool := default empty_pool (exec ls empty_pool).

(** A worker that has run its task while [Stop(false)] set its flag. *)
Definition cancelled_state : pool :=
  Eval vm_compute in
    after (construct 1 ++ enqueue ok_task ++ [Call (OpStop false); Act 0; Run 0; Run 0]).

(** A pool stopped by [Stop(true)] on which [Enqueue] is then called. *)
Definition stopped_with_task : pool :=
  Eval vm_compute in after (stop_true_trace ++ enqueue ok_task).

(** The same after [Stop(false)]. *)
Definition aborted_with_task : pool :=
  Eval vm_compute in after (stop_false_trace ++ enqueue ok_task).

(** A pool with one worker. *)
Definition one_worker : pool := Eval vm_compute in after (construct 1).

(** A pool with one worker on which [Init(0)] has been called. *)
Definition shrinking_to_zero : pool :=
  Eval vm_compute in after (construct 1 ++ [Call (OpInit 0)]).

(** A worker about to run a failing task, with another task queued. *)
Definition failing_state : pool :=
  Eval vm_compute in
    after (construct 1 ++ enqueue fail_task ++ enqueue ok_task ++ [Run 0]).

(** A label other than a call of [Stop(false)]. *)
Definition not_stop_false (l : label) : bool :=
  match l with Call (OpStop false) => false | _ => true end.

(** The task unit has neither run nor been deleted. *)
Definition untouched (u : task_unit) : Prop :=
  runs u = 0 ∧ frees u = 0 ∧ future u = Pending.

Definition all_exited (s : pool) : Prop :=
  ∀ τ w, os_threads s !! τ = Some w → w_pc w = WExit.


(** The caller is between operations or inside [Enqueue]. *)
Definition enqueueing (c : cpc) : bool :=
  match c with CIdle | CEnqLock | CEnqNotify | CEnqUnlock => true | _ => false end.

(** A pool that [Stop(true)] has stopped, with the task unit [t] still in
    its queue. *)
Definition stranded (t : nat) (s : pool) : Prop :=
  enqueueing (caller s) = true ∧
  _doneFlag s = true ∧ _stopFlag s = false ∧
  all_exited s ∧
  t ∈ _tasks s ∧
  ∃ u, task_heap s !! t = Some u ∧ untouched u.

(** ** The idle counter *)

(** A worker between [++_idleThreadsCount] and [--_idleThreadsCount]. *)
Definition is_idle (pc : wpc) : bool :=
  match pc with
  | WPredPop | WPredDone | WPredFlag | WWaiting | WWoken | WDec _ => true
  | _ => false
  end.

Fixpoint count_if {A} (f : A → bool) (l : list A) : nat :=
  match l with
  | [] => 0
  | x :: l' => (if f x then 1 else 0) + count_if f l'
  end.

Definition idle_worker (w : worker) : bool := is_idle (w_pc w).

Definition idle_workers (s : pool) : nat := count_if idle_worker (os_threads s).

(** The counter is an [int]: it counts the idle workers as long as there
    are fewer than 2^31 threads. *)
Definition idle_inv (s : pool) : Prop :=
  (Z.of_nat (length (os_threads s)) < 2 ^ 31)%Z →
  _idleThreadsCount s = Z.of_nat (idle_workers s).

(** ** Thread handles *)

Definition is_attached (w : worker) : bool :=
  match w_status w with Attached => true | _ => false end.

(** A detached thread that has not returned yet. *)
Definition live_detached (w : worker) : bool :=
  match w_status w, w_pc w with
  | Detached, WExit => false
  | Detached, _ => true
  | _, _ => false
  end.

(** Joinable handles and attached threads correspond, index for index. *)
Definition handle_inv (s : pool) : Prop :=
  (∀ i τ, _threads s !! i = Some (Joinable τ) →
     ∃ w, os_threads s !! τ = Some w ∧ w_index w = Z.of_nat i ∧
          w_status w = Attached ∧
          _threadsStopFlags s !! i = Some (Some (w_stop w))) ∧
  (∀ τ w, os_threads s !! τ = Some w → w_status w = Attached →
     (0 ≤ w_index w)%Z ∧
     _threads s !! Z.to_nat (w_index w) = Some (Joinable τ)) ∧
  (∀ τ w, os_threads s !! τ = Some w → w_status w = Joined → w_pc w = WExit) ∧
  count_if is_attached (os_threads s) = count_if joinable (_threads s).

(** What the handle at index [j] is, by the place of the caller. *)
Definition handle_shape (c : cpc) (j : nat) (h : thandle) : Prop :=
  match c with
  | CInitGrow i n =>
      if decide (Z.of_nat j < i)%Z then joinable h = true else h = Null
  | CInitShrink i n =>
      if decide (Z.of_nat j < wrap_uint (i + 1))%Z then joinable h = true
      else h = NotJoinable
  | CInitLock n | CInitNotify n | CInitUnlock n | CInitResize n =>
      if decide (Z.of_nat j < n)%Z then joinable h = true else h = NotJoinable
  | CStopJoin i =>
      if decide (Z.of_nat j < i)%Z then h = NotJoinable else joinable h = true
  | CStopClear2 | CStopFinish => h = NotJoinable
  | CCrashed => True
  | _ => joinable h = true
  end.

Definition flag_shape (c : cpc) (j : nat) (o : option nat) : Prop :=
  match c with
  | CInitGrow i n => (Z.of_nat j < i)%Z → is_Some o
  | CCrashed => True
  | _ => is_Some o
  end.

Definition shape_inv (s : pool) : Prop :=
  (∀ j h, _threads s !! j = Some h → handle_shape (caller s) j h) ∧
  (∀ j o, _threadsStopFlags s !! j = Some o → flag_shape (caller s) j o).

(** ** Cancellation flags *)

Definition flag_set (s : pool) (w : worker) : Prop :=
  stop_heap s !! w_stop w = Some true.

(** The worker returns, or is about to, without a task. *)
Definition leaving (pc : wpc) : bool :=
  match pc with WDec None | WUnlock None | WExit => true | _ => false end.

(** Which of the two pool-wide flags are set, by the place of the caller. *)
Definition flag_phase (c : cpc) (done stop : bool) : Prop :=
  match c with
  | CStopFlags _ _ | CStopClear1 => stop = true
  | CStopLock | CStopNotify | CStopUnlock | CStopJoin _
  | CStopClear2 | CStopFinish => done || stop = true
  | CInitGrow _ _ | CInitShrink _ _ | CInitLock _ | CInitNotify _
  | CInitUnlock _ | CInitResize _ => done || stop = false
  | _ => True
  end.

Definition flags_inv (s : pool) : Prop :=
  (∀ τ1 τ2 w1 w2, os_threads s !! τ1 = Some w1 → os_threads s !! τ2 = Some w2 →
     w_stop w1 = w_stop w2 → τ1 = τ2) ∧
  (∀ τ w, os_threads s !! τ = Some w → w_status w = Detached → flag_set s w) ∧
  (∀ τ w, os_threads s !! τ = Some w → w_status w = Attached → flag_set s w →
     _stopFlag s = true) ∧
  (∀ τ w, os_threads s !! τ = Some w → w_status w = Joined →
     _doneFlag s || _stopFlag s = true) ∧
  (∀ τ w, os_threads s !! τ = Some w → leaving (w_pc w) = true →
     _doneFlag s = true ∨ flag_set s w) ∧
  flag_phase (caller s) (_doneFlag s) (_stopFlag s).

(** ** Ownership of the task units *)

(** The task unit a worker holds: popped and not yet deleted. *)
Definition holds_task (pc : wpc) : option nat :=
  match pc with
  | WRun t | WCheck t | WPop t | WDec (Some t) | WUnlock (Some t) => Some t
  | _ => None
  end.

Definition has_run (pc : wpc) : bool :=
  match pc with WCheck _ | WPop _ => true | _ => false end.

(** The unit ran once and was deleted by its worker. *)
Definition executed (u : task_unit) : Prop :=
  runs u = 1 ∧ frees u = 1 ∧ ∃ id, future u = Ready (callable u id).

(** The unit was deleted by [ClearTasks] without having run. *)
Definition discarded (u : task_unit) : Prop :=
  runs u = 0 ∧ frees u = 1 ∧ future u = BrokenPromise.

(** The unit is held by worker [τ]. *)
Definition held_by (s : pool) (t τ : nat) : Prop :=
  ∃ w, os_threads s !! τ = Some w ∧ holds_task (w_pc w) = Some t.

Definition task_inv (s : pool) : Prop :=
  NoDup (_tasks s) ∧
  (∀ t, t ∈ _tasks s → ∃ u, task_heap s !! t = Some u ∧ untouched u) ∧
  (∀ τ w t, os_threads s !! τ = Some w → holds_task (w_pc w) = Some t →
     (t ∉ _tasks s) ∧
     ∃ u, task_heap s !! t = Some u ∧ frees u = 0 ∧
          if has_run (w_pc w)
          then runs u = 1 ∧ future u = Ready (callable u (w_index w))
          else runs u = 0 ∧ future u = Pending) ∧
  (∀ τ1 τ2 t, held_by s t τ1 → held_by s t τ2 → τ1 = τ2) ∧
  (∀ t u, task_heap s !! t = Some u →
     t ∈ _tasks s ∨ (∃ τ, held_by s t τ) ∨ executed u ∨ discarded u).

(** ** Waiting and stopping *)

(** The predicate of [wait] found the queue empty and the worker still
    holds the lock. *)
Definition pred_failed (pc : wpc) : bool :=
  match pc with
  | WPredDone | WPredFlag | WDec None | WUnlock None => true
  | _ => false
  end.

(** While a worker is there the queue is empty, unless [Enqueue] has
    pushed and waits for the lock. *)
Definition wait_inv (s : pool) : Prop :=
  ∀ τ w, os_threads s !! τ = Some w → pred_failed (w_pc w) = true →
    _tasks s = [] ∨ caller s = CEnqLock.

(** The caller is in [Stop], past the notification of line 74. *)
Definition post_notify (c : cpc) : bool :=
  match c with
  | CStopUnlock | CStopJoin _ | CStopClear2 | CStopFinish => true
  | _ => false
  end.

(** The index up to which the loop of lines 64-67 has set the flags. *)
Definition flagged_upto (c : cpc) (i : Z) : Prop :=
  match c with CStopFlags k _ => (i < k)%Z | _ => True end.

Definition stop_inv (s : pool) : Prop :=
  (_stopFlag s = true →
   ∀ τ w, os_threads s !! τ = Some w → w_status w = Attached →
          flagged_upto (caller s) (w_index w) → flag_set s w) ∧
  (post_notify (caller s) = true →
   ∀ τ w, os_threads s !! τ = Some w →
          w_pc w ≠ WWaiting ∧ (w_pc w = WPredFlag → flag_set s w)).

(** All of it. *)
Definition Inv (s : pool) : Prop :=
  wf_pointers s ∧ lock_inv s ∧ idle_inv s ∧ handle_inv s ∧ shape_inv s ∧
  flags_inv s ∧ task_inv s ∧ wait_inv s ∧ stop_inv s.

(** ** The two mutexes *)

Definition thread_of (l : label) : thread_id :=
  match l with
  | Call _ | Act _ => Caller
  | Run τ | Spurious τ => Worker τ
  end.

(** The step calls [PushTask] or [PopTask], which hold [_tasksMutex] from
    their first line to their last (lines 203 and 209). *)
Definition uses_tasks_mutex (l : label) (s : pool) : bool :=
  match l with
  | Call (OpEnqueue _) => true
  | Call _ => false
  | Act _ =>
      match caller s with CStopClear1 | CStopClear2 => true | _ => false end
  | Run τ =>
      match pc_of s τ with
      | Some WStart | Some (WPop _) | Some WPredPop => true
      | _ => false
      end
  | Spurious _ => false
  end.

(** The step locks [_threadsMutex]: lines 73, 96, 151 and 184, and the
    return from [wait]. *)
Definition locks_threads_mutex (l : label) (s : pool) : bool :=
  match l with
  | Act _ =>
      match caller s with
      | CEnqLock | CStopLock | CInitLock _ => true
      | _ => false
      end
  | Run τ =>
      match pc_of s τ with
      | Some WLock | Some WWoken => true
      | _ => false
      end
  | _ => false
  end.

(** Steps of the threads themselves: not a new call, not a spurious wakeup. *)
Definition internal (l : label) : bool :=
  match l with Act _ | Run _ => true | _ => false end.

(** Nothing is left to do: the caller is between two calls and every
    worker sleeps or has returned. *)
Definition quiescent (s : pool) : Prop :=
  caller s = CIdle ∧
  ∀ τ w, os_threads s !! τ = Some w → w_pc w = WWaiting ∨ w_pc w = WExit.

(** Two workers asleep, then [Init(1)] to its end. *)
Definition shrunk_state : pool :=
  Eval vm_compute in
    after (construct 2 ++ runs_of 0 6 ++ runs_of 1 6 ++ [Call (OpInit 1)] ++ acts 6).

(** A worker that evaluates the predicate of [wait]. *)
Definition in_predicate : pool :=
  Eval vm_compute in after (construct 1 ++ runs_of 0 3).

(** One worker asleep on the empty queue. *)
Definition parked : pool :=
  Eval vm_compute in after (construct 1 ++ runs_of 0 6).

(** ** A call of [Stop] from its first step to its return *)

(** A step that is not a new call. *)
Definition not_call (l : label) : bool :=
  match l with Call _ => false | _ => true end.

(** The caller is inside [Stop]. *)
Definition stop_phase (c : cpc) : bool :=
  match c with
  | CStopFlags _ _ | CStopClear1 | CStopLock | CStopNotify | CStopUnlock
  | CStopJoin _ | CStopClear2 | CStopFinish => true
  | _ => false
  end.

(** The caller is inside [Stop], or has returned from it: after the last
    [ClearTasks] the queue is empty, and at the return so are the two
    vectors. *)
Definition stopping (s : pool) : Prop :=
  match caller s with
  | CStopFinish => _tasks s = []
  | CIdle => _tasks s = [] ∧ _threads s = [] ∧ _threadsStopFlags s = []
  | c => stop_phase c = true
  end.

(** The thread is not detached: [Stop] joins it. *)
Definition awaited (w : worker) : bool :=
  match w_status w with Detached => false | _ => true end.

(** [Stop(true)] on a pool with a worker: nothing is discarded, and once
    an awaited worker leaves the queue is empty. *)
Definition draining (s : pool) : Prop :=
  _doneFlag s = true ∧ _stopFlag s = false ∧
  (∀ t u, task_heap s !! t = Some u → ¬ discarded u) ∧
  (∀ τ w, os_threads s !! τ = Some w → awaited w = false → w_pc w = WExit) ∧
  (∀ τ w, os_threads s !! τ = Some w → awaited w = true →
     leaving (w_pc w) = true → _tasks s = []) ∧
  match caller s with
  | CStopLock | CStopNotify | CStopUnlock => 0 < length (_threads s)
  | CStopJoin i => 0 < length (_threads s) ∧ ((0 < i)%Z → _tasks s = [])
  | CStopClear2 | CStopFinish | CIdle => _tasks s = []
  | _ => False
  end.

(** Worker [τ], which [Stop] awaits, holds the task unit [t] or has
    executed it. *)
Definition in_flight_or_done (t τ : nat) (s : pool) : Prop :=
  (∃ w, os_threads s !! τ = Some w ∧ awaited w = true) ∧
  (held_by s t τ ∨ ∃ u, task_heap s !! t = Some u ∧ executed u).

(** [Stop(b)] is called in [s0] and has returned in [s1], with no other
    call in between. *)
Definition returns_from (b : bool) (s0 s1 : pool) : Prop :=
  ∃ s0' ls,
    step (Call (OpStop b)) s0 = Some s0' ∧
    forallb not_call ls = true ∧
    exec ls s0' = Some s1 ∧
    caller s1 = CIdle.

(** As long as neither flag is set [ClearTasks] has not run. *)
Definition never_cleared (s : pool) : Prop :=
  _doneFlag s || _stopFlag s = false →
  ∀ t u, task_heap s !! t = Some u → ¬ discarded u.

(** One worker about to start, one task queued. *)
Definition busy_pool : pool :=
  Eval vm_compute in after (construct 1 ++ enqueue ok_task).

(** [Stop(true)] on it, to its end. *)
Definition drain_trace : list label := acts 3 ++ runs_of 0 10 ++ acts 4.

Definition drained : pool :=
  Eval vm_compute in
    after (construct 1 ++ enqueue ok_task ++ [Call (OpStop true)] ++ drain_trace).

(** A pool without workers, one task queued, and [Stop(true)] on it. *)
Definition no_workers : pool :=
  Eval vm_compute in after (construct 0 ++ enqueue ok_task).

Definition no_workers_stopped : pool :=
  Eval vm_compute in
    after (construct 0 ++ enqueue ok_task ++ [Call (OpStop true)] ++ acts 7).

(** [Stop(false)] on [busy_pool] while the worker starts: the worker pops
    the task after its flag is set. *)
Definition race_trace : list label :=
  [Act 0; Run 0; Run 0; Run 0] ++ acts 6 ++ acts 3.

Definition raced : pool :=
  Eval vm_compute in
    after (construct 1 ++ enqueue ok_task ++ [Call (OpStop false)] ++ race_trace).

(** One task in flight, one queued, and [Stop(false)] on it. *)
Definition one_in_flight : pool :=
  Eval vm_compute in
    after (construct 1 ++ enqueue ok_task ++ [Run 0] ++ enqueue ok_task).

Definition abort_trace : list label := acts 7 ++ runs_of 0 2 ++ acts 4.

Definition aborted : pool :=
  Eval vm_compute in
    after (construct 1 ++ enqueue ok_task ++ [Run 0] ++ enqueue ok_task ++
           [Call (OpStop false)] ++ abort_trace).

(** ** The life of a pool *)

(** A label other than a call of [Init]: [Init] is private, the
    constructors call it once. *)
Definition not_init (l : label) : bool :=
  match l with Call (OpInit _) => false | _ => true end.

(** The caller is inside the shrinking branch of [Init]. *)
Definition shrink_phase (c : cpc) : bool :=
  match c with
  | CInitShrink _ _ | CInitLock _ | CInitNotify _ | CInitUnlock _
  | CInitResize _ => true
  | _ => false
  end.

(** No thread has been detached. *)
Definition never_shrunk (s : pool) : Prop :=
  shrink_phase (caller s) = false ∧
  ∀ τ w, os_threads s !! τ = Some w → w_status w ≠ Detached.

(** A pool on which [Stop] has returned. *)
Definition stopped (s : pool) : Prop :=
  _doneFlag s || _stopFlag s = true ∧
  _threads s = [] ∧ _threadsStopFlags s = [] ∧
  match caller s with
  | CStopFlags _ _ | CStopClear1 | CStopLock | CStopNotify | CStopUnlock
  | CStopJoin _ | CStopClear2 | CStopFinish
  | CIdle | CEnqLock | CEnqNotify | CEnqUnlock => True
  | _ => False
  end.

Definition waiting_workers (s : pool) : nat := count_if is_waiting (os_threads s).

(** Two workers, both asleep. *)
Definition two_parked : pool :=
  Eval vm_compute in after (construct 2 ++ runs_of 0 6 ++ runs_of 1 6).

(** A pool that [Stop(false)] has stopped. *)
Definition aborted_pool : pool := Eval vm_compute in after stop_false_trace.

(** [Stop(false)] on [busy_pool], past the loop over the flags. *)
Definition flags_done : pool :=
  Eval vm_compute in
    after (construct 1 ++ enqueue ok_task ++ [Call (OpStop false); Act 0; Act 0]).

Definition is_enqueue (l : label) : bool :=
  match l with Call (OpEnqueue _) => true | _ => false end.

(** The task units allocated by the calls of [Enqueue] in [ls], in the
    order of the calls, when the heap held [n] units before. *)
Definition submitted (n : nat) (ls : list label) : list nat :=
  seq n (count_if is_enqueue ls).

(** Where [Stop] goes on after each of its two calls of [ClearTasks]. *)
Definition after_clear (c : cpc) : option cpc :=
  match c with
  | CStopClear1 => Some CStopLock
  | CStopClear2 => Some CStopFinish
  | _ => None
  end.

(** [Stop(false)] on a pool with one task in flight and one queued, at
    its first [ClearTasks]. *)
Definition clearing : pool :=
  Eval vm_compute in
    after (construct 1 ++ enqueue ok_task ++ [Run 0] ++ enqueue ok_task ++
           [Call (OpStop false)] ++ acts 2).

(** The threads that the growing loop of [Init] starts for the indices
    [i], [i+1], ..., [i+k-1], when [p] flags were allocated before. *)
Definition spawned (i : Z) (p k : nat) : list worker :=
  (λ j, MkWorker (i + Z.of_nat j) (p + j) WStart Attached) <$> seq 0 k.

(** One worker asleep and [Enqueue] about to notify. *)
Definition notifying : pool :=
  Eval vm_compute in
    after (construct 1 ++ runs_of 0 6 ++ [Call (OpEnqueue ok_task); Act 0]).

Definition notified : pool :=
  Eval vm_compute in
    after (construct 1 ++ runs_of 0 6 ++ [Call (OpEnqueue ok_task); Act 0; Act 0]).

(** How many sleeping threads a step of the caller leaves. *)
Definition wakes (c : cpc) (n : nat) : nat :=
  match c with
  | CEnqNotify => pred n
  | CStopNotify | CInitNotify _ => 0
  | _ => n
  end.

(** ** No lost wakeup *)

(** The worker is awake and will call [PopTask] before it sleeps or
    returns. *)
Definition will_pop (pc : wpc) : bool :=
  match pc with
  | WStart | WRun _ | WCheck _ | WPop _ | WLock | WInc | WPredPop | WWoken
  | WDec (Some _) | WUnlock (Some _) => true
  | _ => false
  end.

(** A thread of the pool is on its way to the queue. *)
Definition serving (s : pool) : Prop :=
  ∃ τ w, os_threads s !! τ = Some w ∧ w_status w = Attached ∧
         will_pop (w_pc w) = true.

(** The places of the caller where a notification is still due:
    [Enqueue] between its push and its [notify_one], the shrinking [Init]
    before its [notify_all]; nothing is known after a crash. *)
Definition notification_due (c : cpc) : bool :=
  match c with
  | CEnqLock | CEnqNotify | CInitShrink _ _ | CInitLock _ | CInitNotify _
  | CCrashed => true
  | _ => false
  end.

(** A detached thread does not sleep once [Init] has notified. *)
Definition detached_awake (s : pool) : Prop :=
  match caller s with
  | CInitShrink _ _ | CInitLock _ | CInitNotify _ | CCrashed => True
  | _ => ∀ τ w, os_threads s !! τ = Some w → w_status w = Detached →
                w_pc w ≠ WWaiting
  end.

(** While the pool runs and no notification is due, a queue that is not
    empty has a thread of the pool on its way to it. *)
Definition wakeup_inv (s : pool) : Prop :=
  _doneFlag s || _stopFlag s = false →
  notification_due (caller s) = false →
  _tasks s ≠ [] →
  (∃ τ w, os_threads s !! τ = Some w ∧ w_status w = Attached) →
  serving s.

(** Two workers that have each run a task, and a third task queued. *)
Definition backlog : pool :=
  Eval vm_compute in
    after (construct 2 ++ enqueue ok_task ++ enqueue ok_task ++
           runs_of 0 2 ++ runs_of 1 2 ++ enqueue ok_task).

(** One worker about to start and three tasks queued. *)
Definition three_queued : pool :=
  Eval vm_compute in
    after (construct 1 ++ enqueue ok_task ++ enqueue fail_task ++ enqueue ok_task).

(** ** A cancelled worker, a failing task *)

(** One task in hand, one queued, and the flag of the worker set by the
    loop of [Stop(false)]. *)
Definition cancelled_in_flight : pool :=
  Eval vm_compute in
    after (construct 1 ++ enqueue ok_task ++ [Run 0] ++ enqueue ok_task ++
           [Call (OpStop false); Act 0]).

(** A worker about to run a failing task, the queue empty. *)
Definition failing_alone : pool :=
  Eval vm_compute in after (construct 1 ++ enqueue fail_task ++ [Run 0]).

(** The steps of [Enqueue] when its [notify_one] wakes thread [τ]. *)
Definition enqueue_waking (τ : nat) (f : Z → outcome) : list label :=
  [Call (OpEnqueue f); Act 0; Act τ; Act 0].

(** ** A pool built by its constructor *)

(** No more than [n] threads have been started, and the growing loop of
    [Init(n)] has started one thread for each iteration it has done. *)
Definition constructed_with (n : Z) (s : pool) : Prop :=
  (Z.of_nat (length (os_threads s)) ≤ n)%Z ∧
  match caller s with
  | CInitGrow i m => m = n ∧ Z.of_nat (length (os_threads s)) = i
  | _ => True
  end.

(** * Properties *)

(** ** Case analysis of a step *)

Ltac case_scrutinee H x :=
  lazymatch x with
  | match ?y with _ => _ end => case_scrutinee H y
  | mbind _ ?y => case_scrutinee H y
  | fmap _ ?y => case_scrutinee H y
  | _ => let E := fresh "E" in destruct x eqn:E; simpl in H
  end.

Ltac case_step H :=
  match type of H with
  | None = Some _ => discriminate H
  | match ?x with _ => _ end = Some _ => case_scrutinee H x
  | mbind _ ?m = Some _ => case_scrutinee H m
  | fmap _ ?m = Some _ => case_scrutinee H m
  | context [match ?x with _ => _ end] =>
      lazymatch x with
      | context [match _ with _ => _ end] => fail
      | _ => let E := fresh "E" in destruct x eqn:E; simpl in H
      end
  | Some _ = Some _ => injection H as H; try subst
  end.

Ltac step_inv H :=
  unfold step, call, caller_step, worker_step, spurious_wakeup, Init, Stop,
    Enqueue, grow_step, shrink_step, clear_step, notify_one, acquire in H;
  simpl in H;
  repeat case_step H.

(** Lookups in the updated thread table and heaps. *)
Ltac lookup_inv_named H H' :=
  match type of H with
  | <[_ := _]> _ !! _ = Some _ =>
      apply list_lookup_insert_Some in H as [(? & ? & ?) | (? & H')]
  | (_ ++ [_]) !! _ = Some _ =>
      apply lookup_app_Some in H as [H' | (? & H')];
      [| apply list_lookup_singleton_Some in H' as (? & ?)]
  | (_ <$> _) !! _ = Some _ =>
      apply list_lookup_fmap_Some in H as (? & ? & H')
  | alter _ _ _ !! _ = Some _ =>
      rewrite list_lookup_alter in H; case_decide;
      [apply fmap_Some in H as (? & H' & ?) |]
  end.

Ltac lookup_inv H := let H' := fresh "L" in lookup_inv_named H H'.

Tactic Notation "lookup_as" hyp(H) ident(H') := lookup_inv_named H H'.

(** ** Arithmetic and list facts *)

Lemma at_index_Some {A} (v : list A) i x :
  at_index v i = Some x ↔ (0 ≤ i)%Z ∧ v !! Z.to_nat i = Some x.
Proof.
  unfold at_index. split.
  - destruct (0 <=? i)%Z eqn:E1; simpl; [|done].
    destruct (i <? Z.of_nat (length v))%Z eqn:E2; [|done].
    intros H. split; [lia | done].
  - intros [H1 H2]. apply lookup_lt_Some in H2 as H3.
    destruct (0 <=? i)%Z eqn:E1; [|lia]. simpl.
    destruct (i <? Z.of_nat (length v))%Z eqn:E2; [done | lia].
Qed.

Lemma wrap_uint_small x : (0 ≤ x < 2 ^ 32)%Z → wrap_uint x = x.
Proof. intros. unfold wrap_uint. by apply Z.mod_small. Qed.


Lemma wrap_uint_range x : (0 ≤ wrap_uint x < 2 ^ 32)%Z.
Proof. unfold wrap_uint. apply Z.mod_pos_bound. lia. Qed.

Lemma wrap_uint_pred_zero : wrap_uint (0 - 1) = (2 ^ 32 - 1)%Z.
Proof. reflexivity. Qed.

Lemma ThreadsCount_length s :
  (Z.of_nat (length (_threads s)) < 2 ^ 32)%Z →
  ThreadsCount s = Z.of_nat (length (_threads s)).
Proof. intros. unfold ThreadsCount. apply wrap_uint_small. lia. Qed.

Lemma lookup_resize_Some {A} (l : list A) n x i y :
  resize n x l !! i = Some y → i < n ∧ (l !! i = Some y ∨ length l ≤ i ∧ y = x).
Proof.
  intros H. assert (i < n).
  { apply lookup_lt_Some in H. by rewrite length_resize in H. }
  split; [done|].
  destruct (decide (i < length l)).
  - rewrite lookup_resize in H by done. by left.
  - rewrite lookup_resize_new in H by lia. right. split; [lia|congruence].
Qed.

Lemma w_stop_wake w : w_stop (wake w) = w_stop w.
Proof. unfold wake. by destruct (is_waiting w). Qed.
Lemma w_index_wake w : w_index (wake w) = w_index w.
Proof. unfold wake. by destruct (is_waiting w). Qed.
Lemma w_status_wake w : w_status (wake w) = w_status w.
Proof. unfold wake. by destruct (is_waiting w). Qed.

Lemma wf_pointers_empty : wf_pointers empty_pool.
Proof. repeat split; simpl; intros; try done; lia. Qed.

Ltac lookups :=
  repeat match goal with
  | H : _ !! _ = Some _ |- _ => progress lookup_inv H
  | H : resize _ _ _ !! _ = Some _ |- _ =>
      let H' := fresh "L" in
      apply lookup_resize_Some in H as (? & [H' | (? & ?)])
  | H : at_index _ _ = Some _ |- _ =>
      let H' := fresh "L" in apply at_index_Some in H as (? & H')
  end.

Ltac norm_len :=
  rewrite ?length_insert, ?length_app, ?length_resize, ?length_fmap,
    ?length_alter, ?w_stop_wake, ?w_index_wake, ?w_status_wake in *;
  simpl length in *.

Ltac bools :=
  repeat match goal with
  | H : (_ <? _)%Z = true |- _ => apply Z.ltb_lt in H
  | H : (_ <? _)%Z = false |- _ => apply Z.ltb_ge in H
  | H : (_ <=? _)%Z = true |- _ => apply Z.leb_le in H
  | H : (_ <=? _)%Z = false |- _ => apply Z.leb_gt in H
  | H : (_ =? _)%Z = true |- _ => apply Z.eqb_eq in H
  | H : (_ =? _)%Z = false |- _ => apply Z.eqb_neq in H
  | H : _ || _ = false |- _ => apply orb_false_iff in H as [? ?]
  | H : decide _ = _ |- _ => clear H
  end.

Ltac wrap_lia :=
  unfold wrap_uint, wrap_int in *;
  change (2 ^ 32)%Z with 4294967296%Z in *;
  change (2 ^ 31)%Z with 2147483648%Z in *;
  Z.div_mod_to_equations; lia.

Ltac lens :=
  repeat match goal with
  | H : ?l !! ?i = Some _ |- _ =>
      lazymatch goal with
      | _ : i < length l |- _ => fail
      | _ => pose proof (lookup_lt_Some _ _ _ H)
      end
  end.

Lemma wf_pointers_step l s s' :
  wf_pointers s → step l s = Some s' → wf_pointers s'.
Proof.
  intros (Hw & Hf & Hl & Hb & Hp) H.
  pose proof (ThreadsCount_length s Hb) as HT.
  step_inv H; unfold wf_pointers; simpl.
  all: try match goal with E : caller _ = _ |- _ => rewrite E in Hp; simpl in Hp end.
  all: bools; rewrite ?HT in *.
  all: split_and!; try done; intros; lookups; simplify_eq/=; norm_len; eauto.
  all: try (naive_solver eauto with lia).
  all: try (rewrite ?E1; simpl; done).
  all: try wrap_lia.
  all: try (lens; wrap_lia).
Qed.

(** ** The lock invariant *)

Lemma holds_lock_wake w : holds_lock (w_pc (wake w)) = holds_lock (w_pc w).
Proof. unfold wake, is_waiting. destruct w as [? ? [] ?]; done. Qed.

Lemma lock_inv_empty : lock_inv empty_pool.
Proof. repeat split; simpl; intros; try done. Qed.

(** Instantiate a fact about all workers at the workers in sight. *)
Ltac inst_workers H :=
  repeat match goal with
  | L : os_threads _ !! ?τ = Some ?w |- _ =>
      lazymatch type of H with
      | ∀ τ' w', os_threads ?s !! τ' = Some w' → _ =>
          let T := type of (H τ w L) in
          lazymatch goal with
          | _ : T |- _ => fail
          | _ => pose proof (H τ w L)
          end
      end
  end.

Lemma is_waiting_pc w : is_waiting w = true ↔ w_pc w = WWaiting.
Proof. unfold is_waiting. destruct (w_pc w); naive_solver. Qed.

Ltac pcs :=
  repeat match goal with
  | E : is_waiting _ = true |- _ => apply is_waiting_pc in E
  | E : w_pc ?w = _ |- _ => rewrite E in *; clear E
  end.

Lemma lock_inv_step l s s' :
  lock_inv s → step l s = Some s' → lock_inv s'.
Proof.
  intros (Hw & Hv & Hc) H.
  step_inv H; unfold lock_inv; simpl.
  all: try match goal with E : caller _ = _ |- _ => rewrite E in Hc; simpl in Hc end.
  all: split_and!; try done; intros; lookups; simplify_eq/=; norm_len;
       rewrite ?holds_lock_wake; lens.
  all: try (rewrite ?E1; simpl; done).
  all: inst_workers Hw; clear Hw.
  all: try match goal with E : _threadsMutex _ = _ |- _ => rewrite E in * end.
  all: pcs; simpl in *.
  all: try (intuition (congruence || lia || eauto); fail).
  all: try (split; [intros Hm; apply Hv in Hm; lia | done]).
  all: try (match goal with Hm : _threadsMutex _ = Some (Worker _) |- _ => apply Hv in Hm end; lia).
  all: try (pose proof (Hv _ eq_refl); lia).
  all: try (split; [intros Hm; first [apply Hv in Hm | rewrite Hm in *; pose proof (Hv _ eq_refl)]; lia | done]).
Qed.

(** ** The queue *)

Lemma push_all_app ts q : push_all ts q = q ++ ts.
Proof.
  revert q. induction ts as [|t ts IH]; intros q; simpl.
  - by rewrite app_nil_r.
  - unfold push_all in *. simpl. rewrite IH. unfold PushTask.
    by rewrite <- app_assoc.
Qed.

Lemma pop_all_exact q extra : pop_all (length q + extra) q = q.
Proof.
  induction q as [|t q IH]; simpl.
  - by destruct extra.
  - by rewrite IH.
Qed.

(** C7: the queue is first-in first-out.  [PushTask] appends at the tail;
    [PopTask] removes and returns the head of a non-empty queue and
    reports an empty queue at once, without blocking; popping after N
    pushes returns the N tasks in the order of the pushes and then reports
    the empty queue. *)
Theorem C7_queue_is_fifo :
  (∀ t q, PushTask t q = q ++ [t]) ∧
  (∀ t q, PopTask (t :: q) = Some (t, q)) ∧
  PopTask [] = None ∧
  (∀ ts extra, pop_all (length ts + extra) (push_all ts []) = ts) ∧
  (∀ ts q extra,
     pop_all (length q + length ts + extra) (push_all ts q) = q ++ ts).
Proof.
  repeat split; try done.
  - intros ts extra. rewrite push_all_app. simpl. apply pop_all_exact.
  - intros ts q extra. rewrite push_all_app.
    rewrite <- (pop_all_exact (q ++ ts) extra) at 2.
    by rewrite length_app.
Qed.

(** ** Single steps of a worker *)

Lemma step_run s τ : crashed s = false → step (Run τ) s = worker_step τ s.
Proof. intros H. unfold step. by rewrite H. Qed.

Lemma pc_of_goto τ w pc s :
  os_threads s !! τ = Some w → pc_of (goto τ w pc s) τ = Some pc.
Proof.
  intros H. unfold pc_of, goto. simpl.
  rewrite list_lookup_insert_eq; [done | by eapply lookup_lt_Some].
Qed.

Lemma stop_heap_mono l s s' p :
  step l s = Some s' → stop_heap s !! p = Some true → stop_heap s' !! p = Some true.
Proof.
  intros H Hp. step_inv H; simpl; try done.
  all: try (by apply lookup_app_l_Some).
  all: match goal with
       | |- <[?q := _]> _ !! _ = _ =>
           destruct (decide (p = q)) as [->|];
           [ rewrite list_lookup_insert_eq by done; done
           | rewrite list_lookup_insert_ne by done; done ]
       end.
Qed.

Lemma cancelled_state_reachable :
  exec (construct 1 ++ enqueue ok_task ++ [Call (OpStop false); Act 0; Run 0; Run 0])
    empty_pool = Some cancelled_state.
Proof. reflexivity. Qed.

(** ** A failing task *)

Lemma step_run_eq s τ w :
  crashed s = false → os_threads s !! τ = Some w →
  step (Run τ) s =
    match w_pc w with
    | WStart =>
        match PopTask (_tasks s) with
        | Some (t, q) => Some (goto τ w (WRun t) (set_tasks q s))
        | None => Some (goto τ w WLock s)
        end
    | WRun t =>
        u ← task_heap s !! t;
        Some (goto τ w (WCheck t)
                (set_task_heap (<[t := invoke (w_index w) u]> (task_heap s)) s))
    | WCheck t =>
        b ← stop_heap s !! w_stop w;
        if b : bool then Some (goto τ w WExit (delete_task t s))
        else Some (goto τ w (WPop t) s)
    | WPop t =>
        match PopTask (_tasks s) with
        | Some (t', q) => Some (goto τ w (WRun t') (delete_task t (set_tasks q s)))
        | None => Some (goto τ w WLock (delete_task t s))
        end
    | _ => worker_step τ s
    end.
Proof.
  intros Hc Hw. rewrite step_run by done. unfold worker_step. rewrite Hw. simpl.
  by destruct (w_pc w).
Qed.

(** A task that throws while the next one is queued.  The exception is
    stored in the shared state and read back by [get]; the worker is then
    at line 177 as after any other task, and with its flag clear it pops
    the next task, runs it and stores that task's own outcome. *)
Lemma failure_then_queued_task s τ w t u t2 u2 q e :
  crashed s = false →
  os_threads s !! τ = Some w → w_pc w = WRun t →
  task_heap s !! t = Some u → future u = Pending →
  callable u (w_index w) = Throws e →
  flag_of s w = Some false →
  _tasks s = t2 :: q → t2 ≠ t →
  task_heap s !! t2 = Some u2 → future u2 = Pending →
  ∃ s1 s',
    step (Run τ) s = Some s1 ∧
    get <$> handle_of s1 t = Some (Rethrows e) ∧
    pc_of s1 τ = Some (WCheck t) ∧
    exec [Run τ; Run τ; Run τ] s1 = Some s' ∧
    get <$> handle_of s' t = Some (Rethrows e) ∧
    handle_of s' t2 = Some (Ready (callable u2 (w_index w))) ∧
    pc_of s' τ = Some (WCheck t2) ∧
    _tasks s' = q.
Proof.
  intros Hc Hw Hpc Hu Hfu He Hf Hq Hne Hu2 Hfu2.
  assert (Ht : t < length (task_heap s)) by (by eapply lookup_lt_Some).
  assert (Ht2 : t2 < length (task_heap s)) by (by eapply lookup_lt_Some).
  assert (Hτ : τ < length (os_threads s)) by (by eapply lookup_lt_Some).
  unfold flag_of in Hf.
  pose (s1 := goto τ w (WCheck t)
                (set_task_heap (<[t := invoke (w_index w) u]> (task_heap s)) s)).
  pose (w1 := MkWorker (w_index w) (w_stop w) (WCheck t) (w_status w)).
  pose (s2 := goto τ w1 (WPop t) s1).
  pose (w2 := MkWorker (w_index w) (w_stop w) (WPop t) (w_status w)).
  pose (s3 := goto τ w2 (WRun t2) (delete_task t (set_tasks q s2))).
  pose (w3 := MkWorker (w_index w) (w_stop w) (WRun t2) (w_status w)).
  pose (s4 := goto τ w3 (WCheck t2)
                (set_task_heap (<[t2 := invoke (w_index w) u2]> (task_heap s3)) s3)).
  assert (H1 : step (Run τ) s = Some s1).
  { rewrite (step_run_eq s τ w) by done. rewrite Hpc, Hu. done. }
  assert (H2 : step (Run τ) s1 = Some s2).
  { rewrite (step_run_eq s1 τ w1); [| done |].
    - simpl. rewrite Hf. done.
    - simpl. by rewrite list_lookup_insert_eq. }
  assert (H3 : step (Run τ) s2 = Some s3).
  { rewrite (step_run_eq s2 τ w2); [| done |].
    - simpl. rewrite Hq. done.
    - simpl. rewrite list_lookup_insert_eq; [done|]. by rewrite length_insert. }
  assert (Hu3 : task_heap s3 !! t2 = Some u2).
  { simpl. rewrite list_lookup_alter_ne by done.
    by rewrite list_lookup_insert_ne by done. }
  assert (H4 : step (Run τ) s3 = Some s4).
  { rewrite (step_run_eq s3 τ w3); [| done |].
    - change (w_pc w3) with (WRun t2). cbv beta iota. rewrite Hu3. done.
    - simpl. rewrite list_lookup_insert_eq; [done|]. by rewrite !length_insert. }
  exists s1, s4. split; [done|].
  split.
  { unfold handle_of. simpl. rewrite list_lookup_insert_eq by done.
    simpl. by rewrite Hfu, He. }
  split; [by apply pc_of_goto|].
  split.
  { unfold exec. rewrite H2. simpl. rewrite H3. simpl. rewrite H4. done. }
  split.
  { unfold handle_of. simpl.
    rewrite list_lookup_insert_ne by done.
    rewrite list_lookup_alter_eq, list_lookup_insert_eq by done. simpl.
    by rewrite Hfu, He. }
  split.
  { unfold handle_of. simpl. rewrite list_lookup_insert_eq.
    - simpl. by rewrite Hfu2.
    - by rewrite length_alter, length_insert. }
  split; [|done].
  unfold pc_of. simpl. rewrite list_lookup_insert_eq; [done|].
  by rewrite !length_insert.
Qed.

Lemma failing_state_reachable :
  exec (construct 1 ++ enqueue fail_task ++ enqueue ok_task ++ [Run 0]) empty_pool
  = Some failing_state.
Proof. reflexivity. Qed.

(** ** Calls of [Stop] on a stopped pool *)

Lemma step_call s o : caller s = CIdle → step (Call o) s = call o s.
Proof. intros H. unfold step, crashed. by rewrite H. Qed.

(** C3, as the code has it: [Stop(true)] is without effect once either
    flag is set, and [Stop(false)] is without effect once [_stopFlag] is
    set; but [Stop(false)] on a pool that only [Stop(true)] has stopped
    passes the guard of line 60, sets [_stopFlag] and goes on to discard
    the queue, one task unit for each iteration of [ClearTasks]. *)
Theorem C3_stop_guards :
  (∀ s, caller s = CIdle → _doneFlag s || _stopFlag s = true →
        step (Call (OpStop true)) s = Some s) ∧
  (∀ s, caller s = CIdle → _stopFlag s = true →
        step (Call (OpStop false)) s = Some s) ∧
  (∀ s, caller s = CIdle → _stopFlag s = false →
        ∃ s', step (Call (OpStop false)) s = Some s' ∧
              _stopFlag s' = true ∧
              caller s' = CStopFlags 0 (ThreadsCount s)) ∧
  (∀ s t q k, caller s = CStopClear1 → _tasks s = t :: q →
        step (Act k) s = Some (delete_task t (set_tasks q s))).
Proof.
  split_and!.
  - intros s Hc Hf. rewrite step_call by done. unfold call, Stop.
    by rewrite Hc, Hf.
  - intros s Hc Hf. rewrite step_call by done. unfold call, Stop.
    by rewrite Hc, Hf.
  - intros s Hc Hf. rewrite step_call by done. unfold call, Stop.
    rewrite Hc, Hf. by eexists.
  - intros s t q k Hc Hq. unfold step, crashed, caller_step, clear_step.
    by rewrite Hc, Hq.
Qed.

Lemma stopped_with_task_reachable :
  exec (stop_true_trace ++ enqueue ok_task) empty_pool = Some stopped_with_task.
Proof. reflexivity. Qed.

Lemma aborted_with_task_reachable :
  exec (stop_false_trace ++ enqueue ok_task) empty_pool = Some aborted_with_task.
Proof. reflexivity. Qed.

Lemma C3_stop_guards_witness :
  step (Call (OpStop true)) stopped_with_task = Some stopped_with_task ∧
  step (Call (OpStop false)) aborted_with_task = Some aborted_with_task ∧
  ∃ s', step (Call (OpStop false)) stopped_with_task = Some s' ∧
        _stopFlag s' = true ∧
        caller s' = CStopFlags 0 (ThreadsCount stopped_with_task).
Proof.
  split_and!.
  - apply (proj1 C3_stop_guards); reflexivity.
  - apply (proj1 (proj2 C3_stop_guards)); reflexivity.
  - apply (proj1 (proj2 (proj2 C3_stop_guards))); reflexivity.
Defined.

(** [Stop(true)], one [Enqueue], then [Stop(false)]: the second call of
    [Stop] sets [_stopFlag] and deletes the queued task unit, whose handle
    goes from pending to a broken promise. *)
Lemma C3_second_stop_discards :
  caller stopped_with_task = CIdle ∧
  _doneFlag stopped_with_task = true ∧
  _stopFlag stopped_with_task = false ∧
  _tasks stopped_with_task = [0] ∧
  handle_of stopped_with_task 0 = Some Pending ∧
  ∃ s', exec (Call (OpStop false) :: acts 9) stopped_with_task = Some s' ∧
        caller s' = CIdle ∧
        _stopFlag s' = true ∧
        _tasks s' = [] ∧
        handle_of s' 0 = Some BrokenPromise ∧
        s' ≠ stopped_with_task.
Proof.
  split_and!; try reflexivity.
  eexists. split; [vm_compute; reflexivity|].
  split_and!; try reflexivity.
  intros H. apply (f_equal _stopFlag) in H. discriminate H.
Qed.

(** ** Shrinking to no worker *)

(** [Init] entered with [threadsCount = 0] on a pool that has threads:
    the loop of lines 143-147 never reaches line 149.  With [i] unsigned
    the test [i >= 0] holds always, so an iteration either goes on with
    the loop or indexes outside the vectors; on a pool of one worker the
    second iteration does the latter, with [i = 4294967295].  (The
    constructors call [Init] on the empty pool, where it returns at line
    127: no client of the class gets here.) *)
Theorem Init_to_zero_never_leaves_loop :
  (∀ s k i s', caller s = CInitShrink i 0 → (0 ≤ i)%Z →
     step (Act k) s = Some s' →
     caller s' = CCrashed ∨ ∃ i', caller s' = CInitShrink i' 0 ∧ (0 ≤ i')%Z) ∧
  (caller one_worker = CIdle ∧ ThreadsCount one_worker = 1%Z ∧
   ∃ s1 s2,
     exec [Call (OpInit 0); Act 0] one_worker = Some s1 ∧
     caller s1 = CInitShrink 4294967295 0 ∧
     _threads s1 = [NotJoinable] ∧
     step (Act 0) s1 = Some s2 ∧
     caller s2 = CCrashed).
Proof.
  split.
  - intros s k i s' Hc Hi H.
    unfold step, crashed, caller_step, shrink_step in H. rewrite Hc in H.
    destruct (0 <=? i)%Z eqn:E; [|lia].
    simpl in H. repeat case_step H; simpl; eauto.
    right. eexists. split; [done|]. apply wrap_uint_range.
  - split_and!; try reflexivity.
    eexists _, _. split; [vm_compute; reflexivity|].
    split_and!; reflexivity.
Qed.

Lemma one_worker_reachable : exec (construct 1) empty_pool = Some one_worker.
Proof. reflexivity. Qed.

Lemma shrinking_to_zero_reachable :
  exec (construct 1 ++ [Call (OpInit 0)]) empty_pool = Some shrinking_to_zero.
Proof. reflexivity. Qed.

Lemma Init_to_zero_never_leaves_loop_witness :
  caller shrinking_to_zero = CInitShrink 0 0 ∧
  ∃ s', step (Act 0) shrinking_to_zero = Some s' ∧
        (caller s' = CCrashed ∨ ∃ i', caller s' = CInitShrink i' 0 ∧ (0 ≤ i')%Z).
Proof.
  split; [reflexivity|].
  eexists. split; [vm_compute; reflexivity|].
  apply (proj1 Init_to_zero_never_leaves_loop shrinking_to_zero 0 0%Z);
    [reflexivity | lia | vm_compute; reflexivity].
Defined.

(** ** A task enqueued after [Stop] *)

Lemma existsb_is_waiting_exited s :
  all_exited s → existsb is_waiting (os_threads s) = false.
Proof.
  intros H. apply not_true_is_false. intros E.
  apply existsb_exists in E as (w & Hin & Hw).
  apply list_elem_of_In, list_elem_of_lookup in Hin as (τ & Hτ).
  apply H in Hτ. unfold is_waiting in Hw. by rewrite Hτ in Hw.
Qed.

Lemma stranded_step t l s s' :
  stranded t s → not_stop_false l = true → step l s = Some s' → stranded t s'.
Proof.
  intros (Hc & Hd & Hs & He & Ht & u & Hu & Hun) Hl H.
  pose proof (existsb_is_waiting_exited s He) as Hw.
  assert (Hlen : t < length (task_heap s)) by (by eapply lookup_lt_Some).
  unfold step in H. destruct (crashed s); [done|].
  destruct l as [[n|f|[]]|k|τ|τ]; try done.
  - (* Init: the guard of line 123 *)
    unfold call, Init in H. rewrite Hs, Hd in H. simpl in H.
    repeat case_step H; unfold stranded; split_and!; first [done | by rewrite E | by exists u].
  - (* Enqueue *)
    unfold call, Enqueue in H. repeat case_step H.
    unfold stranded, PushTask. simpl. split_and!; try done.
    + apply elem_of_app. by left.
    + exists u. split; [|done]. by apply lookup_app_l_Some.
  - (* Stop(true): the guard of line 54 *)
    unfold call, Stop in H. rewrite Hd in H. simpl in H.
    repeat case_step H; unfold stranded; split_and!; first [done | by rewrite E | by exists u].
  - (* inside Enqueue *)
    unfold caller_step, notify_one, acquire in H. rewrite Hw in H.
    destruct (caller s) eqn:E; try done; simpl in H; repeat case_step H;
      unfold stranded; simpl; split_and!; try done; by exists u.
  - (* no worker is left *)
    unfold worker_step in H.
    destruct (os_threads s !! τ) as [w|] eqn:E; [|done]. simpl in H.
    by rewrite (He _ _ E) in H.
  - unfold spurious_wakeup in H.
    destruct (os_threads s !! τ) as [w|] eqn:E; [|done]. simpl in H.
    unfold is_waiting in H. by rewrite (He _ _ E) in H.
Qed.

(** C1 on a pool that [Stop(true)] has stopped: a task unit that is in
    the queue then stays there.  Whatever is executed afterwards, short of
    a call of [Stop(false)] (further calls of [Enqueue], of [Init], of
    [Stop(true)] as the destructor makes it), the unit is still queued,
    has not run and has not been deleted, and its handle is pending. *)
Theorem C1_task_enqueued_after_stop_is_stranded t ls s s' :
  stranded t s →
  forallb not_stop_false ls = true →
  exec ls s = Some s' →
  stranded t s' ∧ get <$> handle_of s' t = Some Blocks.
Proof.
  revert s. induction ls as [|l ls IH]; intros s Hs Hls H; simpl in *.
  - simplify_eq. split; [done|].
    destruct Hs as (_ & _ & _ & _ & _ & u & Hu & _ & _ & Hf).
    unfold handle_of. rewrite Hu. simpl. by rewrite Hf.
  - apply andb_true_iff in Hls as [Hl Hls].
    destruct (step l s) as [s1|] eqn:E; [|done]. simpl in H.
    eapply IH; [|done|done]. by eapply stranded_step.
Qed.

Lemma stopped_with_task_stranded : stranded 0 stopped_with_task.
Proof.
  unfold stranded. split_and!; try reflexivity.
  - intros [|[|τ]] w Hw; simpl in Hw; by simplify_eq.
  - apply list_elem_of_In. by left.
  - eexists. split; [reflexivity|]. by split_and!.
Qed.

Lemma C1_task_enqueued_after_stop_is_stranded_witness :
  ∃ s', exec (enqueue fail_task ++ [Call (OpInit 2); Call (OpStop true)])
          stopped_with_task = Some s' ∧
        stranded 0 s' ∧ get <$> handle_of s' 0 = Some Blocks.
Proof.
  eexists. split; [vm_compute; reflexivity|].
  eapply (C1_task_enqueued_after_stop_is_stranded 0
            (enqueue fail_task ++ [Call (OpInit 2); Call (OpStop true)])
            stopped_with_task).
  - exact stopped_with_task_stranded.
  - reflexivity.
  - vm_compute. reflexivity.
Defined.

(** ** Counting *)

Lemma count_if_app {A} (f : A → bool) l1 l2 :
  count_if f (l1 ++ l2) = count_if f l1 + count_if f l2.
Proof. induction l1 as [|x l1 IH]; simpl; [done|]. rewrite IH. lia. Qed.

Lemma count_if_insert {A} (f : A → bool) l i x y :
  l !! i = Some x →
  count_if f (<[i := y]> l) + (if f x then 1 else 0) =
  count_if f l + (if f y then 1 else 0).
Proof.
  revert i. induction l as [|z l IH]; intros [|i] H; simpl in *; try done.
  - simplify_eq. lia.
  - specialize (IH i H). lia.
Qed.

Lemma count_if_fmap {A} (f : A → bool) (g : A → A) l :
  (∀ x, f (g x) = f x) → count_if f (g <$> l) = count_if f l.
Proof. intros H. induction l as [|x l IH]; csimpl; [done|]. by rewrite H, IH. Qed.

Lemma count_if_le_length {A} (f : A → bool) l : count_if f l ≤ length l.
Proof. induction l as [|x l IH]; simpl; [done|]. destruct (f x); lia. Qed.

Lemma count_if_zero {A} (f : A → bool) l :
  existsb f l = false → count_if f l = 0.
Proof.
  induction l as [|x l IH]; simpl; [done|].
  intros H. apply orb_false_iff in H as [-> H]. by rewrite IH.
Qed.

Lemma count_if_replicate_false {A} (f : A → bool) n x :
  f x = false → count_if f (replicate n x) = 0.
Proof. intros H. induction n as [|n IH]; simpl; [done|]. by rewrite H, IH. Qed.

Lemma count_if_take_drop {A} (f : A → bool) n l :
  count_if f l = count_if f (take n l) + count_if f (drop n l).
Proof. by rewrite <- count_if_app, take_drop. Qed.

Lemma count_if_sum {A} (f g h : A → bool) l :
  (∀ x, x ∈ l → f x = true → g x = true ∨ h x = true) →
  count_if f l ≤ count_if g l + count_if h l.
Proof.
  induction l as [|x l IH]; simpl; [done|]. intros H.
  assert (count_if f l ≤ count_if g l + count_if h l) as IH'.
  { apply IH. intros y Hy. apply H. by right. }
  destruct (f x) eqn:E; [|lia].
  destruct (H x) as [-> | ->]; [by left | done | |]; destruct (g x), (h x); lia.
Qed.

Lemma idle_worker_wake w : idle_worker (wake w) = idle_worker w.
Proof. unfold idle_worker, wake, is_waiting. destruct w as [? ? [] ?]; done. Qed.

(** ** The idle counter counts the idle workers *)

Lemma idle_inv_empty : idle_inv empty_pool.
Proof. intros _. reflexivity. Qed.

Ltac count_insert f :=
  repeat match goal with
  | E : ?l !! ?i = Some ?x |- context [count_if f (<[?i := ?y]> ?l)] =>
      let H := fresh "Hcount" in
      pose proof (count_if_insert f l i x y E) as H;
      let H2 := fresh "Hcle" in
      pose proof (count_if_le_length f (<[i := y]> l)) as H2;
      rewrite length_insert in H2;
      generalize dependent (count_if f (<[i := y]> l)); intros
  end.

Lemma idle_inv_step l s s' :
  idle_inv s → step l s = Some s' → idle_inv s'.
Proof.
  intros Hi H.
  pose proof (count_if_le_length idle_worker (os_threads s)) as Hle.
  unfold idle_inv, idle_workers in *.
  step_inv H; simpl; try done.
  all: norm_len; intros Hb;
       rewrite ?count_if_app, ?(count_if_fmap _ _ _ idle_worker_wake); simpl;
       try (specialize (Hi ltac:(lia))).
  all: lens; count_insert (@idle_worker).
  all: unfold idle_worker in *; pcs; simpl in *.
  all: try lia.
  all: try wrap_lia.
Qed.

(** ** Handles and threads *)

Lemma is_attached_wake w : is_attached (wake w) = is_attached w.
Proof. unfold is_attached. by rewrite w_status_wake. Qed.

Lemma w_pc_wake_exit w : w_pc w = WExit → w_pc (wake w) = WExit.
Proof. unfold wake, is_waiting. destruct w as [? ? [] ?]; done. Qed.

Lemma w_pc_wake_inv w : w_pc (wake w) = WExit → w_pc w = WExit.
Proof. unfold wake, is_waiting. destruct w as [? ? [] ?]; done. Qed.

Lemma handle_inv_empty : handle_inv empty_pool.
Proof. repeat split; simpl; intros; done. Qed.

Lemma shape_inv_empty : shape_inv empty_pool.
Proof. repeat split; simpl; intros; done. Qed.

(** Instantiate a fact about all elements of a list at the lookups in
    sight. *)
Ltac inst H :=
  repeat match goal with
  | L : ?l !! ?j = Some ?x |- _ =>
      lazymatch type of H with
      | ∀ j' x', ?l' !! j' = Some x' → _ =>
          unify l l';
          let T := type of (H j x L) in
          lazymatch goal with
          | _ : T |- _ => fail
          | _ => pose proof (H j x L)
          end
      end
  end.

Lemma shape_step l s s' :
  wf_pointers s → shape_inv s → step l s = Some s' → shape_inv s'.
Proof.
  intros (Hw & Hf & Hl & Hb & Hp) (Hh & Hfl) H.
  pose proof (ThreadsCount_length s Hb) as HT.
  unfold shape_inv.
  step_inv H; simpl.
  all: try match goal with E : caller _ = _ |- _ =>
         rewrite E in Hp, Hh, Hfl; simpl in Hp, Hh, Hfl end.
  all: bools; rewrite ?HT in *.
  all: try (split; intros; eauto; fail).
  all: split; intros; lookups; simplify_eq/=; norm_len; rewrite ?E1; simpl;
       inst Hh; inst Hfl; clear Hh Hfl Hw Hf; lens; simpl in *;
       repeat case_decide; try done; eauto.
  all: try (exfalso; wrap_lia).
  all: try (match goal with H : _ → is_Some ?o |- is_Some ?o => apply H; wrap_lia end).
Qed.

Lemma count_joinable_resize n l :
  existsb joinable (drop n l) = false →
  count_if joinable (resize n Null l) = count_if joinable l.
Proof.
  intros H. rewrite resize_spec, count_if_app.
  rewrite (count_if_replicate_false joinable _ Null) by done.
  rewrite (count_if_take_drop joinable n l), (count_if_zero _ _ H). lia.
Qed.

Lemma drop_ge_nil {A} (l : list A) n : length l ≤ n → drop n l = [].
Proof. intros. by apply drop_ge. Qed.

(** Rewrite the lookups of the goal in updated lists, splitting on the
    index where needed. *)
Ltac split_insert :=
  match goal with
  | |- context [<[?i := _]> ?l !! ?j] =>
      lazymatch i with
      | j => fail
      | _ => destruct (decide (i = j)); [subst|]
      end
  end.

Ltac goal_lookups :=
  repeat first
    [ rewrite list_lookup_insert_ne by done
    | rewrite list_lookup_insert_eq by (norm_len; lens; lia)
    | rewrite lookup_app_l by (norm_len; lens; lia)
    | rewrite list_lookup_fmap
    | rewrite lookup_resize by (norm_len; lens; lia) ].

(** A worker that moves on changes nothing for the handles. *)
Lemma handle_inv_goto s s' τ w pc :
  handle_inv s →
  os_threads s !! τ = Some w →
  (w_status w = Joined → pc = WExit) →
  _threads s' = _threads s →
  _threadsStopFlags s' = _threadsStopFlags s →
  os_threads s' = <[τ := MkWorker (w_index w) (w_stop w) pc (w_status w)]> (os_threads s) →
  handle_inv s'.
Proof.
  intros (H1 & H2 & H5 & Hc) Hw Hj Et Ef Eo. unfold handle_inv.
  rewrite Et, Ef, Eo. split_and!.
  - intros i τ' L. destruct (H1 i τ' L) as (w' & Lw & ? & ? & ?).
    destruct (decide (τ = τ')) as [->|].
    + assert (w' = w) as -> by congruence.
      exists (MkWorker (w_index w) (w_stop w) pc (w_status w)).
      rewrite list_lookup_insert_eq by (by eapply lookup_lt_Some). eauto.
    + exists w'. rewrite list_lookup_insert_ne by done. eauto.
  - intros τ' w' L Ha. lookup_inv L; simplify_eq/=; eauto.
  - intros τ' w' L Ha. lookup_inv L; simplify_eq/=; eauto.
  - rewrite <- Hc.
    pose proof (count_if_insert is_attached _ _ _
                  (MkWorker (w_index w) (w_stop w) pc (w_status w)) Hw) as Hi.
    change (is_attached {| w_index := w_index w; w_stop := w_stop w;
                          w_pc := pc; w_status := w_status w |})
      with (is_attached w) in Hi.
    lia.
Qed.

Lemma existsb_false_lookup {A} (f : A → bool) l i x :
  existsb f l = false → l !! i = Some x → f x = false.
Proof.
  intros H L. apply not_true_is_false. intros E.
  assert (existsb f l = true); [|congruence].
  apply existsb_exists. exists x. split; [|done].
  apply list_elem_of_In, list_elem_of_lookup. eauto.
Qed.

(** [notify_all] changes nothing for the handles. *)
Lemma handle_inv_wake s s' :
  handle_inv s →
  _threads s' = _threads s →
  _threadsStopFlags s' = _threadsStopFlags s →
  os_threads s' = wake <$> os_threads s →
  handle_inv s'.
Proof.
  intros (H1 & H2 & H5 & Hc) Et Ef Eo. unfold handle_inv.
  rewrite Et, Ef, Eo. split_and!.
  - intros i τ L. destruct (H1 i τ L) as (w & Lw & ? & ? & ?).
    exists (wake w). rewrite list_lookup_fmap, Lw.
    by rewrite w_index_wake, w_status_wake, w_stop_wake.
  - intros τ w L Ha. lookup_inv L. subst. rewrite w_status_wake in Ha.
    rewrite w_index_wake. eauto.
  - intros τ w L Ha. lookup_inv L. subst. rewrite w_status_wake in Ha.
    eauto using w_pc_wake_exit.
  - rewrite <- Hc. apply count_if_fmap, is_attached_wake.
Qed.

(** [join], lines 79-82. *)
Lemma handle_inv_join s s' i τ w :
  handle_inv s →
  _threads s !! i = Some (Joinable τ) →
  os_threads s !! τ = Some w →
  w_pc w = WExit →
  _threads s' = <[i := NotJoinable]> (_threads s) →
  _threadsStopFlags s' = _threadsStopFlags s →
  os_threads s' = <[τ := MkWorker (w_index w) (w_stop w) WExit Joined]> (os_threads s) →
  handle_inv s'.
Proof.
  intros (H1 & H2 & H5 & Hc) Li Lw Hpc Et Ef Eo. unfold handle_inv.
  rewrite Et, Ef, Eo.
  destruct (H1 _ _ Li) as (w0 & Lw0 & Hidx & Hst & Hfl). simplify_eq.
  split_and!.
  - intros j τ' L. lookup_as L K; [done|].
    destruct (H1 _ _ K) as (w' & Lw' & ? & ? & ?).
    destruct (decide (τ = τ')) as [->|].
    + simplify_eq. lia.
    + exists w'. rewrite list_lookup_insert_ne by done. eauto.
  - intros τ' w' L Ha. lookup_as L K; simplify_eq/=.
    destruct (H2 _ _ K Ha) as [? L']. split; [done|].
    rewrite list_lookup_insert_ne; [done|].
    intros Heq. rewrite <- Heq in L'. congruence.
  - intros τ' w' L Ha. lookup_inv L; simplify_eq/=; eauto.
  - pose proof (count_if_insert is_attached _ _ _
                  (MkWorker (w_index w) (w_stop w) WExit Joined) Lw) as Hi.
    pose proof (count_if_insert joinable _ _ _ NotJoinable Li) as Hj.
    assert (is_attached w = true) as Ha by (unfold is_attached; by rewrite Hst).
    rewrite Ha in Hi. simpl in Hi, Hj. lia.
Qed.

(** [detach], lines 145-146. *)
Lemma handle_inv_detach s s' i τ w :
  handle_inv s →
  _threads s !! i = Some (Joinable τ) →
  os_threads s !! τ = Some w →
  _threads s' = <[i := NotJoinable]> (_threads s) →
  _threadsStopFlags s' = _threadsStopFlags s →
  os_threads s' = <[τ := MkWorker (w_index w) (w_stop w) (w_pc w) Detached]> (os_threads s) →
  handle_inv s'.
Proof.
  intros (H1 & H2 & H5 & Hc) Li Lw Et Ef Eo. unfold handle_inv.
  rewrite Et, Ef, Eo.
  destruct (H1 _ _ Li) as (w0 & Lw0 & Hidx & Hst & Hfl). simplify_eq.
  split_and!.
  - intros j τ' L. lookup_as L K; [done|].
    destruct (H1 _ _ K) as (w' & Lw' & ? & ? & ?).
    destruct (decide (τ = τ')) as [->|].
    + simplify_eq. lia.
    + exists w'. rewrite list_lookup_insert_ne by done. eauto.
  - intros τ' w' L Ha. lookup_as L K; simplify_eq/=.
    destruct (H2 _ _ K Ha) as [? L']. split; [done|].
    rewrite list_lookup_insert_ne; [done|].
    intros Heq. rewrite <- Heq in L'. congruence.
  - intros τ' w' L Ha. lookup_inv L; simplify_eq/=; eauto.
  - pose proof (count_if_insert is_attached _ _ _
                  (MkWorker (w_index w) (w_stop w) (w_pc w) Detached) Lw) as Hi.
    pose proof (count_if_insert joinable _ _ _ NotJoinable Li) as Hj.
    assert (is_attached w = true) as Ha by (unfold is_attached; by rewrite Hst).
    rewrite Ha in Hi. simpl in Hi, Hj. lia.
Qed.

(** The vectors shrink, or grow by null handles. *)
Lemma handle_inv_resize s s' n :
  handle_inv s →
  length (_threadsStopFlags s) = length (_threads s) →
  existsb joinable (drop n (_threads s)) = false →
  _threads s' = resize n Null (_threads s) →
  _threadsStopFlags s' = resize n None (_threadsStopFlags s) →
  os_threads s' = os_threads s →
  handle_inv s'.
Proof.
  intros (H1 & H2 & H5 & Hc) Hl Hd Et Ef Eo. unfold handle_inv.
  rewrite Et, Ef, Eo.
  assert (Hkeep : ∀ j τ, _threads s !! j = Some (Joinable τ) → j < n).
  { intros j τ L. destruct (decide (j < n)); [done|].
    assert (drop n (_threads s) !! (j - n) = Some (Joinable τ)) as L'.
    { rewrite lookup_drop. by replace (n + (j - n)) with j by lia. }
    by apply (existsb_false_lookup _ _ _ _ Hd) in L'. }
  split_and!.
  - intros j τ L. apply lookup_resize_Some in L as (? & [L | (? & ?)]); [|done].
    destruct (H1 _ _ L) as (w & ? & ? & ? & Lf). exists w. split_and!; try done.
    rewrite lookup_resize; [done | done |]. by eapply lookup_lt_Some.
  - intros τ w L Ha. destruct (H2 _ _ L Ha) as [? L']. split; [done|].
    rewrite lookup_resize; [done | by eapply Hkeep | by eapply lookup_lt_Some].
  - done.
  - by rewrite count_joinable_resize.
Qed.

(** [InitThead(i)], lines 137-138 and 198. *)
Lemma handle_inv_spawn s s' i :
  handle_inv s →
  (0 ≤ i)%Z →
  _threads s !! Z.to_nat i = Some Null →
  Z.to_nat i < length (_threadsStopFlags s) →
  _threads s' = <[Z.to_nat i := Joinable (length (os_threads s))]> (_threads s) →
  _threadsStopFlags s' = <[Z.to_nat i := Some (length (stop_heap s))]> (_threadsStopFlags s) →
  os_threads s' = os_threads s ++ [MkWorker i (length (stop_heap s)) WStart Attached] →
  handle_inv s'.
Proof.
  intros (H1 & H2 & H5 & Hc) Hi Li Hlen Et Ef Eo. unfold handle_inv.
  rewrite Et, Ef, Eo.
  assert (Hi' : Z.to_nat i < length (_threads s)) by (by eapply lookup_lt_Some).
  split_and!.
  - intros j τ L. lookup_as L K; simplify_eq.
    + eexists. rewrite lookup_app_r by done.
      rewrite Nat.sub_diag. simpl. split; [done|]. split; [simpl; lia|].
      split; [done|]. by rewrite list_lookup_insert_eq.
    + destruct (H1 _ _ K) as (w & Lw & ? & ? & ?). exists w.
      rewrite lookup_app_l by (by eapply lookup_lt_Some).
      by rewrite list_lookup_insert_ne.
  - intros τ w L Ha. lookup_as L K; simplify_eq/=.
    + destruct (H2 _ _ K Ha) as [? L']. split; [done|].
      rewrite list_lookup_insert_ne; [done|].
      intros Heq. rewrite <- Heq in L'. congruence.
    + split; [done|].
      replace τ with (length (os_threads s)) by lia.
      by rewrite list_lookup_insert_eq.
  - intros τ w L Ha. lookup_inv L; simplify_eq/=; eauto.
  - rewrite count_if_app. simpl.
    pose proof (count_if_insert joinable _ _ _
                  (Joinable (length (os_threads s))) Li) as Hj.
    simpl in Hj. change (is_attached _) with true. lia.
Qed.

Lemma handle_step l s s' :
  wf_pointers s → shape_inv s → handle_inv s → step l s = Some s' →
  handle_inv s'.
Proof.
  intros (Hw & Hf & Hl & Hb & Hp) (Hh & Hfl) Hinv H.
  pose proof Hinv as (H1 & H2 & H5 & Hc).
  pose proof (ThreadsCount_length s Hb) as HT.
  step_inv H.
  all: try done.
  all: try (eapply handle_inv_goto;
            [ exact Hinv | eassumption
            | let Hj := fresh in intros Hj;
              match goal with L : os_threads _ !! _ = Some _ |- _ =>
                apply (H5 _ _ L) in Hj end; pcs; congruence
            | reflexivity | reflexivity | reflexivity ]; fail).
  all: try (eapply handle_inv_wake; [exact Hinv | reflexivity..]; fail).
  all: try match goal with E : caller _ = _ |- _ =>
         rewrite E in Hp, Hh, Hfl; simpl in Hp, Hh, Hfl end.
  all: bools; rewrite ?HT in *; lookups.
  - (* Init, growing: resize *)
    eapply (handle_inv_resize s _ (Z.to_nat threadsCount));
      [exact Hinv | exact Hl | | reflexivity..].
    rewrite drop_ge by lia. done.
  - (* Stop: join *)
    eapply (handle_inv_join s _ (Z.to_nat i) τ w); eauto.
  - (* Stop: clear *)
    eapply (handle_inv_resize s _ 0);
      [exact Hinv | exact Hl | by rewrite drop_0
      | simpl; by rewrite resize_0 | simpl; by rewrite resize_0 | reflexivity].
  - (* Init: one more thread *)
    eapply (handle_inv_spawn s _ i); [exact Hinv | done | | lens; lia | reflexivity..].
    inst Hh. simpl in *. case_decide; [lia | congruence].
  - (* Init: one thread detached *)
    eapply (handle_inv_detach s _ (Z.to_nat i) τ w); eauto.
  - (* Init, shrinking: resize *)
    eapply (handle_inv_resize s _ (Z.to_nat n)); [exact Hinv | exact Hl | done | reflexivity..].
Qed.

(** ** Cancellation flags *)

Lemma leaving_wake w : leaving (w_pc (wake w)) = leaving (w_pc w).
Proof. unfold wake, is_waiting. destruct w as [? ? [] ?]; done. Qed.

Lemma flags_inv_empty : flags_inv empty_pool.
Proof. repeat split; simpl; intros; done. Qed.

(** Steps that leave the flags and the threads' status alone. *)
Lemma flags_inv_frame s s' :
  flags_inv s →
  (∀ τ w', os_threads s' !! τ = Some w' →
     ∃ w, os_threads s !! τ = Some w ∧ w_stop w' = w_stop w ∧
          w_status w' = w_status w ∧
          (leaving (w_pc w') = true →
           leaving (w_pc w) = true ∨ _doneFlag s = true ∨ flag_set s w)) →
  stop_heap s' = stop_heap s →
  _doneFlag s' = _doneFlag s →
  _stopFlag s' = _stopFlag s →
  flag_phase (caller s') (_doneFlag s) (_stopFlag s) →
  flags_inv s'.
Proof.
  intros (F1 & F2 & F3 & F4 & F5 & F6) Hrel Eh Ed Es Hph.
  unfold flags_inv, flag_set in *. rewrite Eh, Ed, Es. split_and!; [..|done].
  - intros τ1 τ2 w1 w2 L1 L2 Heq.
    destruct (Hrel _ _ L1) as (v1 & ? & E1 & _).
    destruct (Hrel _ _ L2) as (v2 & ? & E2 & _).
    eapply F1; eauto. congruence.
  - intros τ w L Hst. destruct (Hrel _ _ L) as (v & ? & E1 & E2 & _).
    rewrite E1. eapply F2; eauto. congruence.
  - intros τ w L Hst Hfl. destruct (Hrel _ _ L) as (v & ? & E1 & E2 & _).
    rewrite E1 in Hfl. eapply F3; eauto. congruence.
  - intros τ w L Hst. destruct (Hrel _ _ L) as (v & ? & E1 & E2 & _).
    eapply F4; eauto. congruence.
  - intros τ w L Hlv. destruct (Hrel _ _ L) as (v & ? & E1 & E2 & Hl).
    rewrite E1. destruct (Hl Hlv) as [? | [? | ?]]; eauto.
Qed.

Lemma lookup_insert_true (h : list bool) p q :
  h !! q = Some true → <[p := true]> h !! q = Some true.
Proof.
  intros H. destruct (decide (p = q)) as [->|].
  - rewrite list_lookup_insert_eq; [done | by eapply lookup_lt_Some].
  - by rewrite list_lookup_insert_ne.
Qed.

(** A pool-wide flag is set: lines 56 and 63. *)
Lemma flags_inv_set_flag s s' :
  flags_inv s →
  os_threads s' = os_threads s →
  stop_heap s' = stop_heap s →
  (_doneFlag s = true → _doneFlag s' = true) →
  (_stopFlag s = true → _stopFlag s' = true) →
  _doneFlag s' || _stopFlag s' = true →
  flag_phase (caller s') (_doneFlag s') (_stopFlag s') →
  flags_inv s'.
Proof.
  intros (F1 & F2 & F3 & F4 & F5 & F6) Eo Eh Hd Hs Hor Hph.
  unfold flags_inv, flag_set in *. rewrite Eo, Eh. split_and!; eauto.
  intros τ w L Hlv. destruct (F5 _ _ L Hlv); eauto.
Qed.

(** A cancellation flag is set while [_stopFlag] is: line 66. *)
Lemma flags_inv_set_cell s s' p :
  flags_inv s →
  _stopFlag s = true →
  os_threads s' = os_threads s →
  stop_heap s' = <[p := true]> (stop_heap s) →
  _doneFlag s' = _doneFlag s →
  _stopFlag s' = _stopFlag s →
  flag_phase (caller s') (_doneFlag s) (_stopFlag s) →
  flags_inv s'.
Proof.
  intros (F1 & F2 & F3 & F4 & F5 & F6) Hstop Eo Eh Ed Es Hph.
  unfold flags_inv, flag_set in *. rewrite Eo, Eh, Ed, Es.
  split_and!; eauto using lookup_insert_true.
  intros τ w L Hlv. destruct (F5 _ _ L Hlv); eauto using lookup_insert_true.
Qed.

(** [join] under [Stop]. *)
Lemma flags_inv_join s s' τ w c :
  flags_inv s →
  os_threads s !! τ = Some w →
  w_pc w = WExit →
  _doneFlag s || _stopFlag s = true →
  os_threads s' = <[τ := MkWorker (w_index w) (w_stop w) WExit Joined]> (os_threads s) →
  stop_heap s' = stop_heap s →
  _doneFlag s' = _doneFlag s →
  _stopFlag s' = _stopFlag s →
  caller s' = CStopJoin c →
  flags_inv s'.
Proof.
  intros (F1 & F2 & F3 & F4 & F5 & F6) Lw Hpc Hor Eo Eh Ed Es Ec.
  unfold flags_inv, flag_set in *. rewrite Eo, Eh, Ed, Es, Ec.
  split_and!; [..|done].
  - intros τ1 τ2 w1 w2 L1 L2 Heq.
    lookup_inv L1; lookup_inv L2; simplify_eq/=; eauto.
  - intros τ' w' L Hst. lookup_inv L; simplify_eq/=; eauto.
  - intros τ' w' L Hst. lookup_inv L; simplify_eq/=; eauto.
  - intros τ' w' L Hst. lookup_inv L; simplify_eq/=; eauto.
  - intros τ' w' L Hlv. lookup_inv L; simplify_eq/=; eauto.
    apply (F5 _ _ Lw). by rewrite Hpc.
Qed.

(** [InitThead]: a new thread with a new flag. *)
Lemma flags_inv_spawn s s' i c :
  flags_inv s →
  (∀ τ w, os_threads s !! τ = Some w → w_stop w < length (stop_heap s)) →
  _doneFlag s || _stopFlag s = false →
  os_threads s' = os_threads s ++ [MkWorker i (length (stop_heap s)) WStart Attached] →
  stop_heap s' = stop_heap s ++ [false] →
  _doneFlag s' = _doneFlag s →
  _stopFlag s' = _stopFlag s →
  caller s' = CInitGrow c.1 c.2 →
  flags_inv s'.
Proof.
  intros (F1 & F2 & F3 & F4 & F5 & F6) Hw Hor Eo Eh Ed Es Ec.
  unfold flags_inv, flag_set in *. rewrite Eo, Eh, Ed, Es, Ec.
  split_and!; [..|done].
  - intros τ1 τ2 w1 w2 L1 L2 Heq.
    lookup_as L1 K1; lookup_as L2 K2; simplify_eq/=; eauto.
    + apply Hw in K1. lia.
    + apply Hw in K2. lia.
    + lia.
  - intros τ' w' L Hst. lookup_as L K; simplify_eq/=.
    apply lookup_app_l_Some. eauto.
  - intros τ' w' L Hst Hfl. lookup_as L K; simplify_eq/=.
    + eapply F3; eauto. apply lookup_app_Some in Hfl as [? | [? Hfl']]; [done|].
      apply Hw in K. apply lookup_lt_Some in Hfl'. simpl in Hfl'. lia.
    + rewrite lookup_app_r in Hfl by done. by rewrite Nat.sub_diag in Hfl.
  - intros τ' w' L Hst. lookup_as L K; simplify_eq/=; eauto.
  - intros τ' w' L Hlv. lookup_as L K; simplify_eq/=.
    destruct (F5 _ _ K Hlv); eauto using lookup_app_l_Some.
Qed.

(** Lines 145-146: the flag of a thread is set and the thread detached. *)
Lemma flags_inv_detach s s' τ w c :
  flags_inv s →
  os_threads s !! τ = Some w →
  w_stop w < length (stop_heap s) →
  _doneFlag s || _stopFlag s = false →
  os_threads s' = <[τ := MkWorker (w_index w) (w_stop w) (w_pc w) Detached]> (os_threads s) →
  stop_heap s' = <[w_stop w := true]> (stop_heap s) →
  _doneFlag s' = _doneFlag s →
  _stopFlag s' = _stopFlag s →
  caller s' = CInitShrink c.1 c.2 →
  flags_inv s'.
Proof.
  intros (F1 & F2 & F3 & F4 & F5 & F6) Lw Hlen Hor Eo Eh Ed Es Ec.
  unfold flags_inv, flag_set in *. rewrite Eo, Eh, Ed, Es, Ec.
  split_and!; [..|done].
  - intros τ1 τ2 w1 w2 L1 L2 Heq.
    lookup_inv L1; lookup_inv L2; simplify_eq/=; eauto.
  - intros τ' w' L Hst. lookup_as L K; simplify_eq/=.
    + by rewrite list_lookup_insert_eq.
    + eauto using lookup_insert_true.
  - intros τ' w' L Hst Hfl. lookup_as L K; simplify_eq/=.
    rewrite list_lookup_insert_ne in Hfl; [eauto|].
    intros Heq. eauto.
  - intros τ' w' L Hst. lookup_as L K; simplify_eq/=; eauto.
  - intros τ' w' L Hlv. lookup_as L K; simplify_eq/=.
    + destruct (F5 _ _ Lw Hlv); eauto using lookup_insert_true.
    + destruct (F5 _ _ K Hlv); eauto using lookup_insert_true.
Qed.

(** Use the equations that the case analysis left for the fields. *)
Ltac fields :=
  repeat match goal with
  | E : _doneFlag ?s = _ |- context [_doneFlag ?s] => rewrite E
  | E : _stopFlag ?s = _ |- context [_stopFlag ?s] => rewrite E
  | E : caller ?s = _ |- context [caller ?s] => rewrite E
  | E : _threadsMutex ?s = _ |- context [_threadsMutex ?s] => rewrite E
  | E : _tasks ?s = _ |- context [_tasks ?s] => rewrite E
  | E : stop_heap ?s !! ?p = _ |- context [stop_heap ?s !! ?p] => rewrite E
  end.

Lemma flags_step l s s' :
  wf_pointers s → shape_inv s → handle_inv s → flags_inv s →
  step l s = Some s' → flags_inv s'.
Proof.
  intros (Hw & Hf & Hl & Hb & Hp) (Hh & Hfl) (H1 & H2 & H5 & Hc) Hinv H.
  pose proof Hinv as (F1 & F2 & F3 & F4 & F5 & F6).
  pose proof (ThreadsCount_length s Hb) as HT.
  step_inv H.
  all: try done.
  all: try match goal with E : caller _ = _ |- _ =>
         rewrite E in Hp, Hh, Hfl, F6; simpl in Hp, Hh, Hfl, F6 end.
  all: bools.
  all: try (eapply flags_inv_frame;
            [ exact Hinv
            | intros τ' w' L; simpl in L; lookups; simplify_eq/=;
              rewrite ?w_stop_wake, ?w_status_wake, ?leaving_wake;
              eexists; (split; [eassumption|]); split_and!; try done;
              unfold flag_set; pcs; simpl; fields; eauto; try congruence
            | reflexivity | reflexivity | reflexivity
            | simpl; fields; simpl; fields; try done;
              repeat match goal with E : _ = false |- _ => rewrite E end;
              repeat match goal with E : _ = true |- _ => rewrite E end;
              try done ]; fail).
  all: rewrite ?(ThreadsCount_length s Hb) in *; lookups.
  - (* Stop(true) *)
    eapply flags_inv_set_flag; [exact Hinv | reflexivity..| | | | ]; simpl; eauto.
  - (* Stop(false) *)
    eapply flags_inv_set_flag; [exact Hinv | reflexivity..| | | | ]; simpl; eauto.
    apply orb_true_r.
  - (* line 66 *)
    eapply flags_inv_set_cell; [exact Hinv | exact F6 | reflexivity..| done].
  - (* ClearTasks is over *)
    eapply flags_inv_frame; [exact Hinv | eauto 10 | reflexivity..|].
    simpl. rewrite F6. apply orb_true_r.
  - (* join *)
    eapply flags_inv_join; [exact Hinv | eassumption | done | exact F6 | reflexivity..].
  - (* InitThead *)
    eapply (flags_inv_spawn _ _ _ (_, _));
      [exact Hinv | exact Hw | exact F6 | reflexivity..].
  - (* detach *)
    match goal with L : _threads s !! _ = Some (Joinable _) |- _ =>
      destruct (H1 _ _ L) as (w0 & Lw0 & Hidx & Hst & Hfl0) end. simplify_eq.
    eapply (flags_inv_detach _ _ _ _ (_, _));
      [exact Hinv | eassumption | done | exact F6 | reflexivity..].
Qed.

(** ** Ownership of the task units *)

Lemma holds_task_wake w : holds_task (w_pc (wake w)) = holds_task (w_pc w).
Proof. unfold wake, is_waiting. destruct w as [? ? [] ?]; done. Qed.

Lemma has_run_wake w : has_run (w_pc (wake w)) = has_run (w_pc w).
Proof. unfold wake, is_waiting. destruct w as [? ? [] ?]; done. Qed.

Lemma task_inv_empty : task_inv empty_pool.
Proof.
  split_and!; simpl; try done.
  - constructor.
  - intros t H. by apply elem_of_nil in H.
  - intros ?? t (w & L & _) _. done.
Qed.

(** Steps that move no task unit. *)
Lemma task_inv_frame s s' :
  task_inv s →
  (∀ τ w' t, os_threads s' !! τ = Some w' → holds_task (w_pc w') = Some t →
     ∃ w, os_threads s !! τ = Some w ∧ holds_task (w_pc w) = Some t ∧
          has_run (w_pc w') = has_run (w_pc w) ∧ w_index w' = w_index w) →
  (∀ τ t, held_by s t τ → held_by s' t τ) →
  _tasks s' = _tasks s →
  task_heap s' = task_heap s →
  task_inv s'.
Proof.
  intros (T1 & T2 & T3 & T4 & T5) Hfwd Hbwd Eq Eh.
  unfold task_inv. rewrite Eq, Eh. split_and!; try done.
  - intros τ w' t L Hh. destruct (Hfwd _ _ _ L Hh) as (w & Lw & Hw & Er & Ei).
    rewrite Er, Ei. eauto.
  - intros τ1 τ2 t (w1 & L1 & Hh1) (w2 & L2 & Hh2).
    destruct (Hfwd _ _ _ L1 Hh1) as (v1 & ? & ? & _).
    destruct (Hfwd _ _ _ L2 Hh2) as (v2 & ? & ? & _).
    eapply T4; eexists; eauto.
  - intros t u L. destruct (T5 _ _ L) as [? | [(τ & Hh) | ?]]; eauto.
Qed.

(** A worker takes the head of the queue: lines 169, 180 and 188. *)
Lemma task_inv_take s s' τ w t q pc :
  task_inv s →
  os_threads s !! τ = Some w →
  holds_task (w_pc w) = None →
  _tasks s = t :: q →
  holds_task pc = Some t → has_run pc = false →
  _tasks s' = q →
  task_heap s' = task_heap s →
  os_threads s' = <[τ := MkWorker (w_index w) (w_stop w) pc (w_status w)]> (os_threads s) →
  task_inv s'.
Proof.
  intros (T1 & T2 & T3 & T4 & T5) Lw Hn Eq0 Hpc Hrun Eq Eh Eo.
  assert (Hτ : τ < length (os_threads s)) by (by eapply lookup_lt_Some).
  rewrite Eq0 in *. apply NoDup_cons in T1 as [Hnin T1].
  destruct (T2 t) as (u & Lu & Hu0 & Hu1 & Hu2); [by left|].
  unfold task_inv, held_by in *. rewrite Eq, Eh, Eo. split_and!; try done.
  - intros t' Hin. apply T2. by right.
  - intros τ' w' t' L Hh. lookup_as L K; simplify_eq/=.
    + split; [done|]. exists u. rewrite Hrun. eauto.
    + destruct (T3 _ _ _ K Hh) as (Hnin' & ?). split; [|done].
      intros Hin. apply Hnin'. by right.
  - intros τ1 τ2 t' (w1 & L1 & Hh1) (w2 & L2 & Hh2).
    lookup_as L1 K1; lookup_as L2 K2; simplify_eq/=; try done.
    + destruct (T3 _ _ _ K2 Hh2) as (Hnin' & _). exfalso. apply Hnin'. by left.
    + destruct (T3 _ _ _ K1 Hh1) as (Hnin' & _). exfalso. apply Hnin'. by left.
    + eapply T4; eexists; eauto.
  - intros t' u' L. destruct (T5 _ _ L) as [Hin | [(τ' & w' & L' & Hh) | ?]]; eauto.
    + apply elem_of_cons in Hin as [-> | ?]; eauto.
      right. left. exists τ. eexists. rewrite list_lookup_insert_eq by done. eauto.
    + right. left. exists τ'. destruct (decide (τ = τ')) as [->|].
      * congruence.
      * exists w'. by rewrite list_lookup_insert_ne.
Qed.

(** A worker runs its task: line 175. *)
Lemma task_inv_run s s' τ w t u :
  task_inv s →
  os_threads s !! τ = Some w →
  w_pc w = WRun t →
  task_heap s !! t = Some u →
  _tasks s' = _tasks s →
  task_heap s' = <[t := invoke (w_index w) u]> (task_heap s) →
  os_threads s' = <[τ := MkWorker (w_index w) (w_stop w) (WCheck t) (w_status w)]> (os_threads s) →
  task_inv s'.
Proof.
  intros (T1 & T2 & T3 & T4 & T5) Lw Hpc Lu Eq Eh Eo.
  assert (Hτ : τ < length (os_threads s)) by (by eapply lookup_lt_Some).
  assert (Ht : t < length (task_heap s)) by (by eapply lookup_lt_Some).
  assert (Hh0 : holds_task (w_pc w) = Some t) by (by rewrite Hpc).
  destruct (T3 _ _ _ Lw Hh0) as (Hnin & u0 & Lu0 & Hf & Hr). simplify_eq.
  rewrite Hpc in Hr. simpl in Hr. destruct Hr as [Hr Hfut].
  unfold task_inv, held_by in *. rewrite Eq, Eh, Eo. split_and!; try done.
  - intros t' Hin. destruct (T2 _ Hin) as (u' & ? & ?).
    exists u'. split; [|done]. rewrite list_lookup_insert_ne; [done|].
    intros <-. done.
  - intros τ' w' t' L Hh. lookup_as L K; simplify_eq/=.
    + split; [done|]. eexists. rewrite list_lookup_insert_eq by done.
      split; [done|]. simpl. rewrite Hfut, Hr. done.
    + destruct (T3 _ _ _ K Hh) as (? & u' & ? & ?). split; [done|].
      exists u'. rewrite list_lookup_insert_ne; [done|].
      intros <-. apply H. eapply T4; eexists; eauto.
  - intros τ1 τ2 t' (w1 & L1 & Hh1) (w2 & L2 & Hh2).
    lookup_as L1 K1; lookup_as L2 K2; simplify_eq/=; try done.
    all: eapply T4; eexists; eauto.
  - intros t' u' L. lookup_as L K; simplify_eq/=.
    + right. left. exists τ. eexists. rewrite list_lookup_insert_eq by done. eauto.
    + destruct (T5 _ _ K) as [Hin | [(τ' & w' & L' & Hh) | ?]]; eauto.
      right. left. exists τ'. destruct (decide (τ = τ')) as [->|].
      * simplify_eq; try congruence.
      * exists w'. by rewrite list_lookup_insert_ne.
Qed.

(** A worker deletes the task it has run: the end of the scope of
    [pTaskFunc], at lines 178 and 181. *)
Lemma task_inv_finish s s' τ w t pc :
  task_inv s →
  os_threads s !! τ = Some w →
  holds_task (w_pc w) = Some t → has_run (w_pc w) = true →
  holds_task pc = None →
  _tasks s' = _tasks s →
  task_heap s' = alter release t (task_heap s) →
  os_threads s' = <[τ := MkWorker (w_index w) (w_stop w) pc (w_status w)]> (os_threads s) →
  task_inv s'.
Proof.
  intros (T1 & T2 & T3 & T4 & T5) Lw Hh0 Hrun Hpc Eq Eh Eo.
  assert (Hτ : τ < length (os_threads s)) by (by eapply lookup_lt_Some).
  destruct (T3 _ _ _ Lw Hh0) as (Hnin & u & Lu & Hf & Hr).
  rewrite Hrun in Hr. destruct Hr as [Hr Hfut].
  unfold task_inv, held_by in *. rewrite Eq, Eh, Eo. split_and!; try done.
  - intros t' Hin. destruct (T2 _ Hin) as (u' & ? & ?).
    exists u'. split; [|done]. rewrite list_lookup_alter_ne; [done|].
    intros <-. done.
  - intros τ' w' t' L Hh. lookup_as L K; simplify_eq/=.
    destruct (T3 _ _ _ K Hh) as (? & u' & ? & ?). split; [done|].
    exists u'. rewrite list_lookup_alter_ne; [done|].
    intros <-. apply H. eapply T4; eexists; eauto.
  - intros τ1 τ2 t' (w1 & L1 & Hh1) (w2 & L2 & Hh2).
    lookup_as L1 K1; lookup_as L2 K2; simplify_eq/=; try done.
    eapply T4; eexists; eauto.
  - intros t' u' L. rewrite list_lookup_alter in L. case_decide.
    + subst. rewrite Lu in L. simpl in L. simplify_eq.
      right. right. left. unfold executed, release. simpl.
      rewrite Hfut, Hr, Hf. eauto.
    + destruct (T5 _ _ L) as [Hin | [(τ' & w' & L' & Hh) | ?]]; eauto.
      right. left. exists τ'. destruct (decide (τ = τ')) as [->|].
      * simplify_eq; try congruence.
      * exists w'. by rewrite list_lookup_insert_ne.
Qed.

(** [Enqueue] allocates a task unit and pushes it: lines 94-95. *)
Lemma task_inv_push s s' f :
  task_inv s →
  _tasks s' = PushTask (length (task_heap s)) (_tasks s) →
  task_heap s' = task_heap s ++ [new_task f] →
  os_threads s' = os_threads s →
  task_inv s'.
Proof.
  intros (T1 & T2 & T3 & T4 & T5) Eq Eh Eo.
  assert (Hfresh : length (task_heap s) ∉ _tasks s).
  { intros Hin. destruct (T2 _ Hin) as (u & L & _).
    apply lookup_lt_Some in L. lia. }
  unfold task_inv, PushTask, held_by in *. rewrite Eq, Eh, Eo. split_and!; try done.
  - apply NoDup_app. split_and!; [done | | apply NoDup_singleton].
    intros t Hin Hin'. apply list_elem_of_singleton in Hin'. by subst.
  - intros t Hin. apply elem_of_app in Hin as [Hin | Hin].
    + destruct (T2 _ Hin) as (u & ? & ?). exists u.
      split; [by apply lookup_app_l_Some | done].
    + apply list_elem_of_singleton in Hin as ->.
      exists (new_task f). rewrite lookup_app_r by done.
      rewrite Nat.sub_diag. done.
  - intros τ w t L Hh. destruct (T3 _ _ _ L Hh) as (Hnin & u & Lu & ?).
    split.
    + intros Hin. apply elem_of_app in Hin as [? | Hin]; [done|].
      apply list_elem_of_singleton in Hin as ->.
      apply lookup_lt_Some in Lu. lia.
    + exists u. split; [by apply lookup_app_l_Some | done].
  - intros t u L. lookup_as L K; simplify_eq/=.
    + destruct (T5 _ _ K) as [? | ?]; eauto. left. apply elem_of_app. by left.
    + left. apply elem_of_app. right. apply list_elem_of_singleton. lia.
Qed.

(** [ClearTasks] deletes the head of the queue: lines 221-223. *)
Lemma task_inv_discard s s' t q :
  task_inv s →
  _tasks s = t :: q →
  _tasks s' = q →
  task_heap s' = alter release t (task_heap s) →
  os_threads s' = os_threads s →
  task_inv s'.
Proof.
  intros (T1 & T2 & T3 & T4 & T5) Eq0 Eq Eh Eo.
  rewrite Eq0 in *. apply NoDup_cons in T1 as [Hnin T1].
  destruct (T2 t) as (u & Lu & Hu0 & Hu1 & Hu2); [by left|].
  assert (Hnh : ∀ τ w, os_threads s !! τ = Some w → holds_task (w_pc w) ≠ Some t).
  { intros τ w L Hh. destruct (T3 _ _ _ L Hh) as (Hn & _). apply Hn. by left. }
  unfold task_inv, held_by in *. rewrite Eq, Eh, Eo. split_and!; try done.
  - intros t' Hin. destruct (T2 t') as (u' & ? & ?); [by right|].
    exists u'. split; [|done]. rewrite list_lookup_alter_ne; [done|].
    intros <-. done.
  - intros τ w t' L Hh. destruct (T3 _ _ _ L Hh) as (Hn & u' & ? & ?).
    split; [intros Hin; apply Hn; by right|].
    exists u'. rewrite list_lookup_alter_ne; [done|].
    intros <-. by eapply Hnh.
  - intros t' u' L. rewrite list_lookup_alter in L. case_decide.
    + subst. rewrite Lu in L. simpl in L. simplify_eq.
      right. right. right. unfold discarded, release. simpl.
      rewrite Hu0, Hu1, Hu2. done.
    + destruct (T5 _ _ L) as [Hin | ?]; eauto.
      apply elem_of_cons in Hin as [-> | ?]; [done | eauto].
Qed.

Lemma PopTask_Some q t q' : PopTask q = Some (t, q') → q = t :: q'.
Proof. destruct q; simpl; congruence. Qed.

Lemma PopTask_None q : PopTask q = None → q = [].
Proof. by destruct q. Qed.

Ltac pops :=
  repeat match goal with
  | E : PopTask _ = Some _ |- _ => apply PopTask_Some in E
  | E : PopTask _ = None |- _ => apply PopTask_None in E
  end.

Lemma task_step l s s' :
  task_inv s → step l s = Some s' → task_inv s'.
Proof.
  intros Hinv H.
  step_inv H.
  all: try done.
  all: pops.
  all: try (eapply task_inv_frame;
            [ exact Hinv
            | intros τ' w' t' L Hh; simpl in L; lookups; simplify_eq/=;
              rewrite ?holds_task_wake, ?has_run_wake, ?w_index_wake in *;
              pcs; simpl in *; simplify_eq/=;
              eexists; (split; [eassumption|]); pcs; simpl; eauto
            | intros τ' t' (w' & L & Hh); unfold held_by; simpl;
              first
                [ match goal with
                  | |- context [<[?τ0 := _]> _ !! _] =>
                      destruct (decide (τ0 = τ')) as [->|];
                      [ simplify_eq/=; eexists;
                        rewrite list_lookup_insert_eq by (by eapply lookup_lt_Some);
                        split; [done|]; pcs; simpl in *; done
                      | exists w'; rewrite list_lookup_insert_ne by done; done ]
                  end
                | exists (wake w'); rewrite list_lookup_fmap, L, holds_task_wake; done
                | exists w'; split; [by apply lookup_app_l_Some | done]
                | by exists w' ]
            | reflexivity | reflexivity ]; fail).
  all: try (eapply task_inv_take;
            [ exact Hinv | eassumption | | eassumption
            | | | reflexivity | reflexivity | reflexivity ];
            [ by pcs | reflexivity | reflexivity ]; fail).
  all: try (eapply task_inv_run; [exact Hinv | eassumption.. | reflexivity | reflexivity | reflexivity]; fail).
  all: try (eapply task_inv_finish;
            [ exact Hinv | eassumption | | |
            | reflexivity | reflexivity | reflexivity ];
            [ by pcs | by pcs | reflexivity ]; fail).
  all: try (eapply task_inv_push; [exact Hinv | reflexivity..]; fail).
  all: try (eapply task_inv_discard; [exact Hinv | eassumption | reflexivity..]; fail).
  (* line 180: the next task is taken, then the finished one deleted *)
  assert (task_inv (goto τ w WLock (delete_task task s))) as Hmid.
  { eapply task_inv_finish;
      [ exact Hinv | eassumption | | | | reflexivity | reflexivity | reflexivity ];
      [ by pcs | by pcs | reflexivity ]. }
  eapply (task_inv_take _ _ τ (MkWorker (w_index w) (w_stop w) WLock (w_status w)) n l0 (WRun n));
    [ exact Hmid | | reflexivity | exact E3 | reflexivity | reflexivity
    | reflexivity | reflexivity | ].
  - simpl. rewrite list_lookup_insert_eq; [done | by eapply lookup_lt_Some].
  - simpl. by rewrite list_insert_insert_eq.
Qed.

(** ** The queue is empty where the predicate found it empty *)

Lemma pred_failed_wake w : pred_failed (w_pc (wake w)) = pred_failed (w_pc w).
Proof. unfold wake, is_waiting. destruct w as [? ? [] ?]; done. Qed.

Lemma pred_failed_holds pc : pred_failed pc = true → holds_lock pc = true.
Proof. by destruct pc as [| | | | | | | | | | |[]|[]|]. Qed.

Lemma wait_inv_empty : wait_inv empty_pool.
Proof. intros τ w L. done. Qed.

Lemma wait_step l s s' :
  lock_inv s → wait_inv s → step l s = Some s' → wait_inv s'.
Proof.
  intros (Lw & Lv & Lc) Hinv H.
  unfold wait_inv in *.
  step_inv H; simpl.
  all: try done.
  all: pops.
  all: intros τ' w' L Hpf; simpl in L; lookups; simplify_eq/=;
       rewrite ?pred_failed_wake in *; pcs; simpl in *; try done.
  all: try (fields; eauto; fail).
  all: try (match goal with K : os_threads _ !! _ = Some _ |- _ =>
              destruct (Hinv _ _ K) as [Hq | Hq]; [by pcs | |] end;
            fields; rewrite ?Hq; eauto; congruence).
  (* Enqueue gets the lock: no worker is in the predicate *)
  apply pred_failed_holds, (Lw _ _ L) in Hpf. done.
Qed.

(** ** Stopping *)

Lemma stop_inv_empty : stop_inv empty_pool.
Proof. split; simpl; intros; done. Qed.

Lemma w_pc_wake_waiting w : w_pc (wake w) ≠ WWaiting.
Proof. unfold wake, is_waiting. destruct w as [? ? [] ?]; done. Qed.

Lemma w_pc_wake_pred w : w_pc (wake w) = WPredFlag → w_pc w = WPredFlag.
Proof. unfold wake, is_waiting. destruct w as [? ? [] ?]; done. Qed.

(** A worker moves on. *)
Lemma stop_inv_goto s s' τ w pc :
  stop_inv s →
  os_threads s !! τ = Some w →
  stop_heap s' = stop_heap s →
  _stopFlag s' = _stopFlag s →
  caller s' = caller s →
  os_threads s' = <[τ := MkWorker (w_index w) (w_stop w) pc (w_status w)]> (os_threads s) →
  (post_notify (caller s) = true →
   pc ≠ WWaiting ∧ (pc = WPredFlag → flag_set s w)) →
  stop_inv s'.
Proof.
  intros (SA & SB) Lw Eh Es Ec Eo Hpc.
  unfold stop_inv, flag_set in *. rewrite Eh, Es, Ec, Eo. split.
  - intros Hs τ' w' L Ha Hu. lookup_as L K; simplify_eq/=; eauto.
  - intros Hpn τ' w' L. lookup_as L K; simplify_eq/=; eauto.
Qed.

(** The general case: what must be shown of the state after the step. *)
Lemma stop_inv_frame s s' :
  stop_inv s →
  (∀ p, stop_heap s !! p = Some true → stop_heap s' !! p = Some true) →
  (_stopFlag s' = true → _stopFlag s = true) →
  (∀ i, flagged_upto (caller s') i → flagged_upto (caller s) i) →
  (∀ τ w', os_threads s' !! τ = Some w' → w_status w' = Attached →
     ∃ w, os_threads s !! τ = Some w ∧ w_status w = Attached ∧
          w_stop w' = w_stop w ∧ w_index w' = w_index w) →
  (post_notify (caller s') = true →
   ∀ τ w', os_threads s' !! τ = Some w' →
     w_pc w' ≠ WWaiting ∧ (w_pc w' = WPredFlag → flag_set s' w')) →
  stop_inv s'.
Proof.
  intros (SA & SB) Hmono Hs Hu Hrel HB. unfold stop_inv, flag_set in *.
  split; [|done].
  intros Hs' τ w' L Ha Hup. destruct (Hrel _ _ L Ha) as (w & Lw & ? & E1 & E2).
  rewrite E1. apply Hmono. eapply SA; eauto. rewrite <- E2. eauto.
Qed.

(** Without [_stopFlag], and before the notification, nothing is claimed. *)
Lemma stop_inv_vacuous s' :
  _stopFlag s' = false → post_notify (caller s') = false → stop_inv s'.
Proof. intros Hs Hp. split; intros; congruence. Qed.

Lemma stop_step l s s' :
  wf_pointers s → lock_inv s → handle_inv s → shape_inv s → flags_inv s →
  stop_inv s → step l s = Some s' → stop_inv s'.
Proof.
  intros (Hw & Hf & Hl & Hb & Hp) (Lw & Lv & Lc) (H1 & H2 & H5 & Hc)
    (Hh & Hfl) (F1 & F2 & F3 & F4 & F5 & F6) Hinv H.
  pose proof Hinv as (SA & SB).
  pose proof (ThreadsCount_length s Hb) as HT.
  step_inv H.
  all: try done.
  all: try (eapply stop_inv_goto;
            [ exact Hinv | eassumption | reflexivity | reflexivity | reflexivity
            | reflexivity | intros Hpn; split; [done | intros; done] ]; fail).
  all: unfold flag_phase in F6; unfold phase_bounds in Hp;
       simpl in Hp, Hh, Hfl, F6, Lc.
  all: bools; rewrite ?HT in *; lookups.
  all: try (apply stop_inv_vacuous; [simpl; by fields | done]; fail).
  - (* Stop(false) *)
    split; [|done]. simpl. intros _ τ w Lk Ha Hu.
    destruct (H2 _ _ Lk Ha). lia.
  - (* notify_one *)
    eapply stop_inv_frame; [exact Hinv | done | done | by (simpl; intros; fields) | | done].
    intros τ w' Lk Ha. simpl in Lk. lookup_as Lk K; simplify_eq/=; eauto 10.
  - (* line 66 *)
    match goal with K : _threadsStopFlags s !! _ = Some (Some ?p) |- _ =>
      rename K into Kp end.
    split; [|done]. simpl. intros _ τ w Lk Ha Hu. unfold flag_set. simpl.
    destruct (decide (w_index w < i)%Z).
    + apply lookup_insert_true. eapply SA; eauto.
    + destruct (H2 _ _ Lk Ha) as [? Lh].
      assert (w_index w = i) as <- by wrap_lia.
      destruct (H1 _ _ Lh) as (w0 & ? & ? & ? & Lf). simplify_eq.
      by rewrite list_lookup_insert_eq.
  - (* the index is in the vector *)
    exfalso.
    match goal with K : _threadsStopFlags s !! _ = Some (Some ?p) |- _ =>
      apply Hf in K end. lia.
  - exfalso.
    match goal with K : _threadsStopFlags s !! _ = Some None |- _ =>
      apply Hfl in K; simpl in K; by destruct K end.
  - exfalso.
    match goal with K : at_index _ _ = None |- _ =>
      unfold at_index in K end.
    destruct (0 <=? i)%Z eqn:E0; [|lia].
    destruct (i <? Z.of_nat (length (_threadsStopFlags s)))%Z eqn:E9; [|lia].
    simpl in *. apply lookup_ge_None in E3. lia.
  - (* the loop of lines 64-67 is over *)
    split; [|done]. simpl. intros Hs τ w Lk Ha _.
    eapply SA; eauto. fields. simpl.
    destruct (H2 _ _ Lk Ha) as [? Lh]. apply lookup_lt_Some in Lh. lia.
  - (* notify_all, line 74 *)
    eapply stop_inv_frame; [exact Hinv | done | done | by (simpl; intros; fields) | |].
    + intros τ w' Lk Ha. simpl in Lk. lookup_as Lk K. subst.
      rewrite w_status_wake, w_stop_wake, w_index_wake in *. eauto 10.
    + intros _ τ w' Lk. simpl in Lk. lookup_as Lk K. subst.
      split; [apply w_pc_wake_waiting|].
      intros Hpc. apply w_pc_wake_pred in Hpc.
      assert (holds_lock (w_pc x) = true) as Hl' by (by rewrite Hpc).
      apply (Lw _ _ K) in Hl'. destruct Lc as [_ Lc]. specialize (Lc eq_refl).
      congruence.
  - (* join *)
    eapply stop_inv_frame; [exact Hinv | done | done | by (simpl; intros; fields) | |].
    + intros τ' w' Lk Ha. simpl in Lk. lookup_as Lk K; simplify_eq/=; eauto 10.
    + intros _ τ' w' Lk. simpl in Lk.
      lookup_as Lk K; simplify_eq/=; [done|]. apply (SB eq_refl _ _ K).
  - (* line 189, [_doneFlag] not set *)
    eapply stop_inv_goto; [exact Hinv | eassumption | reflexivity..|].
    intros Hpn. split; [done|]. intros _.
    assert (_stopFlag s = true) as Hs.
    { destruct (caller s); try done; simpl in F6; fields; by rewrite ?orb_false_l in F6. }
    destruct (w_status w) eqn:Est.
    + eapply SA; eauto. by destruct (caller s).
    + eapply F2; eauto.
    + apply H5 in E1; [|done]. congruence.
  - (* line 189, no flag is set: the wait *)
    eapply stop_inv_goto; [exact Hinv | eassumption | reflexivity..|].
    intros Hpn. exfalso.
    destruct (SB Hpn _ _ E1) as [_ Hfs]. specialize (Hfs E2).
    unfold flag_set in Hfs. congruence.
Qed.

(** ** The invariant holds in every reachable state *)

Lemma Inv_empty : Inv empty_pool.
Proof.
  unfold Inv. split_and!.
  - apply wf_pointers_empty.
  - apply lock_inv_empty.
  - apply idle_inv_empty.
  - apply handle_inv_empty.
  - apply shape_inv_empty.
  - apply flags_inv_empty.
  - apply task_inv_empty.
  - apply wait_inv_empty.
  - apply stop_inv_empty.
Qed.

Lemma Inv_step l s s' : Inv s → step l s = Some s' → Inv s'.
Proof.
  intros (Hwf & Hlk & Hid & Hha & Hsh & Hfl & Hta & Hwa & Hst) H.
  unfold Inv. split_and!.
  - by eapply wf_pointers_step.
  - by eapply lock_inv_step.
  - by eapply idle_inv_step.
  - by eapply handle_step.
  - by eapply shape_step.
  - by eapply flags_step.
  - by eapply task_step.
  - by eapply wait_step.
  - by eapply stop_step.
Qed.

Lemma Inv_exec ls s s' : Inv s → exec ls s = Some s' → Inv s'.
Proof.
  revert s. induction ls as [|l ls IH]; intros s Hs H; simpl in H.
  - by simplify_eq.
  - destruct (step l s) as [s1|] eqn:E; [|done]. simpl in H.
    eapply IH; [|done]. by eapply Inv_step.
Qed.

Lemma reachable_Inv s : reachable s → Inv s.
Proof. intros [ls H]. eapply Inv_exec; [apply Inv_empty | done]. Qed.

Lemma exec_app ls1 ls2 s :
  exec (ls1 ++ ls2) s = s1 ← exec ls1 s; exec ls2 s1.
Proof.
  revert s. induction ls1 as [|l ls1 IH]; intros s; simpl; [done|].
  destruct (step l s); simpl; [apply IH | done].
Qed.

Lemma reachable_exec ls s s' : reachable s → exec ls s = Some s' → reachable s'.
Proof.
  intros [ls0 H0] H. exists (ls0 ++ ls). rewrite exec_app, H0. done.
Qed.

(** ** The idle counter and the number of threads *)

Lemma ThreadsCount_reachable s :
  reachable s → ThreadsCount s = Z.of_nat (length (_threads s)).
Proof.
  intros Hr. apply reachable_Inv in Hr as ((_ & _ & _ & Hb & _) & _).
  by apply ThreadsCount_length.
Qed.

Lemma count_joinable_le l : count_if joinable l ≤ length l.
Proof. apply count_if_le_length. Qed.

(** The idle counter is the number of workers between lines 185 and 191.
    It is never negative, and never larger than [ThreadsCount()] plus the
    number of detached threads that have not returned yet; where no such
    thread is left it is at most [ThreadsCount()].  (The counter is an
    [int]: fewer than 2^31 threads are assumed to have been started.) *)
Lemma idle_count_le s :
  reachable s →
  (Z.of_nat (length (os_threads s)) < 2 ^ 31)%Z →
  IdleThreadsCount s = Z.of_nat (idle_workers s) ∧
  (0 ≤ IdleThreadsCount s ≤
     ThreadsCount s + Z.of_nat (count_if live_detached (os_threads s)))%Z ∧
  (count_if live_detached (os_threads s) = 0 →
   (0 ≤ IdleThreadsCount s ≤ ThreadsCount s)%Z).
Proof.
  intros Hr Hlen. pose proof (ThreadsCount_reachable s Hr) as HT.
  apply reachable_Inv in Hr as (_ & _ & Hid & (_ & _ & H5 & Hc) & _).
  specialize (Hid Hlen). unfold IdleThreadsCount. rewrite Hid, HT.
  assert (idle_workers s ≤
          count_if is_attached (os_threads s) +
          count_if live_detached (os_threads s)) as Hsum.
  { apply count_if_sum. intros w Hin Hidle.
    apply list_elem_of_lookup in Hin as [τ L].
    unfold idle_worker, is_attached, live_detached in *.
    destruct (w_status w) eqn:Est; [by left | |].
    - right. by destruct (w_pc w).
    - rewrite (H5 _ _ L Est) in Hidle. done. }
  pose proof (count_joinable_le (_threads s)).
  split; [done|]. split; [lia|]. intros H0. lia.
Qed.

(** In every state of the model, those included in which [Init] was
    called again and has shrunk the pool: the idle counter is the number
    of workers between lines 185 and 191, it is never negative and exceeds
    [ThreadsCount()] by no more than the number of detached threads that
    have not returned yet. *)
Theorem idle_count_bounds s :
  reachable s →
  (Z.of_nat (length (os_threads s)) < 2 ^ 31)%Z →
  IdleThreadsCount s = Z.of_nat (idle_workers s) ∧
  (0 ≤ IdleThreadsCount s ≤
     ThreadsCount s + Z.of_nat (count_if live_detached (os_threads s)))%Z ∧
  (count_if live_detached (os_threads s) = 0 →
   (0 ≤ IdleThreadsCount s ≤ ThreadsCount s)%Z).
Proof. apply idle_count_le. Qed.

Lemma shrunk_state_reachable : reachable shrunk_state.
Proof.
  exists (construct 2 ++ runs_of 0 6 ++ runs_of 1 6 ++ [Call (OpInit 1)] ++ acts 6).
  reflexivity.
Qed.

Lemma idle_count_bounds_witness :
  IdleThreadsCount shrunk_state = Z.of_nat (idle_workers shrunk_state) ∧
  (0 ≤ IdleThreadsCount shrunk_state ≤
     ThreadsCount shrunk_state +
     Z.of_nat (count_if live_detached (os_threads shrunk_state)))%Z ∧
  (count_if live_detached (os_threads shrunk_state) = 0 →
   (0 ≤ IdleThreadsCount shrunk_state ≤ ThreadsCount shrunk_state)%Z).
Proof.
  apply (idle_count_bounds shrunk_state).
  - exists (construct 2 ++ runs_of 0 6 ++ runs_of 1 6 ++ [Call (OpInit 1)] ++ acts 6).
    reflexivity.
  - vm_compute. reflexivity.
Defined.

(** The shrinking branch of [Init], were it called on a pool that has
    threads (no client of the class can: see [op]).  Two workers sleep;
    [Init(1)] flags and detaches worker 1, notifies and shrinks [_threads]
    to one element.  When it returns neither worker has run yet: the
    counter is still 2 and [ThreadsCount()] is 1. *)
Lemma idle_exceeds_thread_count_after_shrink :
  exec (construct 2 ++ runs_of 0 6 ++ runs_of 1 6 ++ [Call (OpInit 1)] ++ acts 6)
    empty_pool = Some shrunk_state ∧
  caller shrunk_state = CIdle ∧
  IdleThreadsCount shrunk_state = 2%Z ∧
  ThreadsCount shrunk_state = 1%Z ∧
  ¬ (0 ≤ IdleThreadsCount shrunk_state ≤ ThreadsCount shrunk_state)%Z.
Proof.
  split_and!; try reflexivity.
  vm_compute. intros [_ H]. by apply H.
Qed.

(** ** Locks and progress *)

Lemma existsb_is_waiting_pick ws :
  existsb is_waiting ws = true →
  ∃ pick w, ws !! pick = Some w ∧ is_waiting w = true.
Proof.
  intros H. apply existsb_exists in H as (w & Hin & Hw).
  apply list_elem_of_In, list_elem_of_lookup in Hin as (τ & Hτ). eauto.
Qed.

(** The holder of the lock can take its next step. *)
Lemma holder_can_step s o :
  Inv s → crashed s = false → _threadsMutex s = Some o →
  ∃ l s', internal l = true ∧ step l s = Some s'.
Proof.
  intros (Hwf & (Lw & Lv & Lc) & _) Hcr Hm.
  destruct Hwf as (Hw & _).
  destruct o as [|τ].
  - (* the caller *)
    apply Lc in Hm. unfold step. rewrite Hcr. unfold caller_step.
    destruct (caller s) eqn:Ec; try done.
    + (* notify_one *)
      unfold notify_one.
      destruct (existsb is_waiting (os_threads s)) eqn:Ew.
      * apply existsb_is_waiting_pick in Ew as (pick & w & L & Hw').
        exists (Act pick). rewrite L. simpl. rewrite Hw'. simpl. eauto.
      * exists (Act 0). simpl. eauto.
    + exists (Act 0). eauto.
    + exists (Act 0). eauto.
    + exists (Act 0). eauto.
    + exists (Act 0). eauto.
    + exists (Act 0). eauto.
  - (* a worker *)
    pose proof (Lv _ Hm) as Hlt. apply lookup_lt_is_Some in Hlt as [w L].
    pose proof (proj1 (Lw _ _ L) Hm) as Hh.
    pose proof (Hw _ _ L) as Hp. apply lookup_lt_is_Some in Hp as [b Lb].
    exists (Run τ). unfold step. rewrite Hcr. unfold worker_step.
    rewrite L. simpl.
    destruct (w_pc w) as [| | | | | | | | | | |g|[t|]|]; try done; simpl; eauto.
    + destruct (PopTask (_tasks s)) as [[??]|]; eauto.
    + destruct (_doneFlag s); eauto.
    + rewrite Lb. simpl. destruct b; eauto.
Qed.

(** A worker that neither sleeps nor has returned can step, or the holder
    of the lock it wants can. *)
Lemma worker_progress s τ w :
  Inv s → crashed s = false →
  os_threads s !! τ = Some w →
  w_pc w ≠ WWaiting → w_pc w ≠ WExit →
  ∃ l s', internal l = true ∧ step l s = Some s'.
Proof.
  intros HI Hcr L Hnw Hne.
  destruct (_threadsMutex s) as [o|] eqn:Hm; [by eapply holder_can_step|].
  pose proof HI as ((Hw & _) & _ & _ & _ & _ & _ & (_ & _ & T3 & _) & _).
  pose proof (Hw _ _ L) as Hp. apply lookup_lt_is_Some in Hp as [b Lb].
  exists (Run τ). unfold step. rewrite Hcr. unfold worker_step, acquire.
  rewrite L, Hm. simpl.
  destruct (w_pc w) as [|t|t| | | | | | | | |g|[t|]|] eqn:Epc; try done; simpl; eauto.
  - destruct (PopTask (_tasks s)) as [[??]|]; eauto.
  - destruct (T3 τ w t L) as (_ & u & Lu & _); [by rewrite Epc|].
    rewrite Lu. simpl. eauto.
  - rewrite Lb. simpl. destruct b; eauto.
  - destruct (PopTask (_tasks s)) as [[??]|]; eauto.
  - destruct (PopTask (_tasks s)) as [[??]|]; eauto.
  - destruct (_doneFlag s); eauto.
  - rewrite Lb. simpl. destruct b; eauto.
Qed.

(** The caller inside an operation can step when every worker sleeps or
    has returned. *)
Lemma caller_progress s :
  Inv s → crashed s = false → caller s ≠ CIdle →
  (∀ τ w, os_threads s !! τ = Some w → w_pc w = WWaiting ∨ w_pc w = WExit) →
  ∃ l s', internal l = true ∧ step l s = Some s'.
Proof.
  intros HI Hcr Hni Hall.
  destruct (_threadsMutex s) as [o|] eqn:Hm; [by eapply holder_can_step|].
  pose proof HI as (_ & _ & _ & (H1 & _) & _ & _ & _ & _ & (_ & SB)).
  exists (Act 0). unfold step. rewrite Hcr. unfold caller_step, acquire.
  rewrite Hm. unfold crashed in Hcr.
  destruct (caller s) eqn:Ec; try done; simpl; eauto.
  - (* notify_one needs the lock: the caller holds it *)
    destruct HI as (_ & (_ & _ & Lc) & _). rewrite Ec in Lc.
    destruct Lc as [_ Lc]. specialize (Lc eq_refl). congruence.
  - destruct (i <? tc)%Z; eauto.
    destruct (at_index (_threadsStopFlags s) i) as [[p|]|]; eauto.
    destruct (decide (p < length (stop_heap s))); eauto.
  - (* join *)
    destruct (i <? ThreadsCount s)%Z; eauto.
    destruct (at_index (_threads s) i) as [[|τ|]|] eqn:Ea; eauto.
    apply at_index_Some in Ea as [_ Ea].
    destruct (H1 _ _ Ea) as (w & L & _). rewrite L. simpl.
    destruct (SB eq_refl _ _ L) as [Hnw _].
    destruct (Hall _ _ L) as [? | ->]; [done | eauto].
  - destruct (existsb joinable (_threads s)); eauto.
  - destruct (existsb joinable (drop (Z.to_nat n) (_threads s))); eauto.
Qed.

(** C9, as the code has it.  (1) A reachable state in which no thread can
    take a step is quiescent: the caller is between two calls and every
    worker sleeps in [wait] or has returned.  (2) A worker that sleeps in
    [wait] does not hold [_threadsMutex].  (3) The two mutexes are held
    together, but only by a worker in the predicate of [wait], which
    calls [PopTask] under [_threadsMutex] (line 188); and no step that
    locks [_threadsMutex] is inside [PushTask] or [PopTask], so the order
    is always [_threadsMutex] first. *)
Theorem C9_locks_and_progress :
  (∀ s, reachable s → crashed s = false →
     (∀ l, internal l = true → step l s = None) → quiescent s) ∧
  (∀ s τ w, reachable s → os_threads s !! τ = Some w → w_pc w = WWaiting →
     _threadsMutex s ≠ Some (Worker τ)) ∧
  (∀ s l s', reachable s → step l s = Some s' →
     uses_tasks_mutex l s = true → _threadsMutex s = Some (thread_of l) →
     ∃ τ, l = Run τ ∧ pc_of s τ = Some WPredPop) ∧
  (∀ s l, locks_threads_mutex l s = true → uses_tasks_mutex l s = false).
Proof.
  split_and!.
  - intros s Hr Hcr Hstuck. apply reachable_Inv in Hr.
    assert (Hall : ∀ τ w, os_threads s !! τ = Some w →
                          w_pc w = WWaiting ∨ w_pc w = WExit).
    { intros τ w L.
      destruct (w_pc w) eqn:Epc; try (by left); try (by right).
      all: destruct (worker_progress s τ w) as (l & s' & Hi & Hs);
        [done | done | done | by rewrite Epc | by rewrite Epc |];
        rewrite (Hstuck l Hi) in Hs; done. }
    split; [|done].
    destruct (caller s) eqn:Ec; [done|..].
    all: destruct (caller_progress s) as (l & s' & Hi & Hs);
      [done | done | by rewrite Ec | done |];
      rewrite (Hstuck l Hi) in Hs; done.
  - intros s τ w Hr L Hpc Hm.
    apply reachable_Inv in Hr as (_ & (Lw & _) & _).
    apply (Lw _ _ L) in Hm. by rewrite Hpc in Hm.
  - intros s l s' Hr Hs Hu Hm.
    apply reachable_Inv in Hr as (_ & (Lw & Lv & Lc) & _).
    destruct l as [o|k|τ|τ]; simpl in *; try done.
    + (* Enqueue is called between two operations *)
      apply Lc in Hm. unfold step, call in Hs.
      destruct (crashed s); [done|]. by destruct (caller s).
    + (* ClearTasks *)
      apply Lc in Hm. by destruct (caller s).
    + exists τ. split; [done|]. unfold pc_of in *.
      destruct (os_threads s !! τ) as [w|] eqn:L; [|done]. simpl in *.
      apply (Lw _ _ L) in Hm. by destruct (w_pc w).
  - intros s [o|k|τ|τ]; simpl; try done.
    + by destruct (caller s).
    + by destruct (pc_of s τ) as [[]|].
Qed.

Lemma in_predicate_reachable : reachable in_predicate.
Proof. exists (construct 1 ++ runs_of 0 3). reflexivity. Qed.

Lemma parked_reachable : reachable parked.
Proof. exists (construct 1 ++ runs_of 0 6). reflexivity. Qed.

Lemma C9_locks_and_progress_witness :
  quiescent parked ∧
  _threadsMutex parked ≠ Some (Worker 0) ∧
  (∃ τ, Run 0 = Run τ ∧ pc_of in_predicate τ = Some WPredPop).
Proof.
  split_and!.
  - apply (proj1 C9_locks_and_progress parked).
    + exists (construct 1 ++ runs_of 0 6). reflexivity.
    + reflexivity.
    + intros [o|k|[|τ]|τ] Hi; try done.
  - apply (proj1 (proj2 C9_locks_and_progress) parked 0
             (MkWorker 0 0 WWaiting Attached)).
    + exists (construct 1 ++ runs_of 0 6). reflexivity.
    + reflexivity.
    + reflexivity.
  - apply (proj1 (proj2 (proj2 C9_locks_and_progress)) in_predicate (Run 0)
             (default empty_pool (step (Run 0) in_predicate))).
    + exists (construct 1 ++ runs_of 0 3). reflexivity.
    + reflexivity.
    + reflexivity.
    + reflexivity.
Defined.

(** A worker that found the queue empty locks [_threadsMutex] (line 184),
    counts itself idle and evaluates the predicate of [wait]: its next
    step is the [PopTask] of line 188, which locks [_tasksMutex] while
    the worker still holds [_threadsMutex]. *)
Lemma C9_worker_holds_both_mutexes :
  exec (construct 1 ++ runs_of 0 3) empty_pool = Some in_predicate ∧
  pc_of in_predicate 0 = Some WPredPop ∧
  _threadsMutex in_predicate = Some (thread_of (Run 0)) ∧
  uses_tasks_mutex (Run 0) in_predicate = true ∧
  is_Some (step (Run 0) in_predicate).
Proof. split_and!; try reflexivity. by eexists. Qed.

(** ** A call of [Stop], from the call to the return *)

(** What a step of a worker leaves alone. *)
Lemma worker_step_frame τ s s' :
  worker_step τ s = Some s' →
  caller s' = caller s ∧ _threads s' = _threads s ∧
  _threadsStopFlags s' = _threadsStopFlags s ∧
  _doneFlag s' = _doneFlag s ∧ _stopFlag s' = _stopFlag s ∧
  stop_heap s' = stop_heap s ∧
  (_tasks s' = _tasks s ∨ ∃ t, _tasks s = t :: _tasks s').
Proof.
  intros H. unfold worker_step, acquire in H. simpl in H.
  repeat case_step H; simpl; pops; split_and!; eauto.
Qed.

Lemma spurious_wakeup_frame τ s s' :
  spurious_wakeup τ s = Some s' →
  ∃ w, os_threads s !! τ = Some w ∧ w_pc w = WWaiting ∧ s' = goto τ w WWoken s.
Proof.
  intros H. unfold spurious_wakeup in H. simpl in H.
  repeat case_step H. pcs. eauto.
Qed.

Lemma at_index_None {A} (v : list A) i :
  at_index v i = None → ¬ (0 ≤ i < Z.of_nat (length v))%Z.
Proof.
  unfold at_index. intros H Hi.
  destruct (0 <=? i)%Z eqn:E1; [|lia].
  destruct (i <? Z.of_nat (length v))%Z eqn:E2; [|lia]. simpl in H.
  apply lookup_ge_None in H. lia.
Qed.

Lemma stopping_step l s s' :
  Inv s → stopping s → not_call l = true → step l s = Some s' → stopping s'.
Proof.
  intros (Hwf & Hlk & _ & Hha & Hsh & _) Hs Hl H.
  destruct Hwf as (Hw & Hf & Hlen & Hb & Hp).
  destruct Hsh as (Hh & Hfl).
  pose proof (ThreadsCount_length s Hb) as HT.
  unfold stopping in *.
  destruct l as [o | k | τ | τ]; [done | | |].
  - (* the caller *)
    step_inv H; simpl; try done.
    all: rewrite ?E in *; simpl in *; try done.
    all: pops; bools; rewrite ?HT in *; lookups.
    all: try (inst Hh; inst Hfl; inst Hf; simpl in *; rewrite ?E in *;
              simpl in *; repeat case_decide; simplify_eq/=; try lia; try done; fail).
    all: fields; simpl; try done.
    all: try (exfalso; eauto; fail).
    all: try (match goal with E : at_index _ _ = None |- _ =>
                apply at_index_None in E end; lia).
    apply existsb_exists in E1 as (h & Hin & Hj).
    apply list_elem_of_In, list_elem_of_lookup in Hin as (j & Hin).
    apply Hh in Hin. by subst.
  - unfold step in H. destruct (crashed s); [done|].
    apply worker_step_frame in H as (Ec & Et & Ef & _ & _ & _ & Eq).
    rewrite Ec, Et, Ef.
    destruct (caller s); try done; destruct Eq as [-> | (t & Eq)]; try done.
    all: try destruct Hs as (Hs & _); by rewrite Hs in Eq.
  - unfold step in H. destruct (crashed s); [done|].
    apply spurious_wakeup_frame in H as (w & _ & _ & ->). simpl.
    by destruct (caller s).
Qed.

Lemma stopping_exec ls s s' :
  Inv s → stopping s → forallb not_call ls = true → exec ls s = Some s' →
  stopping s'.
Proof.
  revert s. induction ls as [|l ls IH]; intros s Hi Hs Hc H; simpl in *.
  - by simplify_eq.
  - apply andb_true_iff in Hc as (Hl & Hc).
    destruct (step l s) as [s1|] eqn:E; [|done]. simpl in H.
    eapply IH; [| |done|done]; [by eapply Inv_step | by eapply stopping_step].
Qed.

(** Where a call of [Stop] that passes the guards starts. *)
Lemma stopping_call (b : bool) s s' :
  (if b then _doneFlag s || _stopFlag s else _stopFlag s) = false →
  step (Call (OpStop b)) s = Some s' →
  stopping s'.
Proof.
  intros Hg H. unfold step, call in H.
  destruct (crashed s); [done|]. destruct (caller s); try done.
  unfold Stop in H. destruct b; rewrite Hg in H; simplify_eq; done.
Qed.

(** When [Stop] returns the queue and the two vectors are empty, and
    every thread it did not detach earlier has returned. *)
Lemma Stop_returns (b : bool) s0 s1 :
  reachable s0 →
  (if b then _doneFlag s0 || _stopFlag s0 else _stopFlag s0) = false →
  returns_from b s0 s1 →
  reachable s1 ∧ _tasks s1 = [] ∧ _threads s1 = [] ∧ _threadsStopFlags s1 = [] ∧
  ∀ τ w, os_threads s1 !! τ = Some w → awaited w = true → w_pc w = WExit.
Proof.
  intros Hr Hg (s0' & ls & Hc & Hl & He & Hi).
  assert (reachable s0') as Hr'.
  { eapply (reachable_exec [_]); [done | cbn [exec]; rewrite Hc; reflexivity]. }
  assert (reachable s1) as Hr1 by (eapply reachable_exec; [exact Hr' | exact He]).
  assert (stopping s1) as Hs.
  { apply (stopping_exec ls s0'); [by apply reachable_Inv | | done | done].
    by apply (stopping_call b s0). }
  unfold stopping in Hs. rewrite Hi in Hs. destruct Hs as (Hq & Ht & Hf).
  split_and!; try done.
  intros τ w L Ha.
  apply reachable_Inv in Hr1 as (_ & _ & _ & (H1 & H2 & H5 & _) & _).
  unfold awaited in Ha. destruct (w_status w) eqn:Es; try done.
  - destruct (H2 _ _ L Es) as (_ & Hl'). by rewrite Ht in Hl'.
  - eauto.
Qed.

(** ** Task units in flight *)

(** Task units are never removed from the heap. *)
Lemma task_heap_mono l s s' :
  step l s = Some s' → length (task_heap s) ≤ length (task_heap s').
Proof.
  intros H. step_inv H; unfold delete_task; simpl; norm_len; lia.
Qed.

Lemma task_heap_mono_exec ls s s' :
  exec ls s = Some s' → length (task_heap s) ≤ length (task_heap s').
Proof.
  revert s. induction ls as [|l ls IH]; intros s H; simpl in H.
  - by simplify_eq.
  - destruct (step l s) as [s1|] eqn:E; [|done]. simpl in H.
    apply task_heap_mono in E. apply IH in H. lia.
Qed.

(** A unit that has been executed is not touched again. *)
Lemma executed_step l s s' t u :
  task_inv s → step l s = Some s' →
  task_heap s !! t = Some u → executed u →
  task_heap s' !! t = Some u.
Proof.
  intros (T1 & T2 & T3 & T4 & T5) H Lu (Hr & Hf & Hfu).
  step_inv H; unfold delete_task; simpl; try done; pops.
  all: try (by apply lookup_app_l_Some).
  all: match goal with
       | |- alter _ ?n _ !! _ = _ => rewrite list_lookup_alter_ne; [done|]
       | |- <[?n := _]> _ !! _ = _ => rewrite list_lookup_insert_ne; [done|]
       end; intros ->.
  all: try (match goal with E : _tasks _ = ?n :: _ |- _ =>
              destruct (T2 n) as (u' & Lu' & _ & Hf' & _);
              [rewrite E; by left | simplify_eq; lia] end).
  all: match goal with L : os_threads _ !! _ = Some ?w, Ew : w_pc ?w = _ |- _ =>
         destruct (T3 _ _ t L) as (_ & u' & Lu' & Hf' & Hrun);
         [by rewrite Ew | rewrite Ew in Hrun; simpl in Hrun; simplify_eq; lia]
       end.
Qed.

(** The worker that has run a unit deletes it: the unit is executed. *)
Lemma finish_executed s τ w t :
  task_inv s →
  os_threads s !! τ = Some w →
  holds_task (w_pc w) = Some t → has_run (w_pc w) = true →
  ∃ u, alter release t (task_heap s) !! t = Some u ∧ executed u.
Proof.
  intros (T1 & T2 & T3 & T4 & T5) L Hh Hr.
  destruct (T3 _ _ _ L Hh) as (_ & u & Lu & Hf & Hrun). rewrite Hr in Hrun.
  destruct Hrun as (Hru & Hfu).
  exists (release u). split.
  - rewrite list_lookup_alter. destruct (decide (t = t)); [|done]. by rewrite Lu.
  - unfold executed, release. simpl. rewrite Hfu. split_and!; try done; [lia | eauto].
Qed.

(** A unit held by a worker stays with it until the worker deletes it,
    after having run it. *)
Lemma held_step l s s' t τ :
  task_inv s → step l s = Some s' →
  held_by s t τ →
  held_by s' t τ ∨ ∃ u, task_heap s' !! t = Some u ∧ executed u.
Proof.
  intros Hinv H (w & L & Hh).
  step_inv H; unfold held_by, delete_task, goto, unlock; simpl.
  all: try (left; exists w; split; [exact L | exact Hh]; fail).
  all: try (left; exists (wake w); simpl; rewrite list_lookup_fmap, L;
            split; [done | by rewrite holds_task_wake]; fail).
  all: try (left; exists w; split; [by apply lookup_app_l_Some | done]; fail).
  all: match goal with |- context [<[?τ0 := _]> (os_threads _)] =>
         destruct (decide (τ0 = τ)) as [-> | Hne];
         [| left; exists w; split; [by rewrite list_lookup_insert_ne | done]]
       end.
  all: simplify_eq;
       try match goal with Ew : is_waiting _ = true |- _ =>
             apply is_waiting_pc in Ew end;
       try match goal with Ew : w_pc _ = _ |- _ => rewrite Ew in Hh end;
       simpl in Hh; simplify_eq.
  all: try (left; eexists; split;
            [apply list_lookup_insert_eq; by eapply lookup_lt_Some | done]; fail).
  all: right; eapply finish_executed; [done | eassumption | |];
       match goal with Ew : w_pc _ = _ |- _ => by rewrite Ew end.
Qed.

(** Only the shrinking loop of [Init] detaches a thread. *)
Lemma awaited_step l s s' τ w :
  (∀ i n, caller s ≠ CInitShrink i n) →
  step l s = Some s' →
  os_threads s !! τ = Some w → awaited w = true →
  ∃ w', os_threads s' !! τ = Some w' ∧ awaited w' = true.
Proof.
  intros Hc H L Ha.
  step_inv H; unfold goto, unlock, delete_task; simpl.
  all: try (by eauto).
  all: try (by destruct (Hc _ _ eq_refl)).
  all: try (exists (wake w); simpl; rewrite list_lookup_fmap, L;
            split; [done | unfold awaited; by rewrite w_status_wake]; fail).
  all: try (exists w; split; [by apply lookup_app_l_Some | done]; fail).
  all: match goal with |- context [<[?τ0 := _]> (os_threads _)] =>
         destruct (decide (τ0 = τ)) as [-> | Hne];
         [| exists w; split; [by rewrite list_lookup_insert_ne | done]]
       end.
  all: simplify_eq; eexists;
       (split; [apply list_lookup_insert_eq; by eapply lookup_lt_Some | done]).
Qed.

Lemma stopping_no_shrink s : stopping s → ∀ i n, caller s ≠ CInitShrink i n.
Proof. unfold stopping. intros H i n E. by rewrite E in H. Qed.

Lemma in_flight_step l s s' t τ :
  task_inv s → (∀ i n, caller s ≠ CInitShrink i n) →
  step l s = Some s' →
  in_flight_or_done t τ s → in_flight_or_done t τ s'.
Proof.
  intros Hi Hc H ((w & L & Ha) & Hd). split.
  - by eapply awaited_step.
  - destruct Hd as [Hd | (u & Lu & Hu)].
    + by eapply held_step.
    + right. exists u. split; [by eapply executed_step | done].
Qed.

Lemma in_flight_exec ls s s' t τ :
  Inv s → stopping s → forallb not_call ls = true → exec ls s = Some s' →
  in_flight_or_done t τ s → in_flight_or_done t τ s'.
Proof.
  revert s. induction ls as [|l ls IH]; intros s Hi Hs Hc H Hd; simpl in *.
  - by simplify_eq.
  - apply andb_true_iff in Hc as (Hl & Hc).
    destruct (step l s) as [s1|] eqn:E; [|done]. simpl in H.
    apply (IH s1); [by eapply Inv_step | by eapply stopping_step | done | done |].
    eapply in_flight_step; [apply Hi | by apply stopping_no_shrink | done | done].
Qed.

(** What the handle of a unit reads once the unit is executed or
    discarded. *)
Lemma get_executed u :
  executed u → ∃ id, get (future u) = match callable u id with
                                      | Returns v => Yields v
                                      | Throws e => Rethrows e
                                      end.
Proof. intros (_ & _ & id & ->). exists id. simpl. by destruct (callable u id). Qed.

Lemma get_discarded u : discarded u → get (future u) = FutureError.
Proof. by intros (_ & _ & ->). Qed.

(** C4, as the code has it.  [Stop(false)] is called while [_stopFlag] is
    unset and returns.  Then the queue is empty.  Every task unit that was
    queued at the call has been deleted unrun by [ClearTasks], and its
    handle reads as an error; or a worker popped it first and it has run
    once and been deleted, its handle holding the result; or a thread
    detached by an earlier shrink popped it and holds it.  A unit that a
    worker of the pool held at the call has run once and been deleted. *)
Theorem C4_stop_false_discards_or_runs s0 s1 :
  reachable s0 → _stopFlag s0 = false → returns_from false s0 s1 →
  _tasks s1 = [] ∧
  (∀ t, t ∈ _tasks s0 →
     ∃ u, task_heap s1 !! t = Some u ∧
          ((discarded u ∧ get (future u) = FutureError) ∨
           executed u ∨
           ∃ τ w, os_threads s1 !! τ = Some w ∧ w_status w = Detached ∧
                  holds_task (w_pc w) = Some t)) ∧
  (∀ t τ w, os_threads s0 !! τ = Some w → w_status w = Attached →
     holds_task (w_pc w) = Some t →
     ∃ u, task_heap s1 !! t = Some u ∧ executed u).
Proof.
  intros Hr Hg Hret.
  destruct (Stop_returns false s0 s1 Hr Hg Hret) as (Hr1 & Hq & _ & _ & Hex).
  destruct Hret as (s0' & ls & Hc & Hl & He & Hi).
  pose proof (reachable_Inv _ Hr) as I0.
  pose proof (reachable_Inv _ Hr1) as I1.
  assert (Inv s0') as I0' by (eapply Inv_step; [exact I0 | exact Hc]).
  assert (caller s0 = CIdle) as Hc0.
  { unfold step, call in Hc. destruct (crashed s0); [done|].
    by destruct (caller s0). }
  split_and!; [done | |].
  - intros t Ht.
    destruct I0 as (_ & _ & _ & _ & _ & _ & (_ & T2 & _) & _).
    destruct (T2 _ Ht) as (u0 & Lu0 & _). apply lookup_lt_Some in Lu0.
    apply task_heap_mono in Hc. apply task_heap_mono_exec in He.
    destruct (lookup_lt_is_Some_2 (task_heap s1) t) as (u & Lu); [lia|].
    exists u. split; [done|].
    destruct I1 as (_ & _ & _ & _ & _ & _ & (_ & _ & _ & _ & T5) & _).
    destruct (T5 _ _ Lu) as [Hin | [(τ & w & L & Hh) | [Hx | Hx]]].
    + rewrite Hq in Hin. by apply elem_of_nil in Hin.
    + right. right. exists τ, w. split_and!; try done.
      destruct (w_status w) eqn:Es; try done.
      all: rewrite (Hex _ _ L) in Hh; [done | unfold awaited; by rewrite Es].
    + by right; left.
    + left. split; [done | by apply get_discarded].
  - intros t τ w L Hs Hh.
    assert (in_flight_or_done t τ s1) as ((w1 & L1 & Ha1) & Hd).
    { apply (in_flight_exec ls s0'); try done.
      - by eapply (stopping_call false s0).
      - eapply in_flight_step; [apply I0 | | exact Hc |].
        + intros i n. by rewrite Hc0.
        + split; [exists w; split; [done | unfold awaited; by rewrite Hs] |].
          left. by exists w. }
    destruct Hd as [(w1' & L1' & Hh1) | Hd]; [|done].
    simplify_eq. rewrite (Hex _ _ L1 Ha1) in Hh1. done.
Qed.

Lemma one_in_flight_reachable : reachable one_in_flight.
Proof.
  exists (construct 1 ++ enqueue ok_task ++ [Run 0] ++ enqueue ok_task).
  reflexivity.
Qed.

Lemma one_in_flight_aborted : returns_from false one_in_flight aborted.
Proof.
  eexists _, abort_trace. split_and!; [reflexivity | reflexivity | | reflexivity].
  vm_compute. reflexivity.
Qed.

Lemma C4_stop_false_discards_or_runs_witness :
  _tasks aborted = [] ∧
  (∀ t, t ∈ _tasks one_in_flight →
     ∃ u, task_heap aborted !! t = Some u ∧
          ((discarded u ∧ get (future u) = FutureError) ∨
           executed u ∨
           ∃ τ w, os_threads aborted !! τ = Some w ∧ w_status w = Detached ∧
                  holds_task (w_pc w) = Some t)) ∧
  (∀ t τ w, os_threads one_in_flight !! τ = Some w → w_status w = Attached →
     holds_task (w_pc w) = Some t →
     ∃ u, task_heap aborted !! t = Some u ∧ executed u).
Proof.
  apply (C4_stop_false_discards_or_runs one_in_flight aborted).
  - exists (construct 1 ++ enqueue ok_task ++ [Run 0] ++ enqueue ok_task).
    reflexivity.
  - reflexivity.
  - eexists _, abort_trace. split_and!; [reflexivity | reflexivity | | reflexivity].
    vm_compute. reflexivity.
Defined.

Lemma busy_pool_reachable : reachable busy_pool.
Proof. exists (construct 1 ++ enqueue ok_task). reflexivity. Qed.

(** One worker that has not started yet, one task queued, [Stop(false)]:
    the flag of the worker is set, then the worker pops the task, runs it
    and deletes it, and [ClearTasks] finds the queue empty.  The task that
    was queued at the call is executed. *)
Lemma C4_queued_task_is_executed :
  reachable busy_pool ∧ _stopFlag busy_pool = false ∧
  _tasks busy_pool = [0] ∧
  returns_from false busy_pool raced ∧
  (handle_of raced 0 = Some (Ready (Returns 10))) ∧
  ∃ u, task_heap raced !! 0 = Some u ∧ runs u = 1 ∧ ¬ discarded u.
Proof.
  split_and!; try reflexivity.
  - apply busy_pool_reachable.
  - eexists _, race_trace. split_and!; [reflexivity | reflexivity | | reflexivity].
    vm_compute. reflexivity.
  - eexists. split; [reflexivity|]. split; [reflexivity|].
    intros (Hx & _). simpl in Hx. done.
Qed.

(** ** Draining the queue *)

(** The two flags of the pool are never reset. *)
Lemma pool_flags_mono l s s' :
  step l s = Some s' →
  (_doneFlag s = true → _doneFlag s' = true) ∧
  (_stopFlag s = true → _stopFlag s' = true).
Proof. intros H. step_inv H; simpl; done. Qed.

(** Only [ClearTasks] on a queue that is not empty discards a unit. *)
Lemma no_discard_step l s s' :
  task_inv s →
  (∀ t q, _tasks s = t :: q → caller s ≠ CStopClear1 ∧ caller s ≠ CStopClear2) →
  step l s = Some s' →
  (∀ t u, task_heap s !! t = Some u → ¬ discarded u) →
  ∀ t u, task_heap s' !! t = Some u → ¬ discarded u.
Proof.
  intros (T1 & T2 & T3 & T4 & T5) Hc H Hn t u Lu (Hr & Hf & Hfu).
  step_inv H; unfold delete_task in Lu; simpl in Lu; pops.
  all: try (eapply Hn; [exact Lu | done]; fail).
  all: try (match goal with E : _tasks _ = _ :: _ |- _ =>
              destruct (Hc _ _ E); congruence end).
  all: lookups; simplify_eq/=; try lia.
  all: try (eapply Hn; [eassumption | done]; fail).
  all: match goal with L : os_threads _ !! _ = Some ?w, Ew : w_pc ?w = _ |- _ =>
         destruct (T3 _ _ _ L ltac:(by rewrite Ew)) as (_ & u' & Lu' & _ & Hrun);
         rewrite Ew in Hrun; simpl in Hrun; simplify_eq; lia
       end.
Qed.

Lemma never_cleared_empty : never_cleared empty_pool.
Proof. intros _ t u L. done. Qed.

Lemma never_cleared_step l s s' :
  flags_inv s → task_inv s → never_cleared s → step l s = Some s' →
  never_cleared s'.
Proof.
  intros (_ & _ & _ & _ & _ & F6) Ht Hn H Hfl.
  destruct (pool_flags_mono _ _ _ H) as (Hd & Hs).
  apply orb_false_iff in Hfl as (Hfd & Hfs).
  assert (_doneFlag s = false) as Ed by (destruct (_doneFlag s); [by rewrite Hd in Hfd | done]).
  assert (_stopFlag s = false) as Es by (destruct (_stopFlag s); [by rewrite Hs in Hfs | done]).
  eapply no_discard_step; [done | | done |].
  - intros t q _. unfold flag_phase in F6. rewrite Ed, Es in F6.
    split; intros Ec; by rewrite Ec in F6.
  - apply Hn. by rewrite Ed, Es.
Qed.

Lemma never_cleared_reachable s : reachable s → never_cleared s.
Proof.
  intros (ls & H). revert H.
  assert (Inv empty_pool ∧ never_cleared empty_pool) as Hi
    by (split; [apply Inv_empty | apply never_cleared_empty]).
  revert Hi. generalize empty_pool.
  induction ls as [|l ls IH]; intros s0 (Hi & Hn) H; simpl in H.
  - by simplify_eq.
  - destruct (step l s0) as [s1|] eqn:E; [|done]. simpl in H.
    apply (IH s1); [|done]. split; [by eapply Inv_step|].
    destruct Hi as (_ & _ & _ & _ & _ & Hf & Ht & _).
    by eapply never_cleared_step.
Qed.

Lemma leaving_pred_failed pc :
  leaving pc = true → pc = WExit ∨ pred_failed pc = true.
Proof. destruct pc as [| | | | | | | | | | |[]|[]|]; simpl; eauto. Qed.

Lemma draining_step l s s' :
  Inv s → draining s → not_call l = true → step l s = Some s' → draining s'.
Proof.
  intros HI (Dd & Ds & Dn & Dx & Dl & Dp) Hl H.
  assert (∀ t u, task_heap s' !! t = Some u → ¬ discarded u) as Dn'.
  { destruct HI as (_ & _ & _ & _ & _ & _ & Ht & _).
    eapply no_discard_step; [done | | done | done].
    intros t q Eq. split; intros Ec; rewrite Ec in Dp; [done | congruence]. }
  destruct (pool_flags_mono _ _ _ H) as (Hd & _).
  unfold draining. split_and!; [by apply Hd | | done | | |].
  - clear Dn'. step_inv H; simpl; try done. all: by rewrite ?E1, ?E0 in Dp.
  - clear Dn'. step_inv H; unfold goto, unlock, delete_task; simpl; try done.
    all: try (by rewrite ?E1, ?E0 in Dp).
    all: intros τ' w' L Ha; lookups; simplify_eq/=.
    all: try (eapply Dx; by eauto).
    all: try (apply w_pc_wake_exit; eapply Dx; [done|];
              unfold awaited in *; by rewrite w_status_wake in Ha).
    all: try (match goal with L : os_threads _ !! _ = Some ?w |- _ =>
                pose proof (Dx _ _ L Ha); pcs; congruence end).
  - clear Dn'.
    destruct HI as (_ & _ & _ & (H1 & H2 & H5 & _) & _ & (_ & _ & F3 & _) & _ & Hwait & _).
    assert (∀ τ w, os_threads s !! τ = Some w → pred_failed (w_pc w) = true →
                   _tasks s = []) as Hw.
    { intros τ w L Hpf. destruct (Hwait _ _ L Hpf) as [Hq | Hq]; [done|].
      by rewrite Hq in Dp. }
    step_inv H; unfold goto, unlock, delete_task; simpl; try done.
    all: try (by rewrite ?E1, ?E0 in Dp).
    all: pops.
    all: intros τ' w' L Ha Hlv; lookups; simplify_eq/=.
    all: unfold awaited in *; simpl in *;
         rewrite ?leaving_wake, ?w_status_wake in *.
    all: try (eapply Dl; by eauto).
    all: try (match goal with L : os_threads _ !! _ = Some _ |- _ =>
                pose proof (Dl _ _ L Ha Hlv); congruence end).
    all: try (match goal with L : os_threads _ !! _ = Some ?w, Ew : w_pc ?w = _ |- _ =>
                apply (Hw _ _ L); by rewrite Ew end).
    + destruct (H1 _ _ L) as (w0 & L0 & _ & Hst & _). simplify_eq.
      eapply (Dl _ _ E5); [by rewrite Hst | by rewrite E6].
    + exfalso. destruct (w_status w) eqn:Est; try done.
      * pose proof (F3 _ _ E1 Est E3). congruence.
      * pose proof (H5 _ _ E1 Est). congruence.
  - clear Dn'.
    destruct HI as ((Hw & Hf & Hlen & Hb & Hp) & _ & _ & (H1 & H2 & H5 & _) & (Hh & Hfl) & _).
    pose proof (ThreadsCount_length s Hb) as HT.
    destruct l as [o | k | τ | τ]; [done | | |].
    + step_inv H; simpl; try done.
      all: rewrite ?E0 in *; simpl in *; try done.
      all: pops; bools; rewrite ?HT in *; lookups; norm_len.
      all: fields; simpl; try done.
      all: try (match goal with L : _threads _ !! _ = Some _ |- _ =>
                  pose proof (Hh _ _ L) as Hsh; simpl in Hsh;
                  case_decide; [lia | done] end).
      all: try (match goal with E : at_index _ _ = None |- _ =>
                  apply at_index_None in E end; lia).
      all: try (destruct Dp as (Dp1 & Dp2); rewrite ?Dp2 in * by lia; done).
      all: try congruence.
      * destruct Dp as (Dp1 & Dp2). split; [done | intros _].
        destruct (H1 _ _ L) as (w0 & L0 & _ & Hst & _).
        match goal with Lw : os_threads _ !! _ = Some ?w, Ew : w_pc ?w = WExit |- _ =>
          assert (w0 = w) as -> by congruence;
          eapply (Dl _ _ L0); [unfold awaited; by rewrite Hst | by rewrite Ew]
        end.
      * apply existsb_exists in E1 as (h & Hin & Hj).
        apply list_elem_of_In, list_elem_of_lookup in Hin as (j & Hin).
        apply Hh in Hin. by subst.
    + unfold step in H. destruct (crashed s); [done|].
      apply worker_step_frame in H as (Ec & Et & Ef & _ & _ & _ & Eq).
      rewrite Ec, Et.
      destruct (caller s); try done; destruct Eq as [-> | (t & Eq)]; try done.
      all: try (destruct Dp as (Dp1 & Dp2); split; [done|]; intros Hi;
                specialize (Dp2 Hi)).
      all: congruence.
    + unfold step in H. destruct (crashed s); [done|].
      apply spurious_wakeup_frame in H as (w & _ & _ & ->). simpl.
      by destruct (caller s).
Qed.

Lemma draining_exec ls s s' :
  Inv s → draining s → forallb not_call ls = true → exec ls s = Some s' →
  draining s'.
Proof.
  revert s. induction ls as [|l ls IH]; intros s Hi Hs Hc H; simpl in *.
  - by simplify_eq.
  - apply andb_true_iff in Hc as (Hl & Hc).
    destruct (step l s) as [s1|] eqn:E; [|done]. simpl in H.
    apply (IH s1); [by eapply Inv_step | by eapply draining_step | done | done].
Qed.

Lemma count_if_none {A} (f : A → bool) l i x :
  count_if f l = 0 → l !! i = Some x → f x = false.
Proof.
  revert i. induction l as [|y l IH]; intros i H L; [done|].
  simpl in H. destruct i as [|i]; simpl in L.
  - simplify_eq. destruct (f x); [lia | done].
  - apply (IH i); [|done]. destruct (f y); lia.
Qed.

(** [Stop(true)] passes the guard on a pool with a worker and no detached
    thread at work. *)
Lemma draining_call s s' :
  Inv s → never_cleared s →
  _doneFlag s || _stopFlag s = false →
  (0 < ThreadsCount s)%Z →
  count_if live_detached (os_threads s) = 0 →
  step (Call (OpStop true)) s = Some s' →
  draining s'.
Proof.
  intros HI Hn Hg Hlen Hdet H.
  destruct HI as ((_ & _ & _ & Hb & _) & _ & _ & (H1 & H2 & H5 & _) & _ &
                  (_ & _ & F3 & F4 & F5 & _) & _).
  rewrite (ThreadsCount_length s Hb) in Hlen.
  pose proof (Hn Hg) as Hn'.
  unfold step, call in H. destruct (crashed s); [done|].
  destruct (caller s); try done. unfold Stop in H. rewrite Hg in H.
  simplify_eq. apply orb_false_iff in Hg as (Hd & Hs).
  unfold draining. simpl. split_and!; try done; [| |lia].
  - intros τ w L Ha. pose proof (count_if_none _ _ _ _ Hdet L) as Hx.
    unfold awaited in Ha. unfold live_detached in Hx.
    destruct (w_status w); try done. by destruct (w_pc w).
  - intros τ w L Ha Hlv. exfalso. unfold awaited in Ha.
    destruct (w_status w) eqn:Est; try done.
    + destruct (F5 _ _ L Hlv) as [? | Hfs]; [congruence|].
      pose proof (F3 _ _ L Est Hfs). congruence.
    + pose proof (F4 _ _ L Est) as Hj. rewrite Hd, Hs in Hj. done.
Qed.

(** C2, as the code has it.  [Stop(true)] is called on a pool with at
    least one worker while neither flag is set and no thread detached by
    an earlier shrink is still at work, and returns.  Then the queue and
    the two vectors are empty, every thread has returned, and every task
    unit submitted before the call has run once and been deleted by its
    worker, its handle holding the result of the callable. *)
Theorem C2_stop_true_drains s0 s1 :
  reachable s0 →
  _doneFlag s0 || _stopFlag s0 = false →
  (0 < ThreadsCount s0)%Z →
  count_if live_detached (os_threads s0) = 0 →
  returns_from true s0 s1 →
  _tasks s1 = [] ∧ _threads s1 = [] ∧ _threadsStopFlags s1 = [] ∧
  all_exited s1 ∧
  ∀ t, t < length (task_heap s0) →
    ∃ u, task_heap s1 !! t = Some u ∧ executed u ∧
         ∃ id, get (future u) = match callable u id with
                                | Returns v => Yields v
                                | Throws e => Rethrows e
                                end.
Proof.
  intros Hr Hg Hlen Hdet Hret.
  destruct (Stop_returns true s0 s1 Hr Hg Hret) as (Hr1 & Hq & Ht & Hf & Hex).
  destruct Hret as (s0' & ls & Hc & Hl & He & Hi).
  pose proof (reachable_Inv _ Hr) as I0.
  pose proof (reachable_Inv _ Hr1) as I1.
  assert (Inv s0') as I0' by (eapply Inv_step; [exact I0 | exact Hc]).
  assert (draining s1) as (_ & _ & Dn & Dx & _).
  { apply (draining_exec ls s0'); try done.
    apply (draining_call s0); try done. by apply never_cleared_reachable. }
  assert (all_exited s1) as Hall.
  { intros τ w L. destruct (awaited w) eqn:Ea; eauto. }
  split_and!; try done.
  intros t Hlt.
  apply task_heap_mono in Hc. apply task_heap_mono_exec in He.
  destruct (lookup_lt_is_Some_2 (task_heap s1) t) as (u & Lu); [lia|].
  exists u. split; [done|].
  destruct I1 as (_ & _ & _ & _ & _ & _ & (_ & _ & _ & _ & T5) & _).
  destruct (T5 _ _ Lu) as [Hin | [(τ & w & L & Hh) | [Hx | Hx]]].
  - rewrite Hq in Hin. by apply elem_of_nil in Hin.
  - rewrite (Hall _ _ L) in Hh. done.
  - split; [done | by apply get_executed].
  - by destruct (Dn _ _ Lu).
Qed.

Lemma C2_stop_true_drains_witness :
  _tasks drained = [] ∧ _threads drained = [] ∧ _threadsStopFlags drained = [] ∧
  all_exited drained ∧
  ∀ t, t < length (task_heap busy_pool) →
    ∃ u, task_heap drained !! t = Some u ∧ executed u ∧
         ∃ id, get (future u) = match callable u id with
                                | Returns v => Yields v
                                | Throws e => Rethrows e
                                end.
Proof.
  apply (C2_stop_true_drains busy_pool drained).
  - exists (construct 1 ++ enqueue ok_task). reflexivity.
  - reflexivity.
  - reflexivity.
  - reflexivity.
  - eexists _, drain_trace. split_and!; [reflexivity | reflexivity | | reflexivity].
    vm_compute. reflexivity.
Defined.

Lemma no_workers_reachable : reachable no_workers.
Proof. exists (construct 0 ++ enqueue ok_task). reflexivity. Qed.

(** A pool constructed with no worker, one [Enqueue], then [Stop(true)]:
    no thread is there to pop the task, the join loop has nothing to
    wait for, and the [ClearTasks] of line 85 deletes the unit unrun.
    Its handle reads as an error. *)
Lemma C2_stop_true_without_workers_discards :
  reachable no_workers ∧
  _doneFlag no_workers || _stopFlag no_workers = false ∧
  _tasks no_workers = [0] ∧
  returns_from true no_workers no_workers_stopped ∧
  (get <$> handle_of no_workers_stopped 0) = Some FutureError ∧
  ∃ u, task_heap no_workers_stopped !! 0 = Some u ∧ discarded u ∧ ¬ executed u.
Proof.
  split_and!; try reflexivity.
  - apply no_workers_reachable.
  - eexists _, (acts 7). split_and!; [reflexivity | reflexivity | | reflexivity].
    vm_compute. reflexivity.
  - eexists. split; [reflexivity|]. split; [by split_and! |].
    intros (Hx & _). simpl in Hx. done.
Qed.

(** ** What holds in every reachable state *)

(** A task unit is invoked at most once and deleted at most once; once it
    is deleted neither the queue nor a worker refers to it, and a unit
    that has run is no longer queued. *)
Theorem task_unit_lifecycle s t u :
  reachable s → task_heap s !! t = Some u →
  runs u ≤ 1 ∧ frees u ≤ 1 ∧
  (frees u = 1 → (t ∉ _tasks s) ∧ ∀ τ, ¬ held_by s t τ) ∧
  (runs u = 1 → t ∉ _tasks s) ∧
  (future u = Pending → runs u = 0 ∧ frees u = 0).
Proof.
  intros Hr Lu.
  apply reachable_Inv in Hr as (_ & _ & _ & _ & _ & _ & (T1 & T2 & T3 & T4 & T5) & _).
  assert (∀ τ, held_by s t τ → frees u = 0 ∧ runs u ≤ 1 ∧ (t ∉ _tasks s) ∧
                 (future u = Pending → runs u = 0)) as Hheld.
  { intros τ (w & L & Hh). destruct (T3 _ _ _ L Hh) as (Hq & u' & Lu' & Hf & Hrun).
    simplify_eq. destruct (has_run (w_pc w)); destruct Hrun as (Hru & Hfu).
    - split_and!; [done | lia | done | congruence].
    - split_and!; [done | lia | done | done]. }
  assert (t ∈ _tasks s → untouched u) as Hqd.
  { intros Hin. destruct (T2 _ Hin) as (u' & Lu' & Hu). by simplify_eq. }
  destruct (T5 _ _ Lu) as [Hin | [(τ & Hh) | [Hx | Hx]]].
  - destruct (Hqd Hin) as (Hru & Hf & Hfu). split_and!; intros; lia || done.
  - destruct (Hheld _ Hh) as (Hf & Hru & Hq & Hp).
    split_and!; [done | lia | intros; lia | done | eauto].
  - destruct Hx as (Hru & Hf & id & Hfu). split_and!; [lia | lia | | | congruence].
    + intros _. split.
      * intros Hin. destruct (Hqd Hin) as (_ & ? & _). lia.
      * intros τ Hh. destruct (Hheld _ Hh) as (? & _). lia.
    + intros _ Hin. destruct (Hqd Hin) as (? & _). lia.
  - destruct Hx as (Hru & Hf & Hfu). split_and!; [lia | lia | | intros; lia | congruence].
    intros _. split.
    + intros Hin. destruct (Hqd Hin) as (_ & ? & _). lia.
    + intros τ Hh. destruct (Hheld _ Hh) as (? & _). lia.
Qed.

Lemma aborted_reachable : reachable aborted.
Proof.
  exists (construct 1 ++ enqueue ok_task ++ [Run 0] ++ enqueue ok_task ++
          [Call (OpStop false)] ++ abort_trace).
  reflexivity.
Qed.

Lemma task_unit_lifecycle_witness :
  ∃ u, task_heap aborted !! 1 = Some u ∧
       runs u ≤ 1 ∧ frees u ≤ 1 ∧
       (frees u = 1 → (1 ∉ _tasks aborted) ∧ ∀ τ, ¬ held_by aborted 1 τ) ∧
       (runs u = 1 → 1 ∉ _tasks aborted) ∧
       (future u = Pending → runs u = 0 ∧ frees u = 0).
Proof.
  eexists. split; [reflexivity|].
  apply (task_unit_lifecycle aborted 1).
  - exists (construct 1 ++ enqueue ok_task ++ [Run 0] ++ enqueue ok_task ++
            [Call (OpStop false)] ++ abort_trace).
    reflexivity.
  - reflexivity.
Defined.

(** [_threadsMutex] excludes: at most one worker is between lines 184 and
    195 outside of [wait], and none while the caller is between its lock
    and its unlock. *)
Theorem threads_mutex_exclusive s :
  reachable s →
  (∀ τ1 τ2 w1 w2,
     os_threads s !! τ1 = Some w1 → os_threads s !! τ2 = Some w2 →
     holds_lock (w_pc w1) = true → holds_lock (w_pc w2) = true → τ1 = τ2) ∧
  (caller_holds_lock (caller s) = true →
   ∀ τ w, os_threads s !! τ = Some w → holds_lock (w_pc w) = false).
Proof.
  intros Hr. apply reachable_Inv in Hr as (_ & (Lw & Lv & Lc) & _). split.
  - intros τ1 τ2 w1 w2 L1 L2 Hh1 Hh2.
    apply (Lw _ _ L1) in Hh1. apply (Lw _ _ L2) in Hh2. congruence.
  - intros Hc τ w L. apply Lc in Hc.
    destruct (holds_lock (w_pc w)) eqn:Hh; [|done].
    apply (Lw _ _ L) in Hh. congruence.
Qed.

Lemma threads_mutex_exclusive_witness :
  (∀ τ1 τ2 w1 w2,
     os_threads in_predicate !! τ1 = Some w1 →
     os_threads in_predicate !! τ2 = Some w2 →
     holds_lock (w_pc w1) = true → holds_lock (w_pc w2) = true → τ1 = τ2) ∧
  (caller_holds_lock (caller in_predicate) = true →
   ∀ τ w, os_threads in_predicate !! τ = Some w → holds_lock (w_pc w) = false).
Proof.
  apply (threads_mutex_exclusive in_predicate).
  exists (construct 1 ++ runs_of 0 3). reflexivity.
Defined.

(** The flags are only ever set: [_doneFlag], [_stopFlag] and the flag of
    each thread stay set along every execution. *)
Theorem flags_never_reset ls s s' :
  exec ls s = Some s' →
  (_doneFlag s = true → _doneFlag s' = true) ∧
  (_stopFlag s = true → _stopFlag s' = true) ∧
  (∀ p, stop_heap s !! p = Some true → stop_heap s' !! p = Some true).
Proof.
  revert s. induction ls as [|l ls IH]; intros s H; simpl in H.
  - by simplify_eq.
  - destruct (step l s) as [s1|] eqn:E; [|done]. simpl in H.
    destruct (IH _ H) as (Hd & Hs & Hp).
    destruct (pool_flags_mono _ _ _ E) as (Hd1 & Hs1).
    split_and!; eauto using stop_heap_mono.
Qed.

Lemma flags_never_reset_witness :
  (_doneFlag aborted_pool = true → _doneFlag aborted_with_task = true) ∧
  (_stopFlag aborted_pool = true → _stopFlag aborted_with_task = true) ∧
  (∀ p, stop_heap aborted_pool !! p = Some true →
        stop_heap aborted_with_task !! p = Some true).
Proof.
  apply (flags_never_reset (enqueue ok_task) aborted_pool aborted_with_task).
  vm_compute. reflexivity.
Defined.

(** Handles and threads correspond: the handle at index [i] that is
    joinable refers to a started thread that has been neither joined nor
    detached (its function may have returned already), and that captured
    the index [i] and the flag stored at [_threadsStopFlags[i]]; two
    joinable handles never refer to the same thread. *)
Theorem handles_match_threads s i τ :
  reachable s → _threads s !! i = Some (Joinable τ) →
  (∃ w, os_threads s !! τ = Some w ∧ w_index w = Z.of_nat i ∧
        w_status w = Attached ∧
        _threadsStopFlags s !! i = Some (Some (w_stop w)) ∧
        w_stop w < length (stop_heap s)) ∧
  (∀ j, _threads s !! j = Some (Joinable τ) → j = i).
Proof.
  intros Hr Li.
  apply reachable_Inv in Hr as ((Hw & _) & _ & _ & (H1 & H2 & _) & _).
  destruct (H1 _ _ Li) as (w & L & Hi & Hs & Hf). split.
  - exists w. split_and!; eauto.
  - intros j Lj. destruct (H1 _ _ Lj) as (w' & L' & Hj & _). simplify_eq. lia.
Qed.

Lemma two_parked_reachable : reachable two_parked.
Proof. exists (construct 2 ++ runs_of 0 6 ++ runs_of 1 6). reflexivity. Qed.

Lemma handles_match_threads_witness :
  (∃ w, os_threads two_parked !! 1 = Some w ∧ w_index w = Z.of_nat 1 ∧
        w_status w = Attached ∧
        _threadsStopFlags two_parked !! 1 = Some (Some (w_stop w)) ∧
        w_stop w < length (stop_heap two_parked)) ∧
  (∀ j, _threads two_parked !! j = Some (Joinable 1) → j = 1).
Proof.
  apply (handles_match_threads two_parked 1 1).
  - exists (construct 2 ++ runs_of 0 6 ++ runs_of 1 6). reflexivity.
  - reflexivity.
Defined.

(** A step changes the queue at its two ends only: [Enqueue] appends the
    unit it has allocated at the back, every other step removes the
    front element or leaves the queue alone. *)
Lemma queue_step l s s' :
  step l s = Some s' →
  if is_enqueue l
  then _tasks s' = _tasks s ++ [length (task_heap s)] ∧
       length (task_heap s') = S (length (task_heap s))
  else length (task_heap s') = length (task_heap s) ∧
       (_tasks s' = _tasks s ∨ ∃ t, _tasks s = t :: _tasks s').
Proof.
  intros H. step_inv H; unfold PushTask, delete_task; simpl; pops; norm_len;
    split; eauto; lia.
Qed.

(** Along an execution the queue is served in order: what is queued at
    the end is the old queue followed by the units submitted since, in
    the order of their submission, less the ones taken from the front. *)
Theorem queue_served_in_order ls s s' :
  exec ls s = Some s' →
  ∃ k, _tasks s' = drop k (_tasks s ++ submitted (length (task_heap s)) ls) ∧
       length (task_heap s') = length (task_heap s) + count_if is_enqueue ls.
Proof.
  unfold submitted.
  revert s. induction ls as [|l ls IH]; intros s H; simpl in H.
  - simplify_eq. exists 0. simpl. rewrite app_nil_r. split; [done | lia].
  - destruct (step l s) as [s1|] eqn:E; [|done]. simpl in H.
    destruct (IH _ H) as (k & Hq & Hk).
    apply queue_step in E. simpl. destruct (is_enqueue l).
    + destruct E as (E1 & E2). rewrite E1, E2 in Hq. rewrite E2 in Hk.
      exists k. simpl. rewrite <- app_assoc in Hq. split; [done | lia].
    + destruct E as (E2 & [E1 | (t & E1)]); rewrite E2 in Hq, Hk.
      * rewrite E1 in Hq. exists k. by split.
      * exists (S k). rewrite E1. simpl. by split.
Qed.

Lemma queue_served_in_order_witness :
  ∃ k, _tasks one_in_flight =
         drop k (_tasks busy_pool ++
                 submitted (length (task_heap busy_pool))
                   ([Run 0] ++ enqueue ok_task)) ∧
       length (task_heap one_in_flight) =
         length (task_heap busy_pool) +
         count_if is_enqueue ([Run 0] ++ enqueue ok_task).
Proof.
  apply (queue_served_in_order ([Run 0] ++ enqueue ok_task)).
  vm_compute. reflexivity.
Defined.

(** Once [Stop(false)] is past its loop over the flags, the flag of every
    thread of the pool is set. *)
Theorem stop_false_flags_every_thread s τ w :
  reachable s → _stopFlag s = true →
  (∀ i tc, caller s ≠ CStopFlags i tc) →
  os_threads s !! τ = Some w → w_status w ≠ Joined →
  stop_heap s !! w_stop w = Some true.
Proof.
  intros Hr Hs Hc L Hj.
  apply reachable_Inv in Hr as (_ & _ & _ & _ & _ & (_ & F2 & _) & _ & _ & (SA & _)).
  destruct (w_status w) eqn:Est; [| by apply (F2 _ _ L) | done].
  apply (SA Hs _ _ L Est). unfold flagged_upto.
  destruct (caller s) eqn:Ec; try done. by destruct (Hc i tc).
Qed.

Lemma stop_false_flags_every_thread_witness :
  stop_heap flags_done !! 0 = Some true.
Proof.
  apply (stop_false_flags_every_thread flags_done 0 (MkWorker 0 0 WStart Attached)).
  - exists (construct 1 ++ enqueue ok_task ++ [Call (OpStop false); Act 0; Act 0]).
    reflexivity.
  - reflexivity.
  - intros i tc. vm_compute. discriminate.
  - reflexivity.
  - simpl. discriminate.
Defined.

(** A worker returns only when the pool drains or its own flag is set:
    as long as [Stop(true)] has not been called, every thread that has
    returned, or is about to, was cancelled. *)
Theorem worker_returns_only_when_told s τ w :
  reachable s → os_threads s !! τ = Some w → leaving (w_pc w) = true →
  _doneFlag s = true ∨ stop_heap s !! w_stop w = Some true.
Proof.
  intros Hr L Hl.
  apply reachable_Inv in Hr as (_ & _ & _ & _ & _ & (_ & _ & _ & _ & F5 & _) & _).
  by apply (F5 _ _ L).
Qed.

Lemma worker_returns_only_when_told_witness :
  _doneFlag aborted = true ∨ stop_heap aborted !! 0 = Some true.
Proof.
  apply (worker_returns_only_when_told aborted 0 (MkWorker 0 0 WExit Joined)).
  - exists (construct 1 ++ enqueue ok_task ++ [Run 0] ++ enqueue ok_task ++
            [Call (OpStop false)] ++ abort_trace).
    reflexivity.
  - reflexivity.
  - reflexivity.
Defined.

(** ** The loops of the caller *)

Lemma step_act s k : crashed s = false → step (Act k) s = caller_step k s.
Proof. intros H. unfold step. by rewrite H. Qed.

Lemma exec_cons l ls s s1 :
  step l s = Some s1 → exec (l :: ls) s = exec ls s1.
Proof. intros H. simpl. by rewrite H. Qed.

Lemma discarded_release u : untouched u → discarded (release u).
Proof. intros (Hr & Hf & Hp). unfold discarded, release. simpl. by rewrite Hr, Hf, Hp. Qed.

(** [ClearTasks] run on its own: one iteration for each queued unit. *)
Lemma clear_loop c next q :
  after_clear c = Some next →
  ∀ s, _tasks s = q → caller s = c → NoDup q →
    (∀ t, t ∈ q → ∃ u, task_heap s !! t = Some u ∧ untouched u) →
    ∃ s', exec (acts (length q + 1)) s = Some s' ∧
          caller s' = next ∧ _tasks s' = [] ∧ os_threads s' = os_threads s ∧
          (∀ t, t ∈ q → ∃ u, task_heap s' !! t = Some u ∧ discarded u) ∧
          (∀ t, t ∉ q → task_heap s' !! t = task_heap s !! t).
Proof.
  intros Hn. induction q as [|t q IH]; intros s Hq Hc Hnd Hu.
  - exists (set_caller next s). simpl.
    rewrite step_act by (unfold crashed; rewrite Hc; by destruct c).
    unfold caller_step, clear_step. rewrite Hc, Hq.
    split_and!; try done.
    + destruct c; simplify_eq/=; done.
    + intros t Ht. by apply elem_of_nil in Ht.
  - apply NoDup_cons in Hnd as (Hnt & Hnd).
    destruct (Hu t) as (u & Lu & Hut); [by left|].
    destruct (IH (delete_task t (set_tasks q s))) as (s' & He & Hc' & Hq' & Ho & Hd & Hk);
      [done | done | done | |].
    { intros t' Ht'. destruct (Hu t') as (u' & Lu' & Hu'); [by right|].
      exists u'. split; [|done]. unfold delete_task. simpl.
      rewrite list_lookup_alter_ne; [done|]. intros ->. done. }
    exists s'. split_and!; try done.
    + change (acts (length (t :: q) + 1)) with (Act 0 :: acts (length q + 1)).
      rewrite (exec_cons _ _ _ (delete_task t (set_tasks q s))); [done|].
      rewrite step_act by (unfold crashed; rewrite Hc; by destruct c).
      unfold caller_step, clear_step. rewrite Hc, Hq.
      destruct c; simplify_eq/=; done.
    + intros t' Ht'. apply elem_of_cons in Ht' as [-> | Ht']; [|by apply Hd].
      rewrite (Hk t Hnt). unfold delete_task. simpl.
      exists (release u). split; [|by apply discarded_release].
      rewrite list_lookup_alter. destruct (decide (t = t)); [|done]. by rewrite Lu.
    + intros t' Ht'. apply not_elem_of_cons in Ht' as (Hne & Ht').
      rewrite (Hk t' Ht'). unfold delete_task. simpl.
      by rewrite list_lookup_alter_ne.
Qed.

(** [ClearTasks], when no worker interferes, empties the queue in one
    iteration for each unit: every unit that was queued is deleted unrun,
    no other unit is touched and no thread is. *)
Theorem ClearTasks_discards_queue s next :
  reachable s → after_clear (caller s) = Some next →
  ∃ s', exec (acts (length (_tasks s) + 1)) s = Some s' ∧
        caller s' = next ∧ _tasks s' = [] ∧ os_threads s' = os_threads s ∧
        (∀ t, t ∈ _tasks s → ∃ u, task_heap s' !! t = Some u ∧ discarded u) ∧
        (∀ t, t ∉ _tasks s → task_heap s' !! t = task_heap s !! t).
Proof.
  intros Hr Hn.
  apply reachable_Inv in Hr as (_ & _ & _ & _ & _ & _ & (T1 & T2 & _) & _).
  by apply (clear_loop (caller s) next (_tasks s)).
Qed.

Lemma ClearTasks_discards_queue_witness :
  ∃ s', exec (acts (length (_tasks clearing) + 1)) clearing = Some s' ∧
        caller s' = CStopLock ∧ _tasks s' = [] ∧
        os_threads s' = os_threads clearing ∧
        (∀ t, t ∈ _tasks clearing → ∃ u, task_heap s' !! t = Some u ∧ discarded u) ∧
        (∀ t, t ∉ _tasks clearing → task_heap s' !! t = task_heap clearing !! t).
Proof.
  apply (ClearTasks_discards_queue clearing CStopLock).
  - exists (construct 1 ++ enqueue ok_task ++ [Run 0] ++ enqueue ok_task ++
            [Call (OpStop false)] ++ acts 2).
    reflexivity.
  - reflexivity.
Defined.

(** *** Growing *)

Lemma spawned_S i p k :
  spawned i p (S k) = MkWorker i p WStart Attached :: spawned (i + 1) (S p) k.
Proof.
  unfold spawned. simpl. rewrite Z.add_0_r, Nat.add_0_r. f_equal.
  rewrite <- fmap_S_seq, <- list_fmap_compose. apply list_fmap_ext.
  intros _ j _. simpl. f_equal; lia.
Qed.

Lemma at_index_lookup {A} (v : list A) i :
  (0 ≤ i < Z.of_nat (length v))%Z → ∃ x, at_index v i = Some x.
Proof.
  intros Hi. destruct (at_index v i) eqn:E; [eauto|].
  by apply at_index_None in E.
Qed.

(** The loop of lines 135-139 from index [i]: [k] iterations and the
    exit. *)
Lemma grow_loop n k :
  ∀ i s, caller s = CInitGrow i n → (0 ≤ i)%Z → (i + Z.of_nat k = n)%Z →
    (n < 2 ^ 32)%Z →
    Z.of_nat (length (_threads s)) = n →
    length (_threadsStopFlags s) = length (_threads s) →
    ∃ s', exec (acts (k + 1)) s = Some s' ∧ caller s' = CIdle ∧
          length (_threads s') = length (_threads s) ∧
          length (_threadsStopFlags s') = length (_threads s) ∧
          os_threads s' = os_threads s ++ spawned i (length (stop_heap s)) k ∧
          stop_heap s' = stop_heap s ++ replicate k false ∧
          (∀ j, j < Z.to_nat i →
             _threads s' !! j = _threads s !! j ∧
             _threadsStopFlags s' !! j = _threadsStopFlags s !! j) ∧
          (∀ j, j < k →
             _threads s' !! (Z.to_nat i + j) =
               Some (Joinable (length (os_threads s) + j)) ∧
             _threadsStopFlags s' !! (Z.to_nat i + j) =
               Some (Some (length (stop_heap s) + j))) ∧
          _tasks s' = _tasks s ∧ task_heap s' = task_heap s ∧
          _idleThreadsCount s' = _idleThreadsCount s ∧
          _threadsMutex s' = _threadsMutex s ∧
          _doneFlag s' = _doneFlag s ∧ _stopFlag s' = _stopFlag s.
Proof.
  induction k as [|k IH]; intros i s Hc Hi Hk Hn Hlen Hfl.
  - exists (set_caller CIdle s). simpl.
    rewrite step_act by (unfold crashed; by rewrite Hc).
    unfold caller_step, grow_step. rewrite Hc.
    destruct (i <? n)%Z eqn:E; [apply Z.ltb_lt in E; lia|]. simpl.
    unfold spawned. simpl. rewrite !app_nil_r.
    split_and!; try done. intros j Hj. lia.
  - destruct (at_index_lookup (_threads s) i) as (h & Eh); [lia|].
    destruct (at_index_lookup (_threadsStopFlags s) i) as (o & Eo); [lia|].
    pose (s1 := MkPool (_tasks s)
          (<[Z.to_nat i := Joinable (length (os_threads s))]> (_threads s))
          (<[Z.to_nat i := Some (length (stop_heap s))]> (_threadsStopFlags s))
          (_idleThreadsCount s) (_doneFlag s) (_stopFlag s) (_threadsMutex s)
          (stop_heap s ++ [false]) (task_heap s)
          (os_threads s ++ [MkWorker i (length (stop_heap s)) WStart Attached])
          (CInitGrow (i + 1) n)).
    assert (step (Act 0) s = Some s1) as Hs.
    { rewrite step_act by (unfold crashed; by rewrite Hc).
      unfold caller_step, grow_step. rewrite Hc.
      destruct (i <? n)%Z eqn:E; [|apply Z.ltb_ge in E; lia].
      rewrite Eh, Eo. unfold s1. rewrite wrap_uint_small by lia. done. }
    destruct (IH (i + 1)%Z s1) as
      (s' & He & Hc' & Hl1 & Hl2 & Ho & Hsh & Hlo & Hhi & Hq & Hth & Hid & Hmx & Hd & Hst);
      [done | lia | lia | done | | |].
    { unfold s1. simpl. by rewrite length_insert. }
    { unfold s1. simpl. by rewrite !length_insert. }
    unfold s1 in Hl1, Hl2, Ho, Hsh, Hlo, Hhi, Hq, Hth, Hid, Hmx, Hd, Hst.
    simpl in Hl1, Hl2, Ho, Hsh, Hlo, Hhi, Hq, Hth, Hid, Hmx, Hd, Hst.
    rewrite length_insert in Hl1, Hl2.
    exists s'. split_and!; try done.
    + change (acts (S k + 1)) with (Act 0 :: acts (k + 1)).
      by rewrite (exec_cons _ _ _ s1).
    + rewrite Ho, spawned_S, <- app_assoc. simpl.
      rewrite length_app. simpl. by rewrite Nat.add_1_r.
    + rewrite Hsh, <- app_assoc. done.
    + intros j Hj. destruct (Hlo j) as (Ha & Hb); [lia|].
      rewrite Ha, Hb. rewrite !list_lookup_insert_ne by lia. done.
    + intros [|j] Hj.
      * rewrite !Nat.add_0_r. destruct (Hlo (Z.to_nat i)) as (Ha & Hb); [lia|].
        rewrite Ha, Hb. rewrite !list_lookup_insert_eq by lia. done.
      * destruct (Hhi j) as (Ha & Hb); [lia|].
        rewrite !length_app in Ha, Hb. simpl in Ha, Hb.
        replace (Z.to_nat i + S j) with (Z.to_nat (i + 1) + j) by lia.
        rewrite Ha, Hb. split; do 2 f_equal; lia.
Qed.

(** [Init(n)] with [n] above the number of threads, run on its own: the
    vectors are resized, one thread is started at each new index with a
    flag of its own, unset, and the call returns.  The handles and threads
    that were there, the queue and the idle counter are left alone. *)
Theorem Init_grows s n :
  reachable s → caller s = CIdle → _doneFlag s || _stopFlag s = false →
  (ThreadsCount s < n < 2 ^ 32)%Z →
  ∃ s', exec (Call (OpInit n) :: acts (Z.to_nat (n - ThreadsCount s) + 1)) s = Some s' ∧
        caller s' = CIdle ∧ ThreadsCount s' = n ∧
        os_threads s' =
          os_threads s ++
          spawned (ThreadsCount s) (length (stop_heap s)) (Z.to_nat (n - ThreadsCount s)) ∧
        stop_heap s' = stop_heap s ++ replicate (Z.to_nat (n - ThreadsCount s)) false ∧
        (∀ j, j < length (_threads s) → _threads s' !! j = _threads s !! j) ∧
        (∀ j, j < Z.to_nat (n - ThreadsCount s) →
           _threads s' !! (length (_threads s) + j) =
             Some (Joinable (length (os_threads s) + j))) ∧
        _tasks s' = _tasks s ∧ _idleThreadsCount s' = _idleThreadsCount s.
Proof.
  intros Hr Hc Hg Hn.
  pose proof (ThreadsCount_reachable s Hr) as HT.
  apply reachable_Inv in Hr as ((_ & _ & Hlen & Hb & _) & _).
  set (m := ThreadsCount s) in *.
  pose (s0 := set_caller (CInitGrow m n)
                (set_flags (resize (Z.to_nat n) None (_threadsStopFlags s))
                   (set_threads (resize (Z.to_nat n) Null (_threads s)) s))).
  assert (step (Call (OpInit n)) s = Some s0) as Hs.
  { rewrite step_call by done. unfold call. rewrite Hc.
    destruct (decide (0 ≤ n < 2 ^ 32)%Z) as [_|Hno].
    2:{ pose proof (wrap_uint_range (Z.of_nat (length (_threads s)))).
        unfold m, ThreadsCount in *. lia. }
    unfold Init. rewrite orb_comm, Hg. fold m.
    destruct (m =? n)%Z eqn:E1; [apply Z.eqb_eq in E1; lia|].
    destruct (m <? n)%Z eqn:E2; [done | apply Z.ltb_ge in E2; lia]. }
  destruct (grow_loop n (Z.to_nat (n - m)) m s0) as
    (s' & He & Hc' & Hl1 & Hl2 & Ho & Hsh & Hlo & Hhi & Hq & Hth & Hid & Hmx & _);
    [done | lia | lia | lia | | |].
  { unfold s0. simpl. rewrite length_resize. lia. }
  { unfold s0. simpl. by rewrite !length_resize. }
  unfold s0 in Hl1, Hl2, Ho, Hsh, Hlo, Hhi, Hq, Hth, Hid, Hmx.
  simpl in Hl1, Hl2, Ho, Hsh, Hlo, Hhi, Hq, Hth, Hid, Hmx.
  rewrite length_resize in Hl1.
  exists s'. split_and!; try done.
  - by rewrite (exec_cons _ _ _ s0).
  - unfold ThreadsCount. rewrite Hl1. rewrite wrap_uint_small; lia.
  - intros j Hj. destruct (Hlo j) as (Ha & _); [lia|].
    rewrite Ha. by rewrite lookup_resize by lia.
  - intros j Hj. destruct (Hhi j Hj) as (Ha & _).
    replace (length (_threads s) + j) with (Z.to_nat m + j) by lia. done.
Qed.

Lemma Init_grows_witness :
  ∃ s', exec (Call (OpInit 3) :: acts (Z.to_nat (3 - ThreadsCount one_worker) + 1))
          one_worker = Some s' ∧
        caller s' = CIdle ∧ ThreadsCount s' = 3%Z ∧
        os_threads s' =
          os_threads one_worker ++
          spawned (ThreadsCount one_worker) (length (stop_heap one_worker))
            (Z.to_nat (3 - ThreadsCount one_worker)) ∧
        stop_heap s' =
          stop_heap one_worker ++
          replicate (Z.to_nat (3 - ThreadsCount one_worker)) false ∧
        (∀ j, j < length (_threads one_worker) →
              _threads s' !! j = _threads one_worker !! j) ∧
        (∀ j, j < Z.to_nat (3 - ThreadsCount one_worker) →
           _threads s' !! (length (_threads one_worker) + j) =
             Some (Joinable (length (os_threads one_worker) + j))) ∧
        _tasks s' = _tasks one_worker ∧
        _idleThreadsCount s' = _idleThreadsCount one_worker.
Proof.
  apply (Init_grows one_worker 3).
  - exists (construct 1). reflexivity.
  - reflexivity.
  - reflexivity.
  - vm_compute. split; reflexivity.
Defined.

(** *** Shrinking *)

(** The loop of lines 143-147 from index [i] down to [n], for [n] at
    least 1: [k] iterations and the exit. *)
Lemma shrink_loop n k :
  ∀ i s, Inv s → caller s = CInitShrink i n → (1 ≤ n)%Z →
    (i + 1 = n + Z.of_nat k)%Z →
    ∃ s', exec (acts (k + 1)) s = Some s' ∧ caller s' = CInitLock n ∧
          length (_threads s') = length (_threads s) ∧
          (∀ j, j < Z.to_nat n → _threads s' !! j = _threads s !! j) ∧
          _tasks s' = _tasks s ∧ task_heap s' = task_heap s ∧
          _idleThreadsCount s' = _idleThreadsCount s ∧
          _threadsMutex s' = _threadsMutex s ∧
          w_pc <$> os_threads s' = w_pc <$> os_threads s.
Proof.
  induction k as [|k IH]; intros i s HI Hc Hn Hk.
  - exists (set_caller (CInitLock n) s). simpl.
    rewrite step_act by (unfold crashed; by rewrite Hc).
    unfold caller_step, shrink_step. rewrite Hc.
    destruct (n <=? i)%Z eqn:E; [apply Z.leb_le in E; lia|]. done.
  - pose proof HI as ((Hw & Hf & Hlen & Hb & Hp) & _ & _ & (H1 & _) & (Hh & Hfl) & _).
    rewrite Hc in Hp. simpl in Hp.
    assert (wrap_uint (i + 1) = (i + 1)%Z) as Hwr by (clear IH; wrap_lia).
    rewrite Hwr in Hp.
    destruct (at_index_lookup (_threads s) i) as (h & Eh); [lia|].
    pose proof Eh as Eh'. apply at_index_Some in Eh' as (_ & Lh).
    pose proof (Hh _ _ Lh) as Hj. rewrite Hc in Hj. simpl in Hj.
    rewrite Hwr in Hj. destruct (decide _) as [_|]; [|lia].
    destruct h as [|τ|]; try done.
    destruct (H1 _ _ Lh) as (w & L & Hi & Hs & Lf).
    assert (at_index (_threadsStopFlags s) i = Some (Some (w_stop w))) as Ef.
    { apply at_index_Some. split; [lia | done]. }
    pose proof (Hw _ _ L) as Hlt.
    destruct (step (Act 0) s) as [s1|] eqn:Hs1.
    2:{ rewrite step_act in Hs1 by (unfold crashed; by rewrite Hc).
        unfold caller_step, shrink_step in Hs1. rewrite Hc in Hs1.
        destruct (n <=? i)%Z; [|done]. rewrite Ef, Eh, L in Hs1.
        by destruct (decide _). }
    pose proof (Inv_step _ _ _ HI Hs1) as HI1.
    rewrite step_act in Hs1 by (unfold crashed; by rewrite Hc).
    unfold caller_step, shrink_step in Hs1. rewrite Hc in Hs1.
    destruct (n <=? i)%Z eqn:E; [|apply Z.leb_gt in E; lia].
    rewrite Ef, Eh, L in Hs1. destruct (decide _) as [_|]; [|done].
    rewrite wrap_uint_small in Hs1 by lia. injection Hs1 as <-.
    match type of HI1 with Inv ?x => set (s1 := x) in * end.
    destruct (IH (i - 1)%Z s1 HI1) as
      (s' & He & Hc' & Hl1 & Hlo & Hq & Hth & Hid & Hmx & Hpc); [done | done | lia |].
    unfold s1 in Hl1, Hlo, Hq, Hth, Hid, Hmx, Hpc.
    simpl in Hl1, Hlo, Hq, Hth, Hid, Hmx, Hpc.
    rewrite length_insert in Hl1.
    exists s'. split_and!; try done.
    + change (acts (S k + 1)) with (Act 0 :: acts (k + 1)).
      rewrite (exec_cons _ _ _ s1); [done|].
      rewrite step_act by (unfold crashed; by rewrite Hc).
      unfold caller_step, shrink_step. rewrite Hc, E, Ef, Eh, L.
      destruct (decide _) as [_|]; [|done].
      rewrite wrap_uint_small by lia. done.
    + intros j Hj'. rewrite Hlo by done. rewrite list_lookup_insert_ne by lia. done.
    + rewrite Hpc. rewrite list_fmap_insert. simpl.
      apply list_insert_id. by rewrite list_lookup_fmap, L.
Qed.

Lemma existsb_false_all {A} (f : A → bool) l :
  (∀ i x, l !! i = Some x → f x = false) → existsb f l = false.
Proof.
  intros H. apply not_true_is_false. intros E.
  apply existsb_exists in E as (x & Hin & Hx).
  apply list_elem_of_In, list_elem_of_lookup in Hin as (i & L).
  rewrite (H _ _ L) in Hx. done.
Qed.

Lemma count_if_all {A} (f : A → bool) l :
  (∀ i x, l !! i = Some x → f x = true) → count_if f l = length l.
Proof.
  induction l as [|y l IH]; intros H; simpl; [done|].
  rewrite (H 0 y) by done. rewrite IH; [done|].
  intros i x L. by apply (H (S i)).
Qed.

Lemma is_waiting_wake w : is_waiting (wake w) = false.
Proof. unfold wake, is_waiting. destruct w as [? ? [] ?]; done. Qed.

Lemma waiting_after_notify_all s : waiting_workers (notify_all s) = 0.
Proof.
  unfold waiting_workers, notify_all. simpl. apply count_if_zero.
  apply existsb_false_all. intros i x L.
  apply list_lookup_fmap_Some in L as (w & -> & _). apply is_waiting_wake.
Qed.

Lemma acts_add a b : acts (a + b) = acts a ++ acts b.
Proof. unfold acts. apply replicate_add. Qed.

(** [Init(n)] with [n] at least 1 and below the number of threads, run on
    its own while [_threadsMutex] is free: the threads at the indices from
    [n] on are detached, every sleeping thread is woken, the vectors are
    cut down to [n] elements and the call returns.  The first [n] handles
    and the queue are left alone, and [n] threads stay attached. *)
Theorem Init_shrinks s n :
  reachable s → caller s = CIdle → _doneFlag s || _stopFlag s = false →
  (1 ≤ n < ThreadsCount s)%Z → _threadsMutex s = None →
  ∃ s', exec (Call (OpInit n) :: acts (Z.to_nat (ThreadsCount s - n) + 1 + 4)) s = Some s' ∧
        caller s' = CIdle ∧ ThreadsCount s' = n ∧
        (∀ j, j < Z.to_nat n → _threads s' !! j = _threads s !! j) ∧
        count_if is_attached (os_threads s') = Z.to_nat n ∧
        waiting_workers s' = 0 ∧
        _tasks s' = _tasks s ∧ _idleThreadsCount s' = _idleThreadsCount s.
Proof.
  intros Hr Hc Hg Hn Hm.
  pose proof (ThreadsCount_reachable s Hr) as HT.
  pose proof (reachable_Inv _ Hr) as HI.
  pose proof HI as ((_ & _ & Hlen & Hb & _) & _).
  set (m := ThreadsCount s) in *.
  pose (s0 := set_caller (CInitShrink (m - 1) n) s).
  assert (step (Call (OpInit n)) s = Some s0) as Hs.
  { rewrite step_call by done. unfold call. rewrite Hc.
    destruct (decide (0 ≤ n < 2 ^ 32)%Z) as [_|Hno]; [|lia].
    unfold Init. rewrite orb_comm, Hg. fold m.
    destruct (m =? n)%Z eqn:E1; [apply Z.eqb_eq in E1; lia|].
    destruct (m <? n)%Z eqn:E2; [apply Z.ltb_lt in E2; lia|].
    unfold s0. rewrite wrap_uint_small by lia. done. }
  pose proof (Inv_step _ _ _ HI Hs) as HI0.
  destruct (shrink_loop n (Z.to_nat (m - n)) (m - 1)%Z s0 HI0) as
    (s2 & He & Hc2 & Hl2 & Hlo & Hq & Hth & Hid & Hmx & Hpc); [done | lia | lia |].
  unfold s0 in Hl2, Hlo, Hq, Hth, Hid, Hmx, Hpc.
  simpl in Hl2, Hlo, Hq, Hth, Hid, Hmx, Hpc.
  pose proof (Inv_exec _ _ _ HI0 He) as HI2.
  pose (s3 := set_caller (CInitNotify n) (set_mutex (Some Caller) s2)).
  pose (s4 := set_caller (CInitUnlock n) (notify_all s3)).
  pose (s5 := set_caller (CInitResize n) (unlock s4)).
  assert (step (Act 0) s2 = Some s3) as H3.
  { rewrite step_act by (unfold crashed; by rewrite Hc2).
    unfold caller_step, acquire. by rewrite Hc2, Hmx, Hm. }
  assert (step (Act 0) s3 = Some s4) as H4 by done.
  assert (step (Act 0) s4 = Some s5) as H5 by done.
  pose proof (Inv_step _ _ _ (Inv_step _ _ _ (Inv_step _ _ _ HI2 H3) H4) H5) as HI5.
  assert (existsb joinable (drop (Z.to_nat n) (_threads s5)) = false) as Hnj.
  { destruct HI5 as (_ & _ & _ & _ & (Hh & _) & _).
    apply existsb_false_all. intros j h L. rewrite lookup_drop in L.
    pose proof (Hh _ _ L) as Hs5. simpl in Hs5.
    destruct (decide _) as [|_]; [lia | by subst]. }
  pose (s6 := set_caller CIdle
                (set_flags (resize (Z.to_nat n) None (_threadsStopFlags s5))
                   (set_threads (resize (Z.to_nat n) Null (_threads s5)) s5))).
  assert (step (Act 0) s5 = Some s6) as H6.
  { rewrite step_act by done. unfold caller_step. simpl caller.
    cbv beta iota. by rewrite Hnj. }
  pose proof (Inv_step _ _ _ HI5 H6) as HI6.
  exists s6. split_and!.
  - rewrite (exec_cons _ _ _ s0) by done. rewrite acts_add, exec_app, He.
    change (exec (Act 0 :: Act 0 :: Act 0 :: [Act 0]) s2 = Some s6).
    rewrite (exec_cons _ _ _ s3) by done. rewrite (exec_cons _ _ _ s4) by done.
    rewrite (exec_cons _ _ _ s5) by done. by rewrite (exec_cons _ _ _ s6).
  - done.
  - unfold ThreadsCount, s6. simpl. rewrite length_resize.
    rewrite wrap_uint_small; lia.
  - intros j Hj. unfold s6. simpl. rewrite lookup_resize; [by apply Hlo | done |].
    rewrite Hl2. lia.
  - destruct HI6 as (_ & _ & _ & (_ & _ & _ & Hcnt) & (Hh & _) & _).
    rewrite Hcnt. rewrite count_if_all.
    + unfold s6. simpl. by rewrite length_resize.
    + intros j h L. by apply Hh in L.
  - unfold s6, s5, s4. simpl. apply waiting_after_notify_all.
  - done.
  - done.
Qed.

Lemma Init_shrinks_witness :
  ∃ s', exec (Call (OpInit 1) ::
              acts (Z.to_nat (ThreadsCount two_parked - 1) + 1 + 4)) two_parked = Some s' ∧
        caller s' = CIdle ∧ ThreadsCount s' = 1%Z ∧
        (∀ j, j < Z.to_nat 1 → _threads s' !! j = _threads two_parked !! j) ∧
        count_if is_attached (os_threads s') = Z.to_nat 1 ∧
        waiting_workers s' = 0 ∧
        _tasks s' = _tasks two_parked ∧
        _idleThreadsCount s' = _idleThreadsCount two_parked.
Proof.
  apply (Init_shrinks two_parked 1).
  - exists (construct 2 ++ runs_of 0 6 ++ runs_of 1 6). reflexivity.
  - reflexivity.
  - reflexivity.
  - vm_compute. split; [discriminate | reflexivity].
  - reflexivity.
Defined.

(** ** Notifications *)

Lemma waiting_goto s τ w pc :
  os_threads s !! τ = Some w →
  waiting_workers (goto τ w pc s) + (if is_waiting w then 1 else 0) =
  waiting_workers s + (match pc with WWaiting => 1 | _ => 0 end).
Proof.
  intros L. unfold waiting_workers, goto. simpl.
  rewrite (count_if_insert is_waiting _ _ _ _ L). unfold is_waiting at 3. simpl.
  by destruct pc.
Qed.

Lemma waiting_insert l τ w w' :
  l !! τ = Some w → w_pc w' = w_pc w →
  count_if is_waiting (<[τ := w']> l) = count_if is_waiting l.
Proof.
  intros L Hpc. pose proof (count_if_insert is_waiting _ _ _ w' L) as Hcnt.
  assert (is_waiting w' = is_waiting w) as Hw by (unfold is_waiting; by rewrite Hpc).
  rewrite Hw in Hcnt. lia.
Qed.

Lemma caller_step_wakes k s s' :
  step (Act k) s = Some s' →
  waiting_workers s' = wakes (caller s) (waiting_workers s).
Proof.
  intros H. step_inv H; unfold wakes; simpl; try done.
  all: rewrite ?E0, ?E1.
  all: try (apply waiting_after_notify_all).
  all: try (unfold delete_task, waiting_workers; simpl; done).
  all: try (match goal with E : existsb is_waiting _ = false |- _ =>
              unfold waiting_workers; simpl; by rewrite (count_if_zero _ _ E) end).
  all: unfold waiting_workers; simpl.
  all: try (rewrite count_if_app; simpl; lia).
  - pose proof (waiting_goto s k w WWoken E2) as Hcnt.
    unfold waiting_workers, goto in Hcnt. simpl in Hcnt. rewrite E3 in Hcnt. lia.
  - apply waiting_insert with w; [done | simpl; congruence].
  - by apply waiting_insert with w.
Qed.

(** A step of the caller changes the number of sleeping threads only
    where it notifies: [notify_one] in [Enqueue] wakes one thread if one
    sleeps, [notify_all] in [Stop] and [Init] wakes them all. *)
Theorem caller_wakes_by_notifying k s s' :
  step (Act k) s = Some s' →
  waiting_workers s' = wakes (caller s) (waiting_workers s).
Proof. apply caller_step_wakes. Qed.

Lemma notifying_reachable : reachable notifying.
Proof.
  exists (construct 1 ++ runs_of 0 6 ++ [Call (OpEnqueue ok_task); Act 0]).
  reflexivity.
Qed.

Lemma caller_wakes_by_notifying_witness :
  waiting_workers notified = wakes (caller notifying) (waiting_workers notifying).
Proof.
  apply (caller_wakes_by_notifying 0 notifying notified).
  vm_compute. reflexivity.
Defined.

(** ** The idle counter of a running pool *)

Lemma count_if_ext {A} (f g : A → bool) l :
  (∀ i x, l !! i = Some x → f x = g x) → count_if f l = count_if g l.
Proof.
  induction l as [|y l IH]; intros H; simpl; [done|].
  rewrite (H 0 y) by done. rewrite IH; [done|].
  intros i x L. by apply (H (S i)).
Qed.

(** When every worker of a running pool sleeps, the idle counter has
    reached [ThreadsCount()]. *)
Theorem all_parked_idle_count s :
  reachable s → caller s = CIdle →
  _doneFlag s || _stopFlag s = false →
  (Z.of_nat (length (os_threads s)) < 2 ^ 31)%Z →
  count_if live_detached (os_threads s) = 0 →
  (∀ τ w, os_threads s !! τ = Some w → w_pc w = WWaiting ∨ w_pc w = WExit) →
  IdleThreadsCount s = ThreadsCount s.
Proof.
  intros Hr Hc Hg Hlen Hdet Hq.
  pose proof (ThreadsCount_reachable s Hr) as HT.
  apply reachable_Inv in Hr as
    (_ & _ & Hid & (_ & _ & H5 & Hcnt) & (Hh & _) & (_ & _ & F3 & _ & F5 & _) & _).
  apply orb_false_iff in Hg as (Hd & Hs).
  unfold IdleThreadsCount. rewrite (Hid Hlen), HT. f_equal.
  unfold idle_workers.
  rewrite (count_if_ext idle_worker is_attached).
  - rewrite Hcnt. apply count_if_all. intros j h L.
    apply Hh in L. by rewrite Hc in L.
  - intros τ w L. unfold idle_worker, is_attached.
    pose proof (count_if_none _ _ _ _ Hdet L) as Hl. unfold live_detached in Hl.
    destruct (w_status w) eqn:Est.
    + destruct (Hq _ _ L) as [-> | Hx]; [done|].
      destruct (F5 _ _ L) as [? | Hfs]; [by rewrite Hx | congruence |].
      pose proof (F3 _ _ L Est Hfs). congruence.
    + by destruct (w_pc w).
    + by rewrite (H5 _ _ L Est).
Qed.

Lemma all_parked_idle_count_witness :
  IdleThreadsCount two_parked = ThreadsCount two_parked.
Proof.
  apply (all_parked_idle_count two_parked).
  - exists (construct 2 ++ runs_of 0 6 ++ runs_of 1 6). reflexivity.
  - reflexivity.
  - reflexivity.
  - vm_compute. reflexivity.
  - reflexivity.
  - intros [|[|τ]] w L; vm_compute in L; simplify_eq; by left.
Defined.

(** ** A pool whose size is fixed by its constructor *)

Lemma never_shrunk_step l s s' :
  not_init l = true → never_shrunk s → step l s = Some s' → never_shrunk s'.
Proof.
  intros Hl (Hc & Hd) H. unfold never_shrunk.
  step_inv H; unfold goto, unlock, delete_task; simpl; try done.
  all: rewrite ?E0, ?E1 in Hc; simpl in Hc; try done.
  all: split; [by rewrite ?E0, ?E1 | intros τ' w' L'].
  all: lookups; simplify_eq/=; rewrite ?w_status_wake; eauto.
Qed.

Lemma never_shrunk_exec ls s s' :
  forallb not_init ls = true → never_shrunk s → exec ls s = Some s' →
  never_shrunk s'.
Proof.
  revert s. induction ls as [|l ls IH]; intros s Hl Hn H; simpl in *.
  - by simplify_eq.
  - apply andb_true_iff in Hl as (Hl1 & Hl).
    destruct (step l s) as [s1|] eqn:E; [|done]. simpl in H.
    apply (IH s1); [done | by eapply never_shrunk_step | done].
Qed.

(** [Init] is private and the constructors call it once, on the empty
    pool.  In the executions of such a pool no thread is ever detached,
    and the idle counter stays within [0, ThreadsCount()]. *)
Theorem constructed_pool_idle_bounds n ls s :
  exec (Call (OpInit n) :: ls) empty_pool = Some s →
  forallb not_init ls = true →
  (Z.of_nat (length (os_threads s)) < 2 ^ 31)%Z →
  (∀ τ w, os_threads s !! τ = Some w → w_status w ≠ Detached) ∧
  (0 ≤ IdleThreadsCount s ≤ ThreadsCount s)%Z.
Proof.
  intros H Hl Hlen.
  assert (reachable s) as Hr by by exists (Call (OpInit n) :: ls).
  simpl in H. destruct (step (Call (OpInit n)) empty_pool) as [s0|] eqn:E; [|done].
  simpl in H.
  assert (never_shrunk s0) as Hn0.
  { unfold step, call in E. simpl in E.
    destruct (decide (0 ≤ n < 2 ^ 32)%Z) as [Hn|]; [|done].
    unfold Init in E. simpl in E. change (ThreadsCount empty_pool) with 0%Z in E.
    destruct n as [|p|p]; [| |lia]; simpl in E; simplify_eq.
    all: split; [done | intros τ w L; done]. }
  destruct (never_shrunk_exec _ _ _ Hl Hn0 H) as (_ & Hd).
  split; [done|].
  pose proof (ThreadsCount_reachable s Hr) as HT.
  apply reachable_Inv in Hr as (_ & _ & Hid & (_ & _ & H5 & Hcnt) & _).
  unfold IdleThreadsCount. rewrite (Hid Hlen), HT.
  assert (idle_workers s ≤ count_if is_attached (os_threads s) + 0) as Hle.
  { rewrite <- (count_if_zero (λ _, false) (os_threads s)).
    - apply count_if_sum. intros w Hin Hidle. left.
      apply list_elem_of_lookup in Hin as (τ & L).
      unfold idle_worker in Hidle. unfold is_attached.
      destruct (w_status w) eqn:Est; [done | by destruct (Hd _ _ L) |].
      rewrite (H5 _ _ L Est) in Hidle. done.
    - by apply existsb_false_all. }
  pose proof (count_joinable_le (_threads s)). lia.
Qed.

Lemma constructed_pool_idle_bounds_witness :
  (∀ τ w, os_threads two_parked !! τ = Some w → w_status w ≠ Detached) ∧
  (0 ≤ IdleThreadsCount two_parked ≤ ThreadsCount two_parked)%Z.
Proof.
  apply (constructed_pool_idle_bounds 2 (acts 3 ++ runs_of 0 6 ++ runs_of 1 6)).
  - vm_compute. reflexivity.
  - reflexivity.
  - vm_compute. reflexivity.
Defined.

(** ** After [Stop] *)

Lemma pool_flags_exec ls s s' :
  exec ls s = Some s' →
  _doneFlag s || _stopFlag s = true → _doneFlag s' || _stopFlag s' = true.
Proof.
  revert s. induction ls as [|l ls IH]; intros s H Hf; simpl in H.
  - by simplify_eq.
  - destruct (step l s) as [s1|] eqn:E; [|done]. simpl in H.
    apply (IH s1 H). destruct (pool_flags_mono _ _ _ E) as (Hd & Hs).
    apply orb_true_iff in Hf as [Hf | Hf]; apply orb_true_iff; eauto.
Qed.

Lemma stopped_step l s s' :
  Inv s → stopped s →
  (∀ τ w, os_threads s !! τ = Some w → awaited w = true → w_pc w = WExit) →
  step l s = Some s' →
  stopped s' ∧ length (os_threads s') = length (os_threads s) ∧
  (∀ τ w, os_threads s' !! τ = Some w → awaited w = true → w_pc w = WExit).
Proof.
  intros ((_ & _ & _ & _ & Hp) & _) (Hf & Ht & Hfl & Hc) Hex H.
  unfold stopped.
  step_inv H; unfold goto, unlock, delete_task; simpl.
  all: rewrite ?E0, ?E1 in *; simpl in Hc; try done.
  all: try (rewrite Ht in *; simpl in *).
  all: try (rewrite orb_comm in Hf; congruence).
  all: bools; try (simpl in Hp; lia).
  all: try (unfold at_index in *; simpl in *;
            repeat match goal with
                   | H : (if ?b then _ else _) = Some _ |- _ => destruct b
                   end; done).
  all: split_and!; try done; norm_len; try done.
  all: try (by rewrite ?E0, ?E1).
  all: try (by destruct (_doneFlag s); destruct (_stopFlag s)).
  all: try (intros τ' w' L' Ha'; lookups; simplify_eq/=;
            unfold awaited in *; rewrite ?w_status_wake in *;
            try (apply w_pc_wake_exit); eauto;
            match goal with L : os_threads _ !! _ = Some ?w |- _ =>
              pose proof (Hex _ _ L Ha'); pcs; congruence end).
  - rewrite E4. by destruct (_doneFlag s').
  - unfold ThreadsCount in E2. rewrite Ht in E2.
    change (wrap_uint (Z.of_nat (length (@nil thandle)))) with 0%Z in E2. lia.
Qed.

(** Once a call of [Stop] has returned the pool has no thread and never
    gets one again: whatever is called afterwards, [ThreadsCount()] stays
    0, no thread is started, and the threads that [Stop] joined stay
    returned. *)
Theorem Stop_is_final (b : bool) s0 s1 ls s2 :
  reachable s0 →
  (if b then _doneFlag s0 || _stopFlag s0 else _stopFlag s0) = false →
  returns_from b s0 s1 →
  exec ls s1 = Some s2 →
  ThreadsCount s2 = 0%Z ∧
  length (os_threads s2) = length (os_threads s1) ∧
  (∀ τ w, os_threads s2 !! τ = Some w → awaited w = true → w_pc w = WExit).
Proof.
  intros Hr Hg Hret He.
  destruct (Stop_returns b s0 s1 Hr Hg Hret) as (Hr1 & Hq & Ht & Hf & Hex).
  assert (stopped s1) as Hst.
  { destruct Hret as (s0' & ls0 & Hc & Hl & He0 & Hi).
    unfold stopped. rewrite Hi. split_and!; try done.
    apply (pool_flags_exec ls0 s0'); [done|].
    unfold step, call in Hc. destruct (crashed s0); [done|].
    destruct (caller s0); try done. unfold Stop in Hc.
    destruct b; rewrite Hg in Hc; simplify_eq; simpl; [done|].
    by destruct (_doneFlag s0). }
  pose proof (reachable_Inv _ Hr1) as HI. clear Hr Hg Hret Hr1 Hq Ht Hf.
  revert s1 He Hex Hst HI.
  induction ls as [|l ls IH]; intros s1 He Hex Hst HI; simpl in He.
  - simplify_eq. destruct Hst as (_ & Ht & _).
    unfold ThreadsCount. by rewrite Ht.
  - destruct (step l s1) as [s|] eqn:E; [|done]. simpl in He.
    destruct (stopped_step _ _ _ HI Hst Hex E) as (Hst' & Hlen & Hex').
    destruct (IH s He Hex' Hst' (Inv_step _ _ _ HI E)) as (? & ? & ?).
    split_and!; try done. congruence.
Qed.

Lemma Stop_is_final_witness :
  ThreadsCount aborted_with_task = 0%Z ∧
  length (os_threads aborted_with_task) = length (os_threads aborted_pool) ∧
  (∀ τ w, os_threads aborted_with_task !! τ = Some w → awaited w = true →
          w_pc w = WExit).
Proof.
  apply (Stop_is_final false parked aborted_pool (enqueue ok_task)).
  - exists (construct 1 ++ runs_of 0 6). reflexivity.
  - reflexivity.
  - eexists _, (acts 6 ++ runs_of 0 6 ++ acts 4).
    split_and!; [reflexivity | reflexivity | | reflexivity].
    vm_compute. reflexivity.
  - vm_compute. reflexivity.
Defined.

(** ** No lost wakeup *)

Lemma detached_awake_empty : detached_awake empty_pool.
Proof. intros τ w L. done. Qed.

Lemma detached_awake_step l s s' :
  flags_inv s → detached_awake s → step l s = Some s' → detached_awake s'.
Proof.
  intros (_ & F2 & _) Hd H. unfold detached_awake in *.
  step_inv H; unfold goto, unlock, delete_task; simpl; try done.
  all: rewrite ?E0, ?E1 in *; simpl; try done.
  all: try match goal with |- match caller ?s with _ => _ end =>
             destruct (caller s); try done end.
  all: intros τ' w' L' Hs'; lookups; simplify_eq/=;
       rewrite ?w_status_wake in *; try done.
  all: try (by apply w_pc_wake_waiting).
  all: try (eapply Hd; by eauto).
  all: try (match goal with L : os_threads _ !! _ = Some ?w |- _ =>
              pose proof (Hd _ _ L Hs'); pcs; congruence end).
  all: match goal with L : os_threads _ !! _ = Some ?w |- _ =>
         pose proof (F2 _ _ L Hs') as Hfs; unfold flag_set in Hfs; congruence
       end.
Qed.

Lemma will_pop_awake pc :
  holds_lock pc = false → leaving pc = false → pc ≠ WWaiting → will_pop pc = true.
Proof. by destruct pc as [| | | | | | | | | | |[]|[]|]. Qed.

Lemma will_pop_wake w :
  will_pop (w_pc w) = true ∨ w_pc w = WWaiting → will_pop (w_pc (wake w)) = true.
Proof. unfold wake, is_waiting. destruct w as [? ? [] ?]; simpl; naive_solver. Qed.

(** What a step of a worker does to the table of threads. *)
Lemma worker_step_threads τ0 s s' :
  worker_step τ0 s = Some s' →
  ∃ w pc, os_threads s !! τ0 = Some w ∧
          os_threads s' =
            <[τ0 := MkWorker (w_index w) (w_stop w) pc (w_status w)]> (os_threads s) ∧
          (will_pop (w_pc w) = true → _tasks s ≠ [] →
           stop_heap s !! w_stop w ≠ Some true → will_pop pc = true).
Proof.
  intros H. unfold worker_step, acquire in H. simpl in H.
  repeat case_step H; unfold goto, unlock, delete_task; simpl; pops.
  all: eexists _, _; split_and!; [done | done |].
  all: pcs; simpl; try done; congruence.
Qed.

(** A thread of the pool is not about to return as long as no flag is
    set. *)
Lemma attached_stays s τ w :
  flags_inv s → _doneFlag s || _stopFlag s = false →
  os_threads s !! τ = Some w → w_status w = Attached →
  leaving (w_pc w) = false ∧ stop_heap s !! w_stop w ≠ Some true.
Proof.
  intros (_ & _ & F3 & _ & F5 & _) Hg L Hs.
  apply orb_false_iff in Hg as (Hd & Hst).
  assert (stop_heap s !! w_stop w ≠ Some true) as Hns.
  { intros Hfs. pose proof (F3 _ _ L Hs Hfs). congruence. }
  split; [|done]. destruct (leaving (w_pc w)) eqn:El; [|done].
  destruct (F5 _ _ L El) as [? | ?]; [congruence | done].
Qed.

Lemma wakeup_inv_empty : wakeup_inv empty_pool.
Proof. intros _ _ Hq. done. Qed.

Lemma wakeup_step l s s' :
  Inv s → detached_awake s → wakeup_inv s → step l s = Some s' → wakeup_inv s'.
Proof.
  intros HI Hda HW H. intros Hg' Hn' Hq' (τa & wa' & La' & Hsa').
  destruct (pool_flags_mono _ _ _ H) as (Hd & Hs).
  assert (_doneFlag s || _stopFlag s = false) as Hg.
  { apply orb_false_iff in Hg' as (Hgd & Hgs).
    destruct (_doneFlag s); [rewrite Hd in Hgd by done; done|].
    destruct (_stopFlag s); [rewrite Hs in Hgs by done; done | done]. }
  pose proof HI as (_ & (Lw & _ & Lc) & _ & (_ & _ & H5 & _) & _ & Hfl & _).
  destruct l as [o | k | τ0 | τ0].
  - (* a call *)
    step_inv H; simpl in *; try done.
    all: try (by apply HW; eauto).
    all: try (rewrite ?orb_true_r in Hg'; done).
    destruct HW as (τ & w & ? & ? & ?); [done | by rewrite E0 | done | by eauto |].
    by exists τ, w.
  - (* the caller *)
    assert (∀ τ w, os_threads s !! τ = Some w → w_status w = Attached →
              caller_holds_lock (caller s) = true →
              will_pop (w_pc w) = true ∨ w_pc w = WWaiting) as Hheld.
    { intros τ w L Hst Hcl. apply Lc in Hcl.
      destruct (attached_stays s τ w Hfl Hg L Hst) as (Hlv & _).
      destruct (w_pc w) eqn:Epc; try (by right); left.
      all: apply will_pop_awake; try done.
      all: destruct (holds_lock (w_pc w)) eqn:Eh; rewrite Epc in Eh; try done.
      all: rewrite <- Epc in Eh; apply (Lw _ _ L) in Eh; congruence. }
    destruct Hfl as (_ & _ & _ & _ & _ & F6).
    unfold wakeup_inv, detached_awake in *.
    step_inv H; simpl in *; try done.
    all: rewrite ?E0, ?E1 in *; simpl in *; try done.
    all: try (rewrite Hg in F6; done).
    all: try (apply orb_false_iff in Hg as (? & ?); congruence).
    all: try (destruct HW as (τ & w' & ? & ? & ?); [done | done | done | by eauto |];
              by exists τ, w').
    + (* notify_one wakes the thread picked *)
      exists k. eexists. split_and!.
      * apply list_lookup_insert_eq. by eapply lookup_lt_Some.
      * simpl.
        match goal with
          Ew : is_waiting ?w = true, Lk : os_threads _ !! k = Some ?w |- _ =>
            apply is_waiting_pc in Ew;
            destruct (w_status w) eqn:Est; [done | by destruct (Hda _ _ Lk Est) |];
            pose proof (H5 _ _ Lk Est); congruence
        end.
      * done.
    + (* no thread sleeps *)
      exists τa, wa'. split_and!; try done.
      destruct (Hheld _ _ La' Hsa' eq_refl) as [? | Hwt]; [done|].
      match goal with Ex : existsb is_waiting _ = false |- _ =>
        pose proof (existsb_false_lookup _ _ _ _ Ex La') as Hnw end.
      apply is_waiting_pc in Hwt. congruence.
    + (* a thread is started *)
      exists (length (os_threads s)). eexists. split_and!.
      * simpl. rewrite lookup_app_r by done. by rewrite Nat.sub_diag.
      * done.
      * done.
    + (* notify_all *)
      apply list_lookup_fmap_Some in La' as (wa & -> & La).
      rewrite w_status_wake in Hsa'.
      exists τa, (wake wa). split_and!.
      * simpl. by rewrite list_lookup_fmap, La.
      * by rewrite w_status_wake.
      * apply will_pop_wake. by apply (Hheld _ _ La Hsa').
  - (* a worker *)
    unfold step in H. destruct (crashed s); [done|].
    pose proof (worker_step_frame _ _ _ H) as (Ec & _ & _ & _ & _ & _ & Eq).
    apply worker_step_threads in H as (w0 & pc & L0 & Eo & Hpop).
    rewrite Ec in Hn'.
    assert (_tasks s ≠ []) as Hq by (destruct Eq as [<- | (t & ->)]; done).
    destruct HW as (τ & w & L & Hst & Hwp); [done | done | done | |].
    { rewrite Eo in La'. lookup_as La' K; simplify_eq/=; eauto. }
    destruct (decide (τ = τ0)) as [-> | Hne].
    + assert (w = w0) as -> by congruence.
      exists τ0. eexists. rewrite Eo. split_and!.
      * apply list_lookup_insert_eq. by eapply lookup_lt_Some.
      * done.
      * simpl. apply Hpop; [done | done |].
        by apply (attached_stays s τ0 w0).
    + exists τ, w. rewrite Eo. by rewrite list_lookup_insert_ne.
  - (* a spurious wakeup *)
    unfold step in H. destruct (crashed s); [done|].
    apply spurious_wakeup_frame in H as (w0 & L0 & Hpc0 & ->).
    unfold goto in *. simpl in *.
    destruct HW as (τ & w & L & Hst & Hwp); [done | done | done | |].
    { lookup_as La' K; simplify_eq/=; eauto. }
    exists τ, w. split_and!; try done. simpl.
    rewrite list_lookup_insert_ne; [done|]. intros ->. simplify_eq.
    by rewrite Hpc0 in Hwp.
Qed.

Lemma wakeup_reachable s : reachable s → detached_awake s ∧ wakeup_inv s.
Proof.
  intros (ls & H). revert H.
  assert (Inv empty_pool ∧ detached_awake empty_pool ∧ wakeup_inv empty_pool) as Hi.
  { split_and!; [apply Inv_empty | apply detached_awake_empty | apply wakeup_inv_empty]. }
  revert Hi. generalize empty_pool.
  induction ls as [|l ls IH]; intros s0 (Hi & Hd & Hw) H; simpl in H.
  - by simplify_eq.
  - destruct (step l s0) as [s1|] eqn:E; [|done]. simpl in H.
    apply (IH s1); [|done]. split_and!.
    + by eapply Inv_step.
    + destruct Hi as (_ & _ & _ & _ & _ & Hf & _). by eapply detached_awake_step.
    + by eapply wakeup_step.
Qed.

(** No wakeup is lost.  In a running pool with at least one thread, when
    the caller is between two calls and the queue is not empty, a thread
    of the pool is awake and on its way to [PopTask]: it is never the
    case that tasks are queued while every thread of the pool sleeps. *)
Theorem no_lost_wakeup s :
  reachable s → _doneFlag s || _stopFlag s = false → caller s = CIdle →
  _tasks s ≠ [] → (0 < ThreadsCount s)%Z →
  ∃ τ w, os_threads s !! τ = Some w ∧ w_status w = Attached ∧
         will_pop (w_pc w) = true ∧ w_pc w ≠ WWaiting ∧ w_pc w ≠ WExit.
Proof.
  intros Hr Hg Hc Hq Hn.
  destruct (wakeup_reachable s Hr) as (_ & HW).
  rewrite (ThreadsCount_reachable s Hr) in Hn.
  apply reachable_Inv in Hr as (_ & _ & _ & (H1 & _) & (Hh & _) & _).
  destruct (lookup_lt_is_Some_2 (_threads s) 0) as (h & Lh); [lia|].
  pose proof (Hh _ _ Lh) as Hj. rewrite Hc in Hj. simpl in Hj.
  destruct h as [|τ0|]; try done.
  destruct (H1 _ _ Lh) as (w0 & L0 & _ & Hs0 & _).
  destruct HW as (τ & w & L & Hs & Hp); [done | by rewrite Hc | done | by eauto |].
  exists τ, w. split_and!; try done; intros E; by rewrite E in Hp.
Qed.

Lemma no_lost_wakeup_witness :
  ∃ τ w, os_threads backlog !! τ = Some w ∧ w_status w = Attached ∧
         will_pop (w_pc w) = true ∧ w_pc w ≠ WWaiting ∧ w_pc w ≠ WExit.
Proof.
  apply (no_lost_wakeup backlog).
  - exists (construct 2 ++ enqueue ok_task ++ enqueue ok_task ++
            runs_of 0 2 ++ runs_of 1 2 ++ enqueue ok_task).
    reflexivity.
  - reflexivity.
  - reflexivity.
  - discriminate.
  - vm_compute. reflexivity.
Defined.

(** ** Memory safety *)

Lemma crash_step l s s' :
  reachable s → step l s = Some s' → crashed s' = true →
  ∃ i, caller s = CInitShrink i 0.
Proof.
  intros Hr H Hcr.
  apply reachable_Inv in Hr as
    ((Hw & Hf & Hlen & Hb & Hp) & _ & _ & (H1 & _) & (Hh & Hfl) & _).
  pose proof (ThreadsCount_length s Hb) as HT.
  step_inv H; unfold goto, unlock, delete_task in Hcr; simpl in Hcr; try done.
  all: try (unfold crashed in *; simpl in *; congruence).
  all: try (unfold crashed in *; simpl in *; rewrite ?E0, ?E1 in *; congruence).
  all: rewrite ?E0, ?E1 in *; simpl in *.
  all: bools; rewrite ?HT in *.
  all: try match goal with |- ∃ _, CInitShrink _ ?n = _ =>
             destruct (decide (n = 0%Z)) as [-> | Hn0]; [by eexists|] end.
  all: exfalso.
  all: try (assert (wrap_uint (i + 1) = (i + 1)%Z) as Hwr by wrap_lia;
            rewrite Hwr in *).
  all: try (match goal with E : at_index _ _ = None |- _ =>
              apply at_index_None in E end; lia).
  all: lookups.
  all: try (match goal with L : _threadsStopFlags _ !! _ = Some (Some _) |- _ =>
              apply Hf in L end; done).
  all: try (match goal with L : _threadsStopFlags _ !! _ = Some None |- _ =>
              apply Hfl in L; by destruct L end).
  all: try (match goal with L : _threads _ !! _ = Some _ |- _ =>
              pose proof (Hh _ _ L) as Hsh; simpl in Hsh;
              repeat case_decide; try lia; done end).
  all: try (match goal with L : _threads _ !! _ = Some (Joinable _) |- _ =>
              destruct (H1 _ _ L) as (wj & Lwj & _ & _ & Lfj); congruence end).
  all: try (match goal with E : existsb joinable _ = true |- _ =>
              apply existsb_exists in E as (h & Hin & Hj);
              apply list_elem_of_In, list_elem_of_lookup in Hin as (j & Hin) end).
  all: rewrite ?lookup_drop in Hin; apply Hh in Hin; simpl in Hin.
  - by subst.
  - case_decide; [lia | by subst].
Qed.

(** The caller's accesses [_threads[i]] and [_threadsStopFlags[i]], the
    dereferences of their elements and the destruction of joinable
    handles, which are the steps that lead to [CCrashed], are all within
    bounds and defined, except in the loop of [Init] that shrinks the pool
    to no thread at all.  (The lifetime of the pool object, which a
    detached thread may outlive, is not part of the model.) *)
Theorem crash_only_from_shrink_to_zero l s s' :
  reachable s → step l s = Some s' → crashed s' = true →
  ∃ i, caller s = CInitShrink i 0.
Proof. apply crash_step. Qed.

Lemma crash_only_from_shrink_to_zero_witness :
  ∃ i, caller (after (construct 1 ++ [Call (OpInit 0)] ++ acts 1)) =
       CInitShrink i 0.
Proof.
  apply (crash_only_from_shrink_to_zero (Act 0) _
           (after (construct 1 ++ [Call (OpInit 0)] ++ acts 2))).
  - exists (construct 1 ++ [Call (OpInit 0)] ++ acts 1). vm_compute. reflexivity.
  - vm_compute. reflexivity.
  - reflexivity.
Defined.

(** A pool whose [Init] is called by the constructor only never runs into
    undefined behaviour. *)
Theorem constructed_pool_never_crashes n ls s :
  exec (Call (OpInit n) :: ls) empty_pool = Some s →
  forallb not_init ls = true →
  crashed s = false.
Proof.
  intros H Hl.
  assert (crashed empty_pool = false ∧ never_shrunk empty_pool ∧ reachable empty_pool) as H0.
  { split_and!; [done | by split | by exists []]. }
  assert (∀ l s1 s2, crashed s1 = false ∧ never_shrunk s1 ∧ reachable s1 →
            (not_init l = true ∨ s1 = empty_pool) →
            step l s1 = Some s2 →
            crashed s2 = false ∧ never_shrunk s2 ∧ reachable s2) as Hstep.
  { intros l s1 s2 (Hc1 & Hn1 & Hr1) Hl1 Hs. split_and!.
    - destruct (crashed s2) eqn:Ec; [|done].
      destruct (crash_step _ _ _ Hr1 Hs Ec) as (i & Hi).
      destruct Hn1 as (Hn1 & _). by rewrite Hi in Hn1.
    - destruct Hl1 as [Hl1 | ->]; [by eapply never_shrunk_step|].
      unfold step, call in Hs. simpl in Hs.
      destruct l as [[m| |]| | |]; simpl in Hs; try done.
      + destruct (decide (0 ≤ m < 2 ^ 32)%Z) as [Hm|]; [|done].
        unfold Init in Hs. simpl in Hs.
        destruct m as [|p|p]; [| |lia]; simpl in Hs; simplify_eq.
        all: split; [done | intros τ w L; done].
      + simplify_eq. split; [done | intros τ w L; done].
      + unfold Stop in Hs. destruct waitForThreads; simpl in Hs; simplify_eq.
        all: split; [done | intros τ w L; done].
    - eapply (reachable_exec [l]); [done | cbn [exec]; rewrite Hs; reflexivity]. }
  simpl in H. destruct (step (Call (OpInit n)) empty_pool) as [s0|] eqn:E; [|done].
  simpl in H. pose proof (Hstep _ _ _ H0 (or_intror eq_refl) E) as H1.
  clear H0 E. revert s0 H H1.
  induction ls as [|l ls IH]; intros s0 H H1; simpl in H.
  - simplify_eq. by destruct H1.
  - apply andb_true_iff in Hl as (Hl1 & Hl).
    destruct (step l s0) as [s1|] eqn:E; [|done]. simpl in H.
    apply (IH Hl s1 H). by apply (Hstep l s0 s1 H1 (or_introl Hl1)).
Qed.

Lemma constructed_pool_never_crashes_witness :
  crashed aborted = false.
Proof.
  apply (constructed_pool_never_crashes 1
           (acts 2 ++ enqueue ok_task ++ [Run 0] ++ enqueue ok_task ++
            [Call (OpStop false)] ++ abort_trace)).
  - vm_compute. reflexivity.
  - reflexivity.
Defined.

(** ** Workers and their tasks *)

(** A task is run with the index of the thread that runs it: after the
    invocation of line 175 the shared state holds what the callable gives
    for the index that the thread captured, and the unit has run once and
    is not deleted yet.  For a thread of the pool this index is the
    position of its handle in [_threads]. *)
Theorem task_runs_with_thread_index s τ w t :
  reachable s → os_threads s !! τ = Some w →
  holds_task (w_pc w) = Some t → has_run (w_pc w) = true →
  (∃ u, task_heap s !! t = Some u ∧ runs u = 1 ∧ frees u = 0 ∧
        future u = Ready (callable u (w_index w))) ∧
  (w_status w = Attached →
   (0 ≤ w_index w)%Z ∧ _threads s !! Z.to_nat (w_index w) = Some (Joinable τ)).
Proof.
  intros Hr L Hh Hrun.
  apply reachable_Inv in Hr as (_ & _ & _ & (_ & H2 & _) & _ & _ & (_ & _ & T3 & _) & _).
  split; [|by apply H2].
  destruct (T3 _ _ _ L Hh) as (_ & u & Lu & Hf & Hx). rewrite Hrun in Hx.
  destruct Hx as (Hr1 & Hfu). by exists u.
Qed.

Lemma task_runs_with_thread_index_witness :
  (∃ u, task_heap backlog !! 1 = Some u ∧ runs u = 1 ∧ frees u = 0 ∧
        future u = Ready (callable u 1)) ∧
  (Attached = Attached →
   (0 ≤ 1)%Z ∧ _threads backlog !! Z.to_nat 1 = Some (Joinable 1)).
Proof.
  apply (task_runs_with_thread_index backlog 1 (MkWorker 1 1 (WCheck 1) Attached) 1).
  - exists (construct 2 ++ enqueue ok_task ++ enqueue ok_task ++
            runs_of 0 2 ++ runs_of 1 2 ++ enqueue ok_task).
    reflexivity.
  - reflexivity.
  - reflexivity.
  - reflexivity.
Defined.

(** A worker gives up the queue only when it found it empty: from the
    failed [PopTask] in the predicate of [wait] until the worker sleeps
    or returns, the queue is empty, unless [Enqueue] has pushed a task
    and is waiting for [_threadsMutex] to notify. *)
Theorem sleep_only_on_empty_queue s τ w :
  reachable s → os_threads s !! τ = Some w → pred_failed (w_pc w) = true →
  _tasks s = [] ∨ (caller s = CEnqLock ∧ _threadsMutex s = Some (Worker τ)).
Proof.
  intros Hr L Hp.
  apply reachable_Inv in Hr as (_ & (Lw & _) & _ & _ & _ & _ & _ & Hwait & _).
  destruct (Hwait _ _ L Hp) as [? | ?]; [by left | right].
  split; [done|]. apply (Lw _ _ L). by apply pred_failed_holds.
Qed.

Lemma sleep_only_on_empty_queue_witness :
  _tasks (after (construct 1 ++ runs_of 0 4)) = [] ∨
  (caller (after (construct 1 ++ runs_of 0 4)) = CEnqLock ∧
   _threadsMutex (after (construct 1 ++ runs_of 0 4)) = Some (Worker 0)).
Proof.
  apply (sleep_only_on_empty_queue _ 0 (MkWorker 0 0 WPredDone Attached)).
  - exists (construct 1 ++ runs_of 0 4). vm_compute. reflexivity.
  - reflexivity.
  - reflexivity.
Defined.

(** After the [notify_all] of [Stop] no thread sleeps in [wait] any more:
    the joins of lines 77-83 do not wait for a sleeping thread. *)
Theorem no_sleeper_during_join s τ w :
  reachable s → post_notify (caller s) = true → os_threads s !! τ = Some w →
  w_pc w ≠ WWaiting.
Proof.
  intros Hr Hp L.
  apply reachable_Inv in Hr as (_ & _ & _ & _ & _ & _ & _ & _ & (_ & SB)).
  by apply (SB Hp _ _ L).
Qed.

Lemma no_sleeper_during_join_witness :
  w_pc (MkWorker 0 0 WWoken Attached) ≠ WWaiting.
Proof.
  apply (no_sleeper_during_join
           (after (construct 1 ++ runs_of 0 6 ++ [Call (OpStop true)] ++ acts 3)) 0).
  - exists (construct 1 ++ runs_of 0 6 ++ [Call (OpStop true)] ++ acts 3).
    vm_compute. reflexivity.
  - reflexivity.
  - reflexivity.
Defined.

(** ** [Enqueue] *)

(** [Enqueue], run on its own while [_threadsMutex] is free, returns
    after its push and its notification: the new unit is at the back of
    the queue, untouched, its handle pending; one sleeping thread, if
    there is one, has been woken; the lock is free again. *)
Theorem Enqueue_returns s f k :
  caller s = CIdle → _threadsMutex s = None →
  (existsb is_waiting (os_threads s) = true →
   ∃ w, os_threads s !! k = Some w ∧ is_waiting w = true) →
  ∃ s', exec [Call (OpEnqueue f); Act 0; Act k; Act 0] s = Some s' ∧
        caller s' = CIdle ∧
        _tasks s' = _tasks s ++ [length (task_heap s)] ∧
        task_heap s' = task_heap s ++ [new_task f] ∧
        handle_of s' (length (task_heap s)) = Some Pending ∧
        waiting_workers s' = pred (waiting_workers s) ∧
        _threadsMutex s' = None.
Proof.
  intros Hc Hm Hk.
  pose (s1 := Enqueue f s).
  pose (s2 := set_caller CEnqNotify (set_mutex (Some Caller) s1)).
  assert (step (Call (OpEnqueue f)) s = Some s1) as H1.
  { rewrite step_call by done. unfold call. by rewrite Hc. }
  assert (step (Act 0) s1 = Some s2) as H2.
  { rewrite step_act by done. unfold caller_step, acquire. simpl. by rewrite Hm. }
  destruct (step (Act k) s2) as [s3|] eqn:H3.
  2:{ rewrite step_act in H3 by done. unfold caller_step, notify_one in H3.
      simpl in H3. destruct (existsb is_waiting (os_threads s)) eqn:Ew; [|done].
      destruct (Hk eq_refl) as (w & Lw & Hw). rewrite Lw in H3. simpl in H3.
      by rewrite Hw in H3. }
  pose proof (caller_step_wakes _ _ _ H3) as Hcnt.
  rewrite step_act in H3 by done. unfold caller_step, notify_one in H3. simpl in H3.
  assert (caller s3 = CEnqUnlock ∧ _tasks s3 = _tasks s1 ∧
          task_heap s3 = task_heap s1) as (Hc3 & Hq3 & Hh3).
  { destruct (existsb is_waiting (os_threads s)); simpl in H3;
      [|simplify_eq; by split_and!].
    destruct (os_threads s !! k) as [w|]; [|done]. simpl in H3.
    destruct (is_waiting w); simpl in H3; simplify_eq; by split_and!. }
  exists (set_caller CIdle (unlock s3)). split_and!.
  - rewrite (exec_cons _ _ _ s1) by done. rewrite (exec_cons _ _ _ s2) by done.
    rewrite (exec_cons _ _ _ s3).
    + simpl. rewrite step_act by (unfold crashed; by rewrite Hc3).
      unfold caller_step. by rewrite Hc3.
    + rewrite step_act by done. done.
  - done.
  - simpl. by rewrite Hq3.
  - simpl. by rewrite Hh3.
  - unfold handle_of. simpl. rewrite Hh3. simpl.
    rewrite lookup_app_r by done. by rewrite Nat.sub_diag.
  - unfold waiting_workers in *. simpl in *. done.
  - done.
Qed.

Lemma Enqueue_returns_witness :
  ∃ s', exec [Call (OpEnqueue ok_task); Act 0; Act 0; Act 0] parked = Some s' ∧
        caller s' = CIdle ∧
        _tasks s' = _tasks parked ++ [length (task_heap parked)] ∧
        task_heap s' = task_heap parked ++ [new_task ok_task] ∧
        handle_of s' (length (task_heap parked)) = Some Pending ∧
        waiting_workers s' = pred (waiting_workers parked) ∧
        _threadsMutex s' = None.
Proof.
  apply (Enqueue_returns parked ok_task 0).
  - reflexivity.
  - reflexivity.
  - intros _. eexists. split; reflexivity.
Defined.

(** ** After a flag is set *)

Lemma frozen_step l s s' :
  flags_inv s → _doneFlag s || _stopFlag s = true → step l s = Some s' →
  length (os_threads s') = length (os_threads s) ∧
  length (_threads s') ≤ length (_threads s).
Proof.
  intros (_ & _ & _ & _ & _ & F6) Hg H.
  step_inv H; unfold goto, unlock, delete_task; simpl; norm_len; try done.
  all: try lia.
  all: rewrite ?E0, ?E1 in F6; simpl in F6; try congruence.
  all: rewrite orb_comm in Hg; congruence.
Qed.

(** From the moment one of the two flags of the pool is set no thread is
    started and [_threads] does not grow: [Init] returns at its guard. *)
Theorem no_thread_started_after_stop ls s s' :
  reachable s → _doneFlag s || _stopFlag s = true → exec ls s = Some s' →
  length (os_threads s') = length (os_threads s) ∧
  (ThreadsCount s' ≤ ThreadsCount s)%Z.
Proof.
  intros Hr Hg He.
  rewrite (ThreadsCount_reachable s Hr).
  rewrite (ThreadsCount_reachable s' (reachable_exec _ _ _ Hr He)).
  apply reachable_Inv in Hr. revert s Hr Hg He.
  induction ls as [|l ls IH]; intros s HI Hg He; simpl in He.
  - simplify_eq. lia.
  - destruct (step l s) as [s1|] eqn:E; [|done]. simpl in He.
    pose proof HI as (_ & _ & _ & _ & _ & Hf & _).
    destruct (frozen_step _ _ _ Hf Hg E) as (Ho & Ht).
    destruct (IH s1 (Inv_step _ _ _ HI E)) as (Ho' & Ht'); [|done|lia].
    destruct (pool_flags_mono _ _ _ E) as (Hd & Hs).
    apply orb_true_iff in Hg as [Hg | Hg]; apply orb_true_iff; eauto.
Qed.

Lemma no_thread_started_after_stop_witness :
  length (os_threads (after (stop_true_trace ++ [Call (OpInit 4)]))) =
    length (os_threads (after stop_true_trace)) ∧
  (ThreadsCount (after (stop_true_trace ++ [Call (OpInit 4)])) ≤
   ThreadsCount (after stop_true_trace))%Z.
Proof.
  apply (no_thread_started_after_stop [Call (OpInit 4)]).
  - exists stop_true_trace. vm_compute. reflexivity.
  - reflexivity.
  - vm_compute. reflexivity.
Defined.

(** ** The loop of a worker *)

Lemma executed_exec ls s s' t u :
  Inv s → exec ls s = Some s' →
  task_heap s !! t = Some u → executed u → task_heap s' !! t = Some u.
Proof.
  revert s. induction ls as [|l ls IH]; intros s HI H Lu Hx; simpl in H.
  - by simplify_eq.
  - destruct (step l s) as [s1|] eqn:E; [|done]. simpl in H.
    apply (IH s1); [by eapply Inv_step | done | | done].
    destruct HI as (_ & _ & _ & _ & _ & _ & Ht & _). by eapply executed_step.
Qed.

Lemma runs_of_loop τ n :
  runs_of τ (3 * S n) = [Run τ; Run τ; Run τ] ++ runs_of τ (3 * n).
Proof.
  unfold runs_of. replace (3 * S n) with (3 + 3 * n) by lia.
  by rewrite replicate_add.
Qed.

(** The inner loop of lines 172-181, from the invocation of the task in
    hand: the worker runs it, finds its flag unset, pops the next task,
    and so on until the queue is empty. *)
Lemma worker_loop τ q :
  ∀ s t w,
    Inv s → crashed s = false →
    os_threads s !! τ = Some w → w_pc w = WRun t → _tasks s = q →
    stop_heap s !! w_stop w = Some false →
    ∃ s', exec (runs_of τ (3 * S (length q))) s = Some s' ∧
          _tasks s' = [] ∧ pc_of s' τ = Some WLock ∧
          caller s' = caller s ∧
          ∀ t', t' = t ∨ t' ∈ q →
            ∃ u, task_heap s' !! t' = Some u ∧ executed u ∧
                 future u = Ready (callable u (w_index w)).
Proof.
  induction q as [|t2 q IH]; intros s t w HI Hc Lw Hpc Hq Hf.
  all: assert (τ < length (os_threads s)) as Hτ by (by eapply lookup_lt_Some).
  all: pose proof HI as (_ & _ & _ & _ & _ & _ & (_ & _ & T3 & _) & _).
  all: destruct (T3 _ _ t Lw) as (_ & u & Lu & _); [by rewrite Hpc|].
  all: pose (s1 := goto τ w (WCheck t)
                     (set_task_heap (<[t := invoke (w_index w) u]> (task_heap s)) s)).
  all: pose (w1 := MkWorker (w_index w) (w_stop w) (WCheck t) (w_status w)).
  all: pose (s2 := goto τ w1 (WPop t) s1).
  all: pose (w2 := MkWorker (w_index w) (w_stop w) (WPop t) (w_status w)).
  all: assert (step (Run τ) s = Some s1) as H1
         by (rewrite (step_run_eq s τ w) by done; by rewrite Hpc, Lu).
  all: assert (os_threads s1 !! τ = Some w1) as L1
         by (unfold s1, goto; simpl; by apply list_lookup_insert_eq).
  all: assert (step (Run τ) s1 = Some s2) as H2
         by (rewrite (step_run_eq s1 τ w1) by done; simpl;
             change (stop_heap s1) with (stop_heap s); by rewrite Hf).
  all: assert (os_threads s2 !! τ = Some w2) as L2
         by (unfold s2, goto; simpl; apply list_lookup_insert_eq;
             by rewrite length_insert).
  all: pose proof (Inv_step _ _ _ HI H1) as HI1.
  all: pose proof (Inv_step _ _ _ HI1 H2) as HI2.
  all: pose proof HI2 as (_ & _ & _ & _ & _ & _ & (_ & _ & T3' & _) & _).
  all: destruct (T3' _ _ t L2) as (_ & u2 & Lu2 & Hfr & Hru & Hfu); [done|].
  all: simpl in Hru, Hfu.
  - pose (s3 := goto τ w2 WLock (delete_task t s2)).
    assert (step (Run τ) s2 = Some s3) as H3.
    { rewrite (step_run_eq s2 τ w2) by done. simpl.
      change (_tasks s2) with (_tasks s). by rewrite Hq. }
    exists s3. split_and!.
    + change (exec [Run τ; Run τ; Run τ] s = Some s3).
      rewrite (exec_cons _ _ _ s1) by done. rewrite (exec_cons _ _ _ s2) by done.
      by rewrite (exec_cons _ _ _ s3).
    + done.
    + by apply pc_of_goto.
    + done.
    + intros t' [-> | Hin]; [|by apply elem_of_nil in Hin].
      exists (release u2). split_and!.
      * assert (task_heap s3 = alter release t (task_heap s2)) as -> by done.
        rewrite list_lookup_alter. destruct (decide (t = t)); [|done].
        by rewrite Lu2.
      * unfold executed, release. simpl. rewrite Hfu.
        split_and!; [done | lia | by eexists].
      * unfold release. simpl. by rewrite Hfu.
  - pose (s3 := goto τ w2 (WRun t2) (delete_task t (set_tasks q s2))).
    pose (w3 := MkWorker (w_index w) (w_stop w) (WRun t2) (w_status w)).
    assert (step (Run τ) s2 = Some s3) as H3.
    { rewrite (step_run_eq s2 τ w2) by done. simpl.
      change (_tasks s2) with (_tasks s). by rewrite Hq. }
    assert (os_threads s3 !! τ = Some w3) as L3.
    { unfold s3, goto. simpl. apply list_lookup_insert_eq.
      by rewrite !length_insert. }
    pose proof (Inv_step _ _ _ HI2 H3) as HI3.
    destruct (IH s3 t2 w3 HI3) as (s' & He & Hq' & Hpc' & Hc' & Hall);
      [done | done | done | done | done |].
    assert (task_heap s3 !! t = Some (release u2)) as Lt3.
    { assert (task_heap s3 = alter release t (task_heap s2)) as -> by done.
      rewrite list_lookup_alter. destruct (decide (t = t)); [|done].
      by rewrite Lu2. }
    assert (executed (release u2)) as Hx.
    { unfold executed, release. simpl. rewrite Hfu.
      split_and!; [done | lia | by eexists]. }
    exists s'. split_and!; try done.
    + rewrite runs_of_loop, exec_app.
      change (exec ([Run τ; Run τ; Run τ]) s) with (exec [Run τ; Run τ; Run τ] s).
      assert (exec [Run τ; Run τ; Run τ] s = Some s3) as ->.
      { rewrite (exec_cons _ _ _ s1) by done. rewrite (exec_cons _ _ _ s2) by done.
        by rewrite (exec_cons _ _ _ s3). }
      done.
    + intros t' [-> | Hin].
      * exists (release u2). split_and!; [|done|].
        -- by apply (executed_exec (runs_of τ (3 * S (length q))) s3).
        -- unfold release. simpl. by rewrite Hfu.
      * apply elem_of_cons in Hin. apply Hall. destruct Hin; eauto.
Qed.

(** A worker that starts, left to run alone with its flag unset, serves
    the whole queue: one [PopTask], then for each task its invocation,
    the test of the flag and the next [PopTask].  Every task that was
    queued has then run exactly once, with the index of this thread, and
    been deleted; the queue is empty and the worker is about to lock
    [_threadsMutex] and wait. *)
Theorem worker_drains_queue s τ w :
  reachable s → crashed s = false →
  os_threads s !! τ = Some w → w_pc w = WStart →
  stop_heap s !! w_stop w = Some false →
  ∃ s', exec (runs_of τ (3 * length (_tasks s) + 1)) s = Some s' ∧
        _tasks s' = [] ∧ pc_of s' τ = Some WLock ∧ caller s' = caller s ∧
        ∀ t, t ∈ _tasks s →
          ∃ u, task_heap s' !! t = Some u ∧ executed u ∧
               future u = Ready (callable u (w_index w)).
Proof.
  intros Hr Hc Lw Hpc Hf. apply reachable_Inv in Hr as HI.
  assert (τ < length (os_threads s)) as Hτ by (by eapply lookup_lt_Some).
  destruct (_tasks s) as [|t q] eqn:Hq.
  - exists (goto τ w WLock s). split_and!; try done.
    + change (exec [Run τ] s = Some (goto τ w WLock s)).
      rewrite (exec_cons _ _ _ (goto τ w WLock s)); [done|].
      rewrite (step_run_eq s τ w) by done. by rewrite Hpc, Hq.
    + by apply pc_of_goto.
    + intros t Ht. by apply elem_of_nil in Ht.
  - pose (s1 := goto τ w (WRun t) (set_tasks q s)).
    pose (w1 := MkWorker (w_index w) (w_stop w) (WRun t) (w_status w)).
    assert (step (Run τ) s = Some s1) as H1.
    { rewrite (step_run_eq s τ w) by done. by rewrite Hpc, Hq. }
    assert (os_threads s1 !! τ = Some w1) as L1.
    { unfold s1, goto. simpl. by apply list_lookup_insert_eq. }
    destruct (worker_loop τ q s1 t w1 (Inv_step _ _ _ HI H1)) as
      (s' & He & Hq' & Hpc' & Hc' & Hall); [done | done | done | done | done |].
    exists s'. split_and!; try done.
    + replace (3 * length (t :: q) + 1) with (S (3 * S (length q)))
        by (simpl; lia).
      change (runs_of τ (S (3 * S (length q)))) with
        (Run τ :: runs_of τ (3 * S (length q))).
      by rewrite (exec_cons _ _ _ s1).
    + intros t' Ht'. apply elem_of_cons in Ht'. by apply Hall.
Qed.

Lemma worker_drains_queue_witness :
  ∃ s', exec (runs_of 0 (3 * length (_tasks three_queued) + 1)) three_queued = Some s' ∧
        _tasks s' = [] ∧ pc_of s' 0 = Some WLock ∧
        caller s' = caller three_queued ∧
        ∀ t, t ∈ _tasks three_queued →
          ∃ u, task_heap s' !! t = Some u ∧ executed u ∧
               future u = Ready (callable u 0).
Proof.
  apply (worker_drains_queue three_queued 0 (MkWorker 0 0 WStart Attached)).
  - exists (construct 1 ++ enqueue ok_task ++ enqueue fail_task ++ enqueue ok_task).
    vm_compute. reflexivity.
  - reflexivity.
  - reflexivity.
  - reflexivity.
  - reflexivity.
Defined.

Ltac run_step L :=
  rewrite step_run by done; unfold worker_step; rewrite L; simpl.

(** A worker that finds the queue empty goes to sleep: it takes
    [_threadsMutex], counts itself idle, evaluates the predicate of
    [wait] (no task, [_doneFlag] and its own flag unset) and blocks,
    which releases the mutex. *)
Theorem worker_parks s τ w :
  crashed s = false →
  os_threads s !! τ = Some w → w_pc w = WLock →
  _tasks s = [] → _doneFlag s = false →
  stop_heap s !! w_stop w = Some false → _threadsMutex s = None →
  ∃ s', exec (runs_of τ 5) s = Some s' ∧
        pc_of s' τ = Some WWaiting ∧
        _idleThreadsCount s' = wrap_int (_idleThreadsCount s + 1) ∧
        _threadsMutex s' = None ∧ _tasks s' = [] ∧ caller s' = caller s.
Proof.
  intros Hc Lw Hpc Hq Hd Hf Hm.
  assert (τ < length (os_threads s)) as Hτ by (by eapply lookup_lt_Some).
  pose (s1 := goto τ w WInc (set_mutex (Some (Worker τ)) s)).
  pose (w1 := MkWorker (w_index w) (w_stop w) WInc (w_status w)).
  pose (s2 := goto τ w1 WPredPop (set_idle (wrap_int (_idleThreadsCount s1 + 1)) s1)).
  pose (w2 := MkWorker (w_index w) (w_stop w) WPredPop (w_status w)).
  pose (s3 := goto τ w2 WPredDone s2).
  pose (w3 := MkWorker (w_index w) (w_stop w) WPredDone (w_status w)).
  pose (s4 := goto τ w3 WPredFlag s3).
  pose (w4 := MkWorker (w_index w) (w_stop w) WPredFlag (w_status w)).
  pose (s5 := goto τ w4 WWaiting (unlock s4)).
  assert (step (Run τ) s = Some s1) as H1.
  { run_step Lw. rewrite Hpc. unfold acquire. by rewrite Hm. }
  assert (os_threads s1 !! τ = Some w1) as L1.
  { unfold s1, goto. simpl. by apply list_lookup_insert_eq. }
  assert (step (Run τ) s1 = Some s2) as H2.
  { run_step L1. done. }
  assert (os_threads s2 !! τ = Some w2) as L2.
  { unfold s2, goto. simpl. apply list_lookup_insert_eq. by rewrite length_insert. }
  assert (step (Run τ) s2 = Some s3) as H3.
  { run_step L2.
    change (_tasks s2) with (_tasks s). by rewrite Hq. }
  assert (os_threads s3 !! τ = Some w3) as L3.
  { unfold s3, goto. simpl. apply list_lookup_insert_eq. by rewrite !length_insert. }
  assert (step (Run τ) s3 = Some s4) as H4.
  { run_step L3.
    change (_doneFlag s3) with (_doneFlag s). by rewrite Hd. }
  assert (os_threads s4 !! τ = Some w4) as L4.
  { unfold s4, goto. simpl. apply list_lookup_insert_eq. by rewrite !length_insert. }
  assert (step (Run τ) s4 = Some s5) as H5.
  { run_step L4.
    change (stop_heap s4) with (stop_heap s). by rewrite Hf. }
  exists s5. split_and!; try done.
  - change (exec [Run τ; Run τ; Run τ; Run τ; Run τ] s = Some s5).
    rewrite (exec_cons _ _ _ s1) by done. rewrite (exec_cons _ _ _ s2) by done.
    rewrite (exec_cons _ _ _ s3) by done. rewrite (exec_cons _ _ _ s4) by done.
    by rewrite (exec_cons _ _ _ s5).
  - by apply pc_of_goto.
Qed.

Lemma worker_parks_witness :
  ∃ s', exec (runs_of 0 5) (after (construct 1 ++ runs_of 0 1)) = Some s' ∧
        pc_of s' 0 = Some WWaiting ∧
        _idleThreadsCount s' =
          wrap_int (_idleThreadsCount (after (construct 1 ++ runs_of 0 1)) + 1) ∧
        _threadsMutex s' = None ∧ _tasks s' = [] ∧
        caller s' = caller (after (construct 1 ++ runs_of 0 1)).
Proof.
  apply (worker_parks _ 0 (MkWorker 0 0 WLock Attached)); reflexivity.
Defined.

(** A sleeping worker that [Stop(true)] wakes returns: it takes the
    mutex again, finds no task and [_doneFlag] set, leaves the count of
    the idle threads and the scope of the lock, and ends. *)
Theorem woken_worker_leaves s τ w :
  crashed s = false →
  os_threads s !! τ = Some w → w_pc w = WWoken →
  _tasks s = [] → _doneFlag s = true → _threadsMutex s = None →
  ∃ s', exec (runs_of τ 5) s = Some s' ∧
        pc_of s' τ = Some WExit ∧
        _idleThreadsCount s' = wrap_int (_idleThreadsCount s - 1) ∧
        _threadsMutex s' = None ∧ _tasks s' = [] ∧ caller s' = caller s.
Proof.
  intros Hc Lw Hpc Hq Hd Hm.
  assert (τ < length (os_threads s)) as Hτ by (by eapply lookup_lt_Some).
  pose (s1 := goto τ w WPredPop (set_mutex (Some (Worker τ)) s)).
  pose (w1 := MkWorker (w_index w) (w_stop w) WPredPop (w_status w)).
  pose (s2 := goto τ w1 WPredDone s1).
  pose (w2 := MkWorker (w_index w) (w_stop w) WPredDone (w_status w)).
  pose (s3 := goto τ w2 (WDec None) s2).
  pose (w3 := MkWorker (w_index w) (w_stop w) (WDec None) (w_status w)).
  pose (s4 := goto τ w3 (WUnlock None) (set_idle (wrap_int (_idleThreadsCount s3 - 1)) s3)).
  pose (w4 := MkWorker (w_index w) (w_stop w) (WUnlock None) (w_status w)).
  pose (s5 := goto τ w4 WExit (unlock s4)).
  assert (step (Run τ) s = Some s1) as H1.
  { run_step Lw. rewrite Hpc. unfold acquire. by rewrite Hm. }
  assert (os_threads s1 !! τ = Some w1) as L1.
  { unfold s1, goto. simpl. by apply list_lookup_insert_eq. }
  assert (step (Run τ) s1 = Some s2) as H2.
  { run_step L1.
    change (_tasks s1) with (_tasks s). by rewrite Hq. }
  assert (os_threads s2 !! τ = Some w2) as L2.
  { unfold s2, goto. simpl. apply list_lookup_insert_eq. by rewrite length_insert. }
  assert (step (Run τ) s2 = Some s3) as H3.
  { run_step L2.
    change (_doneFlag s2) with (_doneFlag s). by rewrite Hd. }
  assert (os_threads s3 !! τ = Some w3) as L3.
  { unfold s3, goto. simpl. apply list_lookup_insert_eq. by rewrite !length_insert. }
  assert (step (Run τ) s3 = Some s4) as H4.
  { run_step L3. done. }
  assert (os_threads s4 !! τ = Some w4) as L4.
  { unfold s4, goto. simpl. apply list_lookup_insert_eq. by rewrite !length_insert. }
  assert (step (Run τ) s4 = Some s5) as H5.
  { run_step L4. done. }
  exists s5. split_and!; try done.
  - change (exec [Run τ; Run τ; Run τ; Run τ; Run τ] s = Some s5).
    rewrite (exec_cons _ _ _ s1) by done. rewrite (exec_cons _ _ _ s2) by done.
    rewrite (exec_cons _ _ _ s3) by done. rewrite (exec_cons _ _ _ s4) by done.
    by rewrite (exec_cons _ _ _ s5).
  - by apply pc_of_goto.
Qed.

Lemma woken_worker_leaves_witness :
  ∃ s', exec (runs_of 0 5)
          (after (construct 1 ++ runs_of 0 6 ++ [Call (OpStop true)] ++ acts 3)) = Some s' ∧
        pc_of s' 0 = Some WExit ∧
        _idleThreadsCount s' =
          wrap_int (_idleThreadsCount
                      (after (construct 1 ++ runs_of 0 6 ++ [Call (OpStop true)] ++ acts 3)) - 1) ∧
        _threadsMutex s' = None ∧ _tasks s' = [] ∧
        caller s' =
          caller (after (construct 1 ++ runs_of 0 6 ++ [Call (OpStop true)] ++ acts 3)).
Proof.
  apply (woken_worker_leaves _ 0 (MkWorker 0 0 WWoken Attached)); reflexivity.
Defined.

(** ** A cancelled worker *)

(** A thread that has returned stays returned. *)
Lemma exited_step l s s' τ :
  step l s = Some s' → pc_of s τ = Some WExit → pc_of s' τ = Some WExit.
Proof.
  intros H Hp. unfold pc_of in *.
  destruct (os_threads s !! τ) as [w|] eqn:L; [|done]. simpl in Hp.
  assert (w_pc w = WExit) as Hw by congruence. clear Hp.
  step_inv H; unfold goto, unlock, delete_task; simpl.
  all: try (by rewrite L; simpl; rewrite Hw).
  all: try (rewrite list_lookup_fmap, L; simpl; by rewrite w_pc_wake_exit).
  all: try (rewrite lookup_app_l by (by eapply lookup_lt_Some);
            by rewrite L; simpl; rewrite Hw).
  all: match goal with |- context [<[?τ0 := _]> (os_threads _)] =>
         destruct (decide (τ0 = τ)) as [-> | Hne];
         [| rewrite list_lookup_insert_ne by done; by rewrite L; simpl; rewrite Hw]
       end.
  all: rewrite list_lookup_insert_eq by (by eapply lookup_lt_Some); simpl.
  all: simplify_eq; try done.
  all: try (match goal with E : is_waiting _ = true |- _ =>
              apply is_waiting_pc in E end; congruence).
  all: congruence.
Qed.

Lemma exited_exec ls s s' τ :
  exec ls s = Some s' → pc_of s τ = Some WExit →
  pc_of s' τ = Some WExit ∧ step (Run τ) s' = None ∧ step (Spurious τ) s' = None.
Proof.
  revert s. induction ls as [|l ls IH]; intros s H Hp; simpl in H.
  - simplify_eq. split; [done|]. unfold pc_of in Hp.
    destruct (os_threads s' !! τ) as [w|] eqn:L; [|done]. simpl in Hp.
    assert (w_pc w = WExit) as Hw by congruence.
    unfold step, worker_step, spurious_wakeup, is_waiting.
    destruct (crashed s'); [done|]. rewrite L. simpl. by rewrite Hw.
  - destruct (step l s) as [s1|] eqn:E; [|done]. simpl in H.
    apply (IH s1 H). by eapply exited_step.
Qed.

Lemma executed_once u id :
  untouched u → executed (release (invoke id u)) ∧
  future (release (invoke id u)) = Ready (callable u id).
Proof.
  intros (Hr & Hf & Hp). unfold executed, release, invoke. simpl.
  rewrite Hr, Hf, Hp. split_and!; try done. by exists id.
Qed.

(** The worker at line 177 with its flag set: the unit is deleted and the
    thread function returns. *)
Lemma cancelled_at_check s τ w t :
  reachable s → crashed s = false →
  os_threads s !! τ = Some w → w_pc w = WCheck t →
  flag_of s w = Some true →
  ∃ u s2,
    task_heap s !! t = Some u ∧ runs u = 1 ∧ frees u = 0 ∧
    future u = Ready (callable u (w_index w)) ∧
    step (Run τ) s = Some s2 ∧
    task_heap s2 !! t = Some (release u) ∧
    handle_of s2 t = Some (Ready (callable u (w_index w))) ∧
    pc_of s2 τ = Some WExit ∧
    _tasks s2 = _tasks s ∧
    (∀ t', t' ∈ _tasks s → ∃ u', task_heap s2 !! t' = Some u' ∧ untouched u').
Proof.
  intros Hr Hc Lw Hpc Hf. unfold flag_of in Hf.
  apply reachable_Inv in Hr as (_ & _ & _ & _ & _ & _ & (_ & T2 & T3 & _) & _).
  destruct (T3 _ _ t Lw) as (Hnq & u & Lu & Hfr & Hx); [by rewrite Hpc|].
  rewrite Hpc in Hx. simpl in Hx. destruct Hx as (Hru & Hfu).
  exists u, (goto τ w WExit (delete_task t s)). split_and!; try done.
  - rewrite (step_run_eq s τ w) by done. by rewrite Hpc, Hf.
  - unfold goto, delete_task. simpl. rewrite list_lookup_alter.
    destruct (decide (t = t)); [|done]. by rewrite Lu.
  - unfold handle_of, goto, delete_task. simpl. rewrite list_lookup_alter.
    destruct (decide (t = t)); [|done]. rewrite Lu. simpl. by rewrite Hfu.
  - by apply pc_of_goto.
  - intros t' Ht'. destruct (T2 _ Ht') as (u' & Lu' & Hu').
    exists u'. split; [|done]. unfold goto, delete_task. simpl.
    rewrite list_lookup_alter_ne; [done|]. intros ->. done.
Qed.

Lemma insert_true_keeps (l : list bool) n p :
  l !! p = Some true → <[n := true]> l !! p = Some true.
Proof.
  intros H. destruct (decide (n = p)) as [-> | Hne].
  - rewrite list_lookup_insert_eq; [done | by eapply lookup_lt_Some].
  - by rewrite list_lookup_insert_ne.
Qed.

Lemma wake_awake w : is_waiting w = false → wake w = w.
Proof. unfold wake. by intros ->. Qed.

(** A worker that holds its last task, its flag set, under the steps of
    any thread: it is at line 175, at line 177 or has returned. *)
Lemma cancelled_step l s s' τ w t :
  step l s = Some s' →
  os_threads s !! τ = Some w → flag_of s w = Some true →
  w_pc w = WRun t ∨ w_pc w = WCheck t ∨ w_pc w = WExit →
  ∃ w', os_threads s' !! τ = Some w' ∧
        w_index w' = w_index w ∧ w_stop w' = w_stop w ∧
        flag_of s' w' = Some true ∧
        (w_pc w' = WRun t ∨ w_pc w' = WCheck t ∨ w_pc w' = WExit).
Proof.
  intros H L Hf Hpc. unfold flag_of in *.
  assert (is_waiting w = false) as Hnw.
  { unfold is_waiting. destruct Hpc as [-> | [-> | ->]]; done. }
  assert (τ < length (os_threads s)) as Hτ by (by eapply lookup_lt_Some).
  step_inv H; unfold goto, unlock, delete_task; simpl.
  all: try (by exists w).
  all: try (exists w; split_and!; try done; by apply insert_true_keeps).
  all: try (exists w; rewrite list_lookup_fmap, L; simpl;
            by rewrite wake_awake).
  all: try (exists w; rewrite lookup_app_l by done; split_and!; try done;
            by apply lookup_app_l_Some).
  all: match goal with |- context [<[?τ0 := _]> (os_threads _)] =>
         destruct (decide (τ0 = τ)) as [-> | Hne];
         [| exists w; rewrite list_lookup_insert_ne by done;
            split_and!; try done; by apply insert_true_keeps]
       end.
  all: rewrite list_lookup_insert_eq by done.
  all: simplify_eq.
  all: try (eexists; split; [done|]; simpl; split_and!; try done;
            try (by apply insert_true_keeps); by eauto).
  all: try (exfalso; destruct Hpc as [Hpc | [Hpc | Hpc]]; congruence).
  assert (task = t) as -> by (destruct Hpc as [?|[?|?]]; congruence).
  eexists. split; [done|]. simpl. eauto 10.
Qed.

Lemma cancelled_exec ls s s' τ w t :
  exec ls s = Some s' →
  os_threads s !! τ = Some w → flag_of s w = Some true →
  w_pc w = WRun t ∨ w_pc w = WCheck t ∨ w_pc w = WExit →
  pc_of s' τ = Some (WRun t) ∨ pc_of s' τ = Some (WCheck t) ∨
  pc_of s' τ = Some WExit.
Proof.
  revert s w. induction ls as [|l ls IH]; intros s w H L Hf Hpc; simpl in H.
  - simplify_eq. unfold pc_of. rewrite L. simpl.
    destruct Hpc as [-> | [-> | ->]]; eauto.
  - destruct (step l s) as [s1|] eqn:E; [|done]. simpl in H.
    destruct (cancelled_step l s s1 τ w t E L Hf Hpc)
      as (w' & L' & _ & _ & Hf' & Hpc').
    by apply (IH s1 w').
Qed.

(** C10.  A worker whose cancellation flag is set, with a task in hand
    (line 175) and whatever is queued behind it: the task runs to its end,
    once, with the index of the thread; the worker reads its flag at line
    177, deletes the unit and returns.  It has not popped: the queue is as
    it was, every unit in it still untouched.  The same holds when the
    flag is found set at line 177 after the task has run.  A thread that
    has returned takes no further step, so it never pops again; a flag
    that is set stays set whatever the other threads do; and however the
    steps of the caller and of the other threads (spurious wakeups
    included) fall between those of the worker, it is at line 175 with
    that task, at line 177 after it, or has returned: it is never at a
    [PopTask] (lines 178, 188) and never holds another task. *)
Theorem C10_cancelled_worker_exits_after_task :
  (∀ s τ w t,
     reachable s → crashed s = false →
     os_threads s !! τ = Some w → w_pc w = WRun t →
     flag_of s w = Some true →
     ∃ u s2,
       task_heap s !! t = Some u ∧ untouched u ∧
       exec [Run τ; Run τ] s = Some s2 ∧
       task_heap s2 !! t = Some (release (invoke (w_index w) u)) ∧
       executed (release (invoke (w_index w) u)) ∧
       handle_of s2 t = Some (Ready (callable u (w_index w))) ∧
       pc_of s2 τ = Some WExit ∧
       _tasks s2 = _tasks s ∧
       (∀ t', t' ∈ _tasks s → ∃ u', task_heap s2 !! t' = Some u' ∧ untouched u')) ∧
  (∀ s τ w t,
     reachable s → crashed s = false →
     os_threads s !! τ = Some w → w_pc w = WCheck t →
     flag_of s w = Some true →
     ∃ u s2,
       task_heap s !! t = Some u ∧ runs u = 1 ∧
       step (Run τ) s = Some s2 ∧
       task_heap s2 !! t = Some (release u) ∧ executed (release u) ∧
       handle_of s2 t = Some (Ready (callable u (w_index w))) ∧
       pc_of s2 τ = Some WExit ∧
       _tasks s2 = _tasks s ∧
       (∀ t', t' ∈ _tasks s → ∃ u', task_heap s2 !! t' = Some u' ∧ untouched u')) ∧
  (∀ ls s s' τ,
     exec ls s = Some s' → pc_of s τ = Some WExit →
     pc_of s' τ = Some WExit ∧ step (Run τ) s' = None ∧
     step (Spurious τ) s' = None) ∧
  (∀ ls s s' p,
     exec ls s = Some s' → stop_heap s !! p = Some true →
     stop_heap s' !! p = Some true) ∧
  (∀ ls s s' τ w t,
     exec ls s = Some s' →
     os_threads s !! τ = Some w → flag_of s w = Some true →
     w_pc w = WRun t ∨ w_pc w = WCheck t →
     pc_of s' τ = Some (WRun t) ∨ pc_of s' τ = Some (WCheck t) ∨
     pc_of s' τ = Some WExit).
Proof.
  split_and!; [| | | |
    intros ls s s' τ w t H L Hf Hpc;
    apply (cancelled_exec ls s s' τ w t H L Hf); tauto].
  - intros s τ w t Hr Hc Lw Hpc Hf.
    assert (τ < length (os_threads s)) as Hτ by (by eapply lookup_lt_Some).
    pose proof (reachable_Inv _ Hr) as (_ & _ & _ & _ & _ & _ & (_ & T2 & T3 & _) & _).
    destruct (T3 _ _ t Lw) as (Hnq & u & Lu & Hfr & Hx); [by rewrite Hpc|].
    rewrite Hpc in Hx. simpl in Hx. destruct Hx as (Hru & Hfu).
    assert (untouched u) as Hun by done.
    pose (s1 := goto τ w (WCheck t)
                  (set_task_heap (<[t := invoke (w_index w) u]> (task_heap s)) s)).
    pose (w1 := MkWorker (w_index w) (w_stop w) (WCheck t) (w_status w)).
    assert (step (Run τ) s = Some s1) as H1.
    { rewrite (step_run_eq s τ w) by done. by rewrite Hpc, Lu. }
    assert (os_threads s1 !! τ = Some w1) as L1.
    { unfold s1, goto. simpl. by apply list_lookup_insert_eq. }
    assert (reachable s1) as Hr1.
    { apply (reachable_exec [Run τ] s); [done|]. cbn [exec]. by rewrite H1. }
    destruct (cancelled_at_check s1 τ w1 t Hr1) as
      (u1 & s2 & Lu1 & _ & _ & _ & H2 & Lt2 & Hh2 & Hp2 & Hq2 & Hrest);
      [done | done | done | done |].
    assert (u1 = invoke (w_index w) u) as ->.
    { unfold s1, goto in Lu1. simpl in Lu1.
      rewrite list_lookup_insert_eq in Lu1 by (by eapply lookup_lt_Some).
      congruence. }
    destruct (executed_once u (w_index w) Hun) as (Hx & Hfx).
    exists u, s2. split_and!; try done.
    rewrite (exec_cons _ _ _ s1) by done. by rewrite (exec_cons _ _ _ s2).
  - intros s τ w t Hr Hc Lw Hpc Hf.
    destruct (cancelled_at_check s τ w t Hr Hc Lw Hpc Hf) as
      (u & s2 & Lu & Hru & Hfr & Hfu & H2 & Lt2 & Hh2 & Hp2 & Hq2 & Hrest).
    exists u, s2. split_and!; try done.
    unfold executed, release. simpl. rewrite Hfu.
    split_and!; [done | lia | by eexists].
  - intros ls s s' τ. apply exited_exec.
  - intros ls. induction ls as [|l ls IH]; intros s s' p H Hp; simpl in H.
    + by simplify_eq.
    + destruct (step l s) as [s1|] eqn:E; [|done]. simpl in H.
      apply (IH s1 s' p H). by eapply stop_heap_mono.
Qed.

Lemma C10_cancelled_worker_exits_after_task_witness :
  _tasks cancelled_in_flight = [1] ∧
  ∃ u s2,
    task_heap cancelled_in_flight !! 0 = Some u ∧ untouched u ∧
    exec [Run 0; Run 0] cancelled_in_flight = Some s2 ∧
    task_heap s2 !! 0 = Some (release (invoke 0 u)) ∧
    executed (release (invoke 0 u)) ∧
    handle_of s2 0 = Some (Ready (callable u 0)) ∧
    pc_of s2 0 = Some WExit ∧
    _tasks s2 = _tasks cancelled_in_flight ∧
    (∀ t', t' ∈ _tasks cancelled_in_flight →
           ∃ u', task_heap s2 !! t' = Some u' ∧ untouched u').
Proof.
  split; [reflexivity|].
  apply (proj1 C10_cancelled_worker_exits_after_task cancelled_in_flight 0
           (MkWorker 0 0 (WRun 0) Attached) 0).
  - exists (construct 1 ++ enqueue ok_task ++ [Run 0] ++ enqueue ok_task ++
            [Call (OpStop false); Act 0]).
    vm_compute. reflexivity.
  - reflexivity.
  - reflexivity.
  - reflexivity.
  - reflexivity.
Defined.

(** ** A failing task *)

Lemma lookup_self_insert {A} (l : list A) i x y :
  l !! i = Some y → <[i := x]> l !! i = Some x.
Proof. intros H. apply list_lookup_insert_eq. by eapply lookup_lt_Some. Qed.

(** The worker has run its task, finds its flag unset and the queue empty:
    it deletes the unit and goes to sleep (lines 177-190). *)
Lemma parks_after_task s τ w t :
  crashed s = false →
  os_threads s !! τ = Some w → w_pc w = WCheck t →
  _tasks s = [] → _doneFlag s = false →
  flag_of s w = Some false → _threadsMutex s = None →
  exec (runs_of τ 7) s =
    Some (MkPool [] (_threads s) (_threadsStopFlags s)
            (wrap_int (_idleThreadsCount s + 1)) false (_stopFlag s) None
            (stop_heap s) (alter release t (task_heap s))
            (<[τ := MkWorker (w_index w) (w_stop w) WWaiting (w_status w)]>
               (os_threads s))
            (caller s)).
Proof.
  intros Hc Lw Hpc Hq Hd Hf Hm. unfold flag_of in Hf.
  pose (mk := λ pc, MkWorker (w_index w) (w_stop w) pc (w_status w)).
  pose (s1 := goto τ w (WPop t) s).
  pose (s2 := goto τ (mk (WPop t)) WLock (delete_task t s1)).
  pose (s3 := goto τ (mk WLock) WInc (set_mutex (Some (Worker τ)) s2)).
  pose (s4 := goto τ (mk WInc) WPredPop
                (set_idle (wrap_int (_idleThreadsCount s3 + 1)) s3)).
  pose (s5 := goto τ (mk WPredPop) WPredDone s4).
  pose (s6 := goto τ (mk WPredDone) WPredFlag s5).
  pose (s7 := goto τ (mk WPredFlag) WWaiting (unlock s6)).
  assert (os_threads s1 !! τ = Some (mk (WPop t))) as L1
    by (by apply (lookup_self_insert _ _ _ w)).
  assert (os_threads s2 !! τ = Some (mk WLock)) as L2
    by (by apply (lookup_self_insert _ _ _ (mk (WPop t)))).
  assert (os_threads s3 !! τ = Some (mk WInc)) as L3
    by (by apply (lookup_self_insert _ _ _ (mk WLock))).
  assert (os_threads s4 !! τ = Some (mk WPredPop)) as L4
    by (by apply (lookup_self_insert _ _ _ (mk WInc))).
  assert (os_threads s5 !! τ = Some (mk WPredDone)) as L5
    by (by apply (lookup_self_insert _ _ _ (mk WPredPop))).
  assert (os_threads s6 !! τ = Some (mk WPredFlag)) as L6
    by (by apply (lookup_self_insert _ _ _ (mk WPredDone))).
  assert (step (Run τ) s = Some s1) as H1.
  { run_step Lw. rewrite Hpc. simpl. by rewrite Hf. }
  assert (step (Run τ) s1 = Some s2) as H2.
  { run_step L1. change (_tasks s1) with (_tasks s). by rewrite Hq. }
  assert (step (Run τ) s2 = Some s3) as H3.
  { run_step L2. unfold acquire. change (_threadsMutex s2) with (_threadsMutex s).
    by rewrite Hm. }
  assert (step (Run τ) s3 = Some s4) as H4 by (by run_step L3).
  assert (step (Run τ) s4 = Some s5) as H5.
  { run_step L4. change (_tasks s4) with (_tasks s). by rewrite Hq. }
  assert (step (Run τ) s5 = Some s6) as H6.
  { run_step L5. change (_doneFlag s5) with (_doneFlag s). by rewrite Hd. }
  assert (step (Run τ) s6 = Some s7) as H7.
  { run_step L6. change (stop_heap s6) with (stop_heap s). by rewrite Hf. }
  change (runs_of τ 7) with [Run τ; Run τ; Run τ; Run τ; Run τ; Run τ; Run τ].
  rewrite (exec_cons _ _ _ s1) by done. rewrite (exec_cons _ _ _ s2) by done.
  rewrite (exec_cons _ _ _ s3) by done. rewrite (exec_cons _ _ _ s4) by done.
  rewrite (exec_cons _ _ _ s5) by done. rewrite (exec_cons _ _ _ s6) by done.
  rewrite (exec_cons _ _ _ s7) by done.
  unfold exec. f_equal. clear H1 H2 H3 H4 H5 H6 H7 L1 L2 L3 L4 L5 L6 Lw Hf.
  subst s7 s6 s5 s4 s3 s2 s1 mk. destruct s. simpl in *. subst.
  unfold goto, unlock, delete_task. simpl.
  by rewrite !list_insert_insert_eq.
Qed.

(** [Enqueue] on a pool in which thread [τ] sleeps, when its [notify_one]
    wakes that thread (lines 93-98). *)
Lemma enqueue_wakes s τ w f :
  caller s = CIdle → _threadsMutex s = None →
  os_threads s !! τ = Some w → w_pc w = WWaiting →
  exec (enqueue_waking τ f) s =
    Some (MkPool (_tasks s ++ [length (task_heap s)]) (_threads s)
            (_threadsStopFlags s) (_idleThreadsCount s) (_doneFlag s)
            (_stopFlag s) None (stop_heap s) (task_heap s ++ [new_task f])
            (<[τ := MkWorker (w_index w) (w_stop w) WWoken (w_status w)]>
               (os_threads s))
            CIdle).
Proof.
  intros Hc Hm Lw Hpc.
  assert (is_waiting w = true) as Hw by (by apply is_waiting_pc).
  assert (existsb is_waiting (os_threads s) = true) as Hex.
  { apply existsb_exists. exists w. split; [|done].
    apply list_elem_of_In, list_elem_of_lookup. eauto. }
  pose (s1 := Enqueue f s).
  pose (s2 := set_caller CEnqNotify (set_mutex (Some Caller) s1)).
  pose (s3 := set_caller CEnqUnlock (goto τ w WWoken s2)).
  pose (s4 := set_caller CIdle (unlock s3)).
  assert (step (Call (OpEnqueue f)) s = Some s1) as H1.
  { rewrite step_call by done. unfold call. by rewrite Hc. }
  assert (step (Act 0) s1 = Some s2) as H2.
  { rewrite step_act by done. unfold caller_step, acquire. simpl. by rewrite Hm. }
  assert (step (Act τ) s2 = Some s3) as H3.
  { rewrite step_act by done. unfold caller_step, notify_one. simpl.
    rewrite Hex, Lw. simpl. by rewrite Hw. }
  assert (step (Act 0) s3 = Some s4) as H4 by (by rewrite step_act).
  unfold enqueue_waking.
  rewrite (exec_cons _ _ _ s1) by done. rewrite (exec_cons _ _ _ s2) by done.
  rewrite (exec_cons _ _ _ s3) by done. rewrite (exec_cons _ _ _ s4) by done.
  done.
Qed.

(** A thread that has been woken and finds a task: it takes it in the
    predicate of [wait], leaves the wait and runs it (lines 186-193, 175). *)
Lemma woken_takes_task s τ w t q u :
  crashed s = false →
  os_threads s !! τ = Some w → w_pc w = WWoken →
  _threadsMutex s = None → _tasks s = t :: q → task_heap s !! t = Some u →
  exec (runs_of τ 5) s =
    Some (MkPool q (_threads s) (_threadsStopFlags s)
            (wrap_int (_idleThreadsCount s - 1)) (_doneFlag s) (_stopFlag s)
            None (stop_heap s) (<[t := invoke (w_index w) u]> (task_heap s))
            (<[τ := MkWorker (w_index w) (w_stop w) (WCheck t) (w_status w)]>
               (os_threads s))
            (caller s)).
Proof.
  intros Hc Lw Hpc Hm Hq Lu.
  pose (mk := λ pc, MkWorker (w_index w) (w_stop w) pc (w_status w)).
  pose (s1 := goto τ w WPredPop (set_mutex (Some (Worker τ)) s)).
  pose (s2 := goto τ (mk WPredPop) (WDec (Some t)) (set_tasks q s1)).
  pose (s3 := goto τ (mk (WDec (Some t))) (WUnlock (Some t))
                (set_idle (wrap_int (_idleThreadsCount s2 - 1)) s2)).
  pose (s4 := goto τ (mk (WUnlock (Some t))) (WRun t) (unlock s3)).
  pose (s5 := goto τ (mk (WRun t)) (WCheck t)
                (set_task_heap (<[t := invoke (w_index w) u]> (task_heap s4)) s4)).
  assert (os_threads s1 !! τ = Some (mk WPredPop)) as L1
    by (by apply (lookup_self_insert _ _ _ w)).
  assert (os_threads s2 !! τ = Some (mk (WDec (Some t)))) as L2
    by (by apply (lookup_self_insert _ _ _ (mk WPredPop))).
  assert (os_threads s3 !! τ = Some (mk (WUnlock (Some t)))) as L3
    by (by apply (lookup_self_insert _ _ _ (mk (WDec (Some t))))).
  assert (os_threads s4 !! τ = Some (mk (WRun t))) as L4
    by (by apply (lookup_self_insert _ _ _ (mk (WUnlock (Some t))))).
  assert (step (Run τ) s = Some s1) as H1.
  { run_step Lw. rewrite Hpc. unfold acquire. by rewrite Hm. }
  assert (step (Run τ) s1 = Some s2) as H2.
  { run_step L1. change (_tasks s1) with (_tasks s). by rewrite Hq. }
  assert (step (Run τ) s2 = Some s3) as H3 by (by run_step L2).
  assert (step (Run τ) s3 = Some s4) as H4 by (by run_step L3).
  assert (step (Run τ) s4 = Some s5) as H5.
  { run_step L4. change (task_heap s4) with (task_heap s). by rewrite Lu. }
  change (runs_of τ 5) with [Run τ; Run τ; Run τ; Run τ; Run τ].
  rewrite (exec_cons _ _ _ s1) by done. rewrite (exec_cons _ _ _ s2) by done.
  rewrite (exec_cons _ _ _ s3) by done. rewrite (exec_cons _ _ _ s4) by done.
  rewrite (exec_cons _ _ _ s5) by done.
  unfold exec. f_equal. clear H1 H2 H3 H4 H5 L1 L2 L3 L4 Lw Lu.
  subst s5 s4 s3 s2 s1 mk. destruct s. simpl in *. subst.
  unfold goto, unlock. simpl.
  by rewrite !list_insert_insert_eq.
Qed.

(** The line of the task that throws (line 175): the exception goes into
    the shared state, nothing else of the pool changes. *)
Lemma failure_is_stored s τ w t u e :
  crashed s = false →
  os_threads s !! τ = Some w → w_pc w = WRun t →
  task_heap s !! t = Some u → future u = Pending →
  callable u (w_index w) = Throws e →
  let s1 := goto τ w (WCheck t)
              (set_task_heap (<[t := invoke (w_index w) u]> (task_heap s)) s) in
  step (Run τ) s = Some s1 ∧
  crashed s1 = false ∧
  get <$> handle_of s1 t = Some (Rethrows e) ∧
  pc_of s1 τ = Some (WCheck t).
Proof.
  intros Hc Lw Hpc Lu Hfu He s1.
  assert (t < length (task_heap s)) by (by eapply lookup_lt_Some).
  split_and!.
  - rewrite (step_run_eq s τ w) by done. by rewrite Hpc, Lu.
  - done.
  - unfold handle_of. simpl. rewrite list_lookup_insert_eq by done.
    simpl. by rewrite Hfu, He.
  - by apply pc_of_goto.
Qed.

(** The failing task was the last one of the queue: the worker goes to
    sleep, a task submitted later wakes it and is run. *)
Lemma failure_then_later_task s τ w t u e f :
  crashed s = false →
  os_threads s !! τ = Some w → w_pc w = WRun t →
  task_heap s !! t = Some u → future u = Pending →
  callable u (w_index w) = Throws e →
  flag_of s w = Some false →
  _tasks s = [] → caller s = CIdle → _doneFlag s = false →
  _threadsMutex s = None →
  let s1 := goto τ w (WCheck t)
              (set_task_heap (<[t := invoke (w_index w) u]> (task_heap s)) s) in
  ∃ s2 s',
    exec (runs_of τ 7) s1 = Some s2 ∧
    pc_of s2 τ = Some WWaiting ∧
    get <$> handle_of s2 t = Some (Rethrows e) ∧
    exec (enqueue_waking τ f ++ runs_of τ 5) s2 = Some s' ∧
    handle_of s' (length (task_heap s)) = Some (Ready (f (w_index w))) ∧
    get <$> handle_of s' t = Some (Rethrows e) ∧
    pc_of s' τ = Some (WCheck (length (task_heap s))) ∧
    _tasks s' = [].
Proof.
  intros Hc Lw Hpc Lu Hfu He Hf Hq Hca Hd Hm s1.
  assert (Ht : t < length (task_heap s)) by (by eapply lookup_lt_Some).
  assert (Hτ : τ < length (os_threads s)) by (by eapply lookup_lt_Some).
  pose (w1 := MkWorker (w_index w) (w_stop w) (WCheck t) (w_status w)).
  assert (os_threads s1 !! τ = Some w1) as L1
    by (by apply (lookup_self_insert _ _ _ w)).
  pose proof (parks_after_task s1 τ w1 t Hc L1 eq_refl Hq Hd Hf Hm) as P.
  match type of P with _ = Some ?x => set (s2 := x) in * end.
  pose (w2 := MkWorker (w_index w) (w_stop w) WWaiting (w_status w)).
  assert (os_threads s2 !! τ = Some w2) as L2.
  { apply (lookup_self_insert _ _ _ w1). exact L1. }
  pose proof (enqueue_wakes s2 τ w2 f Hca eq_refl L2 eq_refl) as Q.
  match type of Q with _ = Some ?x => set (s3 := x) in * end.
  pose (w3 := MkWorker (w_index w) (w_stop w) WWoken (w_status w)).
  assert (os_threads s3 !! τ = Some w3) as L3.
  { apply (lookup_self_insert _ _ _ w2). exact L2. }
  assert (length (task_heap s2) = length (task_heap s)) as Hlen.
  { simpl. by rewrite length_alter, length_insert. }
  assert (task_heap s3 !! length (task_heap s) = Some (new_task f)) as Lu3.
  { change (task_heap s3) with (task_heap s2 ++ [new_task f]).
    rewrite lookup_app_r by (rewrite Hlen; lia).
    by rewrite Hlen, Nat.sub_diag. }
  assert (_tasks s3 = [length (task_heap s)]) as Hq3.
  { change (_tasks s3) with ([] ++ [length (task_heap s2)]). by rewrite Hlen. }
  pose proof (woken_takes_task s3 τ w3 _ [] _ eq_refl L3 eq_refl eq_refl Hq3 Lu3)
    as R.
  match type of R with _ = Some ?x => set (s4 := x) in * end.
  assert (get <$> handle_of s2 t = Some (Rethrows e)) as G2.
  { unfold handle_of. simpl. rewrite list_lookup_alter_eq.
    rewrite list_lookup_insert_eq by done. simpl. by rewrite Hfu, He. }
  exists s2, s4. split_and!.
  - exact P.
  - unfold pc_of. by rewrite L2.
  - exact G2.
  - by rewrite exec_app, Q.
  - unfold handle_of. change (task_heap s4)
      with (<[length (task_heap s) := invoke (w_index w) (new_task f)]>
              (task_heap s3)).
    rewrite list_lookup_insert_eq; [done|]. by eapply lookup_lt_Some.
  - unfold handle_of. change (task_heap s4)
      with (<[length (task_heap s) := invoke (w_index w) (new_task f)]>
              (task_heap s2 ++ [new_task f])).
    rewrite list_lookup_insert_ne by lia.
    rewrite lookup_app_l by (rewrite Hlen; lia). exact G2.
  - unfold pc_of. change (os_threads s4)
      with (<[τ := MkWorker (w_index w) (w_stop w)
                     (WCheck (length (task_heap s))) (w_status w)]>
              (os_threads s3)).
    erewrite lookup_self_insert; [done|exact L3].
  - done.
Qed.

(** C8.  A task whose callable throws, run by a worker that has not been
    told to stop, in any reachable state of the pool (line 175 of
    [InitThead], the packaged task of line 94).  The step stores the
    exception in the shared state of the task, and reading the handle
    rethrows it; the process has not crashed and the worker stands at
    line 177, as after any task; the queue, the other task units and the
    other threads are as they were.  Then (a) when a task is queued behind
    the failing one, the worker pops it, runs it and stores that task's
    own outcome; (b) when the queue is empty, the worker goes to sleep in
    [wait] (lines 183-190), and a task submitted afterwards through
    [Enqueue], whose [notify_one] wakes it (lines 93-98), is popped in the
    predicate of [wait] and run with the thread's index, its outcome stored
    under its own handle, while the handle of the failing task still
    rethrows the exception. *)
Theorem C8_task_failure_is_contained s τ w t u e :
  reachable s → crashed s = false →
  os_threads s !! τ = Some w → w_pc w = WRun t →
  task_heap s !! t = Some u →
  callable u (w_index w) = Throws e →
  flag_of s w = Some false →
  ∃ s1,
    step (Run τ) s = Some s1 ∧
    crashed s1 = false ∧
    get <$> handle_of s1 t = Some (Rethrows e) ∧
    pc_of s1 τ = Some (WCheck t) ∧
    _tasks s1 = _tasks s ∧
    (∀ t', t' ≠ t → task_heap s1 !! t' = task_heap s !! t') ∧
    (∀ τ', τ' ≠ τ → os_threads s1 !! τ' = os_threads s !! τ') ∧
    (∀ t2 q, _tasks s = t2 :: q →
       ∃ u2 s',
         task_heap s !! t2 = Some u2 ∧
         exec [Run τ; Run τ; Run τ] s1 = Some s' ∧
         get <$> handle_of s' t = Some (Rethrows e) ∧
         handle_of s' t2 = Some (Ready (callable u2 (w_index w))) ∧
         pc_of s' τ = Some (WCheck t2) ∧
         _tasks s' = q) ∧
    (_tasks s = [] → caller s = CIdle → _doneFlag s = false →
     _threadsMutex s = None →
     ∀ f, ∃ s2 s',
       exec (runs_of τ 7) s1 = Some s2 ∧
       pc_of s2 τ = Some WWaiting ∧
       get <$> handle_of s2 t = Some (Rethrows e) ∧
       exec (enqueue_waking τ f ++ runs_of τ 5) s2 = Some s' ∧
       handle_of s' (length (task_heap s)) = Some (Ready (f (w_index w))) ∧
       get <$> handle_of s' t = Some (Rethrows e) ∧
       pc_of s' τ = Some (WCheck (length (task_heap s))) ∧
       _tasks s' = []).
Proof.
  intros Hr Hc Lw Hpc Lu He Hf.
  apply reachable_Inv in Hr as (_ & _ & _ & _ & _ & _ & (_ & T2 & T3 & _) & _).
  destruct (T3 _ _ t Lw) as (Hnq & u0 & Lu0 & Hfr & Hx); [by rewrite Hpc|].
  rewrite Hpc in Hx. simpl in Hx. destruct Hx as (Hru & Hfu).
  assert (u0 = u) as -> by congruence.
  destruct (failure_is_stored s τ w t u e) as (H1 & H2 & H3 & H4); try done.
  eexists. split; [exact H1|]. split_and!; try done.
  - intros t' Hne. simpl. by rewrite list_lookup_insert_ne.
  - intros τ' Hne. simpl. by rewrite list_lookup_insert_ne.
  - intros t2 q Hq.
    destruct (T2 t2) as (u2 & Lu2 & _ & _ & Hfu2); [rewrite Hq; left|].
    assert (t2 ≠ t) as Hne by (intros ->; apply Hnq; rewrite Hq; left).
    destruct (failure_then_queued_task s τ w t u t2 u2 q e)
      as (s1' & s' & E1 & _ & _ & E2 & E3 & E4 & E5 & E6); try done.
    assert (s1' = goto τ w (WCheck t)
              (set_task_heap (<[t := invoke (w_index w) u]> (task_heap s)) s))
      as -> by congruence.
    by exists u2, s'.
  - intros Hq Hca Hd Hm f.
    by apply (failure_then_later_task s τ w t u e f).
Qed.

Lemma C8_task_failure_is_contained_witness :
  (∃ s1,
     step (Run 0) failing_state = Some s1 ∧
     get <$> handle_of s1 0 = Some (Rethrows "failed") ∧
     ∃ s', exec [Run 0; Run 0; Run 0] s1 = Some s' ∧
           handle_of s' 1 = Some (Ready (ok_task 0)) ∧
           get <$> handle_of s' 0 = Some (Rethrows "failed")) ∧
  (∃ s1 s2 s',
     step (Run 0) failing_alone = Some s1 ∧
     get <$> handle_of s1 0 = Some (Rethrows "failed") ∧
     exec (runs_of 0 7) s1 = Some s2 ∧
     pc_of s2 0 = Some WWaiting ∧
     exec (enqueue_waking 0 ok_task ++ runs_of 0 5) s2 = Some s' ∧
     handle_of s' 1 = Some (Ready (ok_task 0)) ∧
     get <$> handle_of s' 0 = Some (Rethrows "failed")).
Proof.
  split.
  - destruct (C8_task_failure_is_contained failing_state 0
                (MkWorker 0 0 (WRun 0) Attached) 0 (new_task fail_task) "failed")
      as (s1 & H1 & _ & H3 & _ & _ & _ & _ & Hq & _).
    + exists (construct 1 ++ enqueue fail_task ++ enqueue ok_task ++ [Run 0]).
      vm_compute. reflexivity.
    + reflexivity.
    + reflexivity.
    + reflexivity.
    + reflexivity.
    + reflexivity.
    + reflexivity.
    + destruct (Hq 1 [] eq_refl) as (u2 & s' & Lu2 & E & G & H & _).
      exists s1. split; [exact H1|]. split; [exact H3|].
      exists s'. split; [exact E|]. split; [|exact G].
      rewrite H. vm_compute in Lu2. by injection Lu2 as <-.
  - destruct (C8_task_failure_is_contained failing_alone 0
                (MkWorker 0 0 (WRun 0) Attached) 0 (new_task fail_task) "failed")
      as (s1 & H1 & _ & H3 & _ & _ & _ & _ & _ & Hl).
    + exists (construct 1 ++ enqueue fail_task ++ [Run 0]).
      vm_compute. reflexivity.
    + reflexivity.
    + reflexivity.
    + reflexivity.
    + reflexivity.
    + reflexivity.
    + reflexivity.
    + destruct (Hl eq_refl eq_refl eq_refl eq_refl ok_task)
        as (s2 & s' & E2 & P2 & _ & E & H & G & _).
      exists s1, s2, s'. split_and!; try done.
Defined.

(** ** The idle counter of a constructed pool *)

Lemma constructed_with_step n l s s' :
  (n < 2 ^ 32)%Z →
  not_init l = true → constructed_with n s → step l s = Some s' →
  constructed_with n s'.
Proof.
  intros Hn Hl (Hlen & Hc) H. unfold constructed_with.
  step_inv H; unfold goto, unlock, delete_task; simpl; try done.
  all: rewrite ?E0, ?E1 in Hc; simpl in Hc.
  all: rewrite ?length_insert, ?length_app, ?length_fmap, ?E0, ?E1; simpl.
  all: try done.
  all: try (destruct Hc as (-> & Hi)).
  all: bools; try (split; [lia|]); try done.
  all: try (rewrite wrap_uint_small by lia; split; [done|lia]).
Qed.

Lemma constructed_with_exec n ls s s' :
  (n < 2 ^ 32)%Z →
  forallb not_init ls = true → constructed_with n s → exec ls s = Some s' →
  constructed_with n s'.
Proof.
  intros Hn. revert s. induction ls as [|l ls IH]; intros s Hl Hc H; simpl in *.
  - by simplify_eq.
  - apply andb_true_iff in Hl as (Hl1 & Hl).
    destruct (step l s) as [s1|] eqn:E; [|done]. simpl in H.
    apply (IH s1); [done | by eapply constructed_with_step | done].
Qed.

(** What the constructor leaves: [Init(n)] on the empty pool. *)
Lemma constructor_call n s0 :
  step (Call (OpInit n)) empty_pool = Some s0 →
  (0 ≤ n < 2 ^ 32)%Z ∧ never_shrunk s0 ∧ constructed_with n s0.
Proof.
  intros E. unfold step, call in E. simpl in E.
  destruct (decide (0 ≤ n < 2 ^ 32)%Z) as [Hn|]; [|done].
  unfold Init in E. simpl in E. change (ThreadsCount empty_pool) with 0%Z in E.
  destruct n as [|p|p]; [| |lia]; simpl in E; simplify_eq.
  all: split; [done|]; split; [split; [done | intros τ w L; done]|].
  all: split; simpl; [lia | done].
Qed.

(** Where no thread has been detached, the sleeping threads are among
    those whose handles [_threads] holds. *)
Lemma idle_count_attached s :
  reachable s →
  (∀ τ w, os_threads s !! τ = Some w → w_status w ≠ Detached) →
  (Z.of_nat (length (os_threads s)) < 2 ^ 31)%Z →
  IdleThreadsCount s = Z.of_nat (idle_workers s) ∧
  (0 ≤ IdleThreadsCount s ≤ ThreadsCount s)%Z.
Proof.
  intros Hr Hd Hlen.
  pose proof (ThreadsCount_reachable s Hr) as HT.
  apply reachable_Inv in Hr as (_ & _ & Hid & (_ & _ & H5 & Hcnt) & _).
  unfold IdleThreadsCount. rewrite (Hid Hlen), HT. split; [done|].
  assert (idle_workers s ≤ count_if is_attached (os_threads s) + 0) as Hle.
  { rewrite <- (count_if_zero (λ _, false) (os_threads s)).
    - apply count_if_sum. intros w Hin Hidle. left.
      apply list_elem_of_lookup in Hin as (τ & L).
      unfold idle_worker in Hidle. unfold is_attached.
      destruct (w_status w) eqn:Est; [done | by destruct (Hd _ _ L) |].
      rewrite (H5 _ _ L Est) in Hidle. done.
    - by apply existsb_false_all. }
  pose proof (count_joinable_le (_threads s)). lia.
Qed.

(** C5.  In every state of a pool built by its constructor and driven
    through its interface ([Enqueue], [Stop], the steps of the caller and
    of the threads in any order, spurious wakeups included; [Init] is
    private and runs once, from the constructor), with a thread count
    below 2^31 (the counter is an [int]): [IdleThreadsCount()] is the
    number of threads between lines 185 and 191, and lies within
    [0, ThreadsCount()].  The states in which [Init] is still growing
    the pool and those in which [Stop] is clearing it are included. *)
Theorem C5_idle_count_within_thread_count n ls s :
  exec (Call (OpInit n) :: ls) empty_pool = Some s →
  forallb not_init ls = true →
  (n < 2 ^ 31)%Z →
  IdleThreadsCount s = Z.of_nat (idle_workers s) ∧
  (0 ≤ IdleThreadsCount s ≤ ThreadsCount s)%Z.
Proof.
  intros H Hl Hn.
  assert (reachable s) as Hr by by exists (Call (OpInit n) :: ls).
  simpl in H. destruct (step (Call (OpInit n)) empty_pool) as [s0|] eqn:E; [|done].
  simpl in H.
  destruct (constructor_call n s0 E) as (Hn0 & Hs0 & Hc0).
  destruct (never_shrunk_exec _ _ _ Hl Hs0 H) as (_ & Hd).
  destruct (constructed_with_exec n ls s0 s) as (Hlen & _); [lia|done..|].
  apply (idle_count_attached s Hr Hd). lia.
Qed.

Lemma C5_idle_count_within_thread_count_witness :
  IdleThreadsCount two_parked = 2%Z ∧
  IdleThreadsCount two_parked = Z.of_nat (idle_workers two_parked) ∧
  (0 ≤ IdleThreadsCount two_parked ≤ ThreadsCount two_parked)%Z.
Proof.
  split; [reflexivity|].
  apply (C5_idle_count_within_thread_count 2
           (acts 3 ++ runs_of 0 6 ++ runs_of 1 6)).
  - vm_compute. reflexivity.
  - reflexivity.
  - reflexivity.
Defined.

